(** * MetaMan: the project mirror (services/server_sync.py) and the
      server-path annotation of a session's file list (main.py,
      tabs/recording_tab.py)

    A shallow embedding of the Python code.

    - A file system is a finite map from resolved paths (lists of
      components) to nodes.  A directory node carries its listing, the
      order in which [os.scandir] reports its entries.
    - Effectful code is written in a state-and-exception monad: a
      computation takes the state of the world (file system, log sink,
      clock) and returns a value, raises a Python exception, or runs out
      of fuel.
    - The environment [env] holds what the code cannot decide: the clock,
      the rendering of a float, the size [os.stat] reports for a
      directory, and which system calls fail.
    - Transfer rates are Python floats in the source; they are exact
      rationals here and their rendering by [:.2f] is left to [env].
    - The file-system calls take resolved paths, which name a place below
      the root.  The empty path string, which [os.makedirs] and [open]
      reject, is therefore not among their arguments: what
      [copy_with_progress] does for a [dst] without a directory part is
      outside the model, and [sync_project_to_server] builds no such
      [dst] as long as its destination directory has a name.
    - A path string stands for the place [path_of] reads off it when it is
      [plain]: absolute, without a ["."] or [".."] among its components
      and without a NUL character.  What the mirror does for other strings
      (a relative path, the empty string, a path through [".."]) is outside
      the model; [plain] is a hypothesis where a statement depends on it.
      [os.path.exists], which the annotation loop asks about strings of
      any shape, follows the string component by component ([resolve]);
      the working directory, where relative strings start, is the root.
    - A file object writes through: [fdst.write] puts the chunk into the
      file when it is called, and a failure of the write shows at the
      call, not when the file is closed.
    - [os.path] is [posixpath].  Strings are byte strings (UTF-8); the
      separators the code looks at are ASCII, so cutting at them is the
      same on bytes and on code points. *)

From Stdlib Require Import QArith Ascii.
From stdpp Require Import gmap strings list fin_maps pretty.

Open Scope string_scope.
Open Scope list_scope.

(** ** Paths and the file system *)

Abbreviation path := (list string).

Inductive node :=
  | File (content : list Byte.byte)
  | Dir (names : list string).

Abbreviation fsmap := (gmap (list string) node).

Inductive exn :=
  | FileNotFoundError
  | FileExistsError
  | IsADirectoryError
  | NotADirectoryError
  | OSError.

#[global] Instance exn_eq_dec : EqDecision exn.
Proof. solve_decision. Defined.

Record state := State {
  st_fs : fsmap;
  st_log : list string;
  st_clock : nat
}.

Record env := Env {
  time_at : nat -> Q;
  fmt_2f : Q -> string;
  dir_st_size : path -> N;
  open_read_fails : path -> bool;
  open_write_fails : path -> bool;
  read_fails : path -> N -> bool;
  write_fails : path -> N -> bool;
  copystat_fails : path -> path -> bool
}.

Inductive outcome (A : Type) :=
  | Ok (a : A) (st : state)
  | Raise (e : exn) (st : state)
  | Diverge.
Arguments Ok {A} a st.
Arguments Raise {A} e st.
Arguments Diverge {A}.

Definition M (A : Type) : Type := state -> outcome A.

Definition ret {A} (a : A) : M A := fun st => Ok a st.

Definition bind {A B} (m : M A) (k : A -> M B) : M B :=
  fun st =>
    match m st with
    | Ok a st' => k a st'
    | Raise e st' => Raise e st'
    | Diverge => Diverge
    end.

Definition raise {A} (e : exn) : M A := fun st => Raise e st.

Notation "'let*' x ':=' m 'in' k" := (bind m (fun x => k))
  (at level 10, x pattern, m at level 100, k at level 200).
Notation "m ';;' k" := (bind m (fun _ => k))
  (at level 100, k at level 200, right associativity).

(** [for x in l: body x] *)
Fixpoint for_each {A} (body : A -> M unit) (l : list A) : M unit :=
  match l with
  | [] => ret tt
  | x :: l' => body x ;; for_each body l'
  end.

(** [try: m  except Exception: handler] *)
Definition try_except {A} (m : M A) (handler : M A) : M A :=
  fun st =>
    match m st with
    | Ok a st' => Ok a st'
    | Raise _ st' => handler st'
    | Diverge => Diverge
    end.

Definition get_fs : M fsmap := fun st => Ok (st_fs st) st.

Definition put_fs (f : fsmap) : M unit :=
  fun st => Ok tt (State f (st_log st) (st_clock st)).

(** The log sink [log(s)]: the lines it received, oldest first. *)
Definition log (s : string) : M unit :=
  fun st => Ok tt (State (st_fs st) (st_log st ++ [s]) (st_clock st)).

(** [time.time()] *)
Definition time_time (E : env) : M Q :=
  fun st => Ok (time_at E (st_clock st))
               (State (st_fs st) (st_log st) (S (st_clock st))).

(** ** [os] and [os.path] on resolved paths *)

Definition is_dir (f : fsmap) (p : path) : bool :=
  match f !! p with Some (Dir _) => true | _ => false end.

(** [os.path.exists] *)
Definition path_exists (f : fsmap) (p : path) : bool :=
  match f !! p with Some _ => true | None => false end.

(** [os.path.getsize]: [None] stands for the [OSError] of [os.stat]. *)
Definition getsize (E : env) (f : fsmap) (p : path) : option N :=
  match f !! p with
  | Some (File c) => Some (N.of_nat (length c))
  | Some (Dir _) => Some (dir_st_size E p)
  | None => None
  end.

(** [os.path.split] on a resolved path: parent and last component. *)
Fixpoint unsnoc (p : path) : option (path * string) :=
  match p with
  | [] => None
  | x :: p' =>
      match unsnoc p' with
      | None => Some ([], x)
      | Some (q, y) => Some (x :: q, y)
      end
  end.

(** [os.path.dirname]; the root is its own parent. *)
Definition dirname (p : path) : path :=
  match unsnoc p with Some (q, _) => q | None => [] end.

(** [os.path.basename] *)
Definition basename (p : path) : string :=
  match unsnoc p with Some (_, x) => x | None => "" end.

(** [os.mkdir] *)
Definition mkdir (p : path) : M unit :=
  fun st =>
    let f := st_fs st in
    if path_exists f p then Raise FileExistsError st
    else match unsnoc p with
         | None => Raise FileNotFoundError st
         | Some (parent, name) =>
             match f !! parent with
             | None => Raise FileNotFoundError st
             | Some (File _) => Raise NotADirectoryError st
             | Some (Dir names) =>
                 Ok tt (State (<[p := Dir []]> (<[parent := Dir (names ++ [name])]> f))
                              (st_log st) (st_clock st))
             end
         end.

(** [os.makedirs(p, exist_ok=True)], by recursion on the reversed path:
    missing ancestors first (a [FileExistsError] there is swallowed), then
    [mkdir p], whose failure is forgiven when [p] is a directory. *)
Fixpoint makedirs_rev (rp : list string) : M unit :=
  let p := rev rp in
  let mk : M unit :=
    fun st =>
      match mkdir p st with
      | Raise e st' => if is_dir (st_fs st') p then Ok tt st' else Raise e st'
      | r => r
      end in
  match rp with
  | [] => mk
  | _ :: rparent =>
      (fun st =>
         if path_exists (st_fs st) (rev rparent) then Ok tt st
         else match makedirs_rev rparent st with
              | Raise FileExistsError st' => Ok tt st'
              | r => r
              end) ;;
      mk
  end.

Definition makedirs (p : path) : M unit := makedirs_rev (rev p).

Definition _ensure_dir (p : path) : M unit := makedirs p.

(** ** File objects *)

(** [fsrc.read(n)] hands out at most [n] bytes of what is left. *)
Fixpoint take_N {A} (n : N) (l : list A) : list A :=
  match l with
  | [] => []
  | x :: l' => if (n =? 0)%N then [] else x :: take_N (N.pred n) l'
  end.

Fixpoint drop_N {A} (n : N) (l : list A) : list A :=
  match l with
  | [] => []
  | x :: l' => if (n =? 0)%N then l else drop_N (N.pred n) l'
  end.

(** [open(src, "rb")]: the bytes of the file, to be read front to back. *)
Definition open_rb (E : env) (src : path) : M (list Byte.byte) :=
  fun st =>
    match st_fs st !! src with
    | None => Raise FileNotFoundError st
    | Some (Dir _) => Raise IsADirectoryError st
    | Some (File c) => if open_read_fails E src then Raise OSError st else Ok c st
    end.

(** [open(dst, "wb")]: creates the file in an existing directory, or
    truncates it. *)
Definition open_wb (E : env) (dst : path) : M unit :=
  fun st =>
    let f := st_fs st in
    match f !! dst with
    | Some (Dir _) => Raise IsADirectoryError st
    | Some (File _) =>
        if open_write_fails E dst then Raise OSError st
        else Ok tt (State (<[dst := File []]> f) (st_log st) (st_clock st))
    | None =>
        match unsnoc dst with
        | None => Raise FileNotFoundError st
        | Some (parent, name) =>
            match f !! parent with
            | None => Raise FileNotFoundError st
            | Some (File _) => Raise NotADirectoryError st
            | Some (Dir names) =>
                if open_write_fails E dst then Raise OSError st
                else Ok tt (State (<[dst := File []]> (<[parent := Dir (names ++ [name])]> f))
                                  (st_log st) (st_clock st))
            end
        end
    end.

(** [fsrc.read(n)] at offset [pos], [rest] being the bytes not yet read. *)
Definition read (E : env) (src : path) (n pos : N) (rest : list Byte.byte)
  : M (list Byte.byte * list Byte.byte) :=
  fun st =>
    if read_fails E src pos then Raise OSError st
    else Ok (take_N n rest, drop_N n rest) st.

Definition append_bytes (chunk : list Byte.byte) (x : node) : node :=
  match x with
  | File c => File (c ++ chunk)
  | Dir names => Dir names
  end.

(** [fdst.write(chunk)] at offset [pos]; the chunk goes to the file at
    once, no buffer holds it back. *)
Definition write (E : env) (dst : path) (pos : N) (chunk : list Byte.byte) : M unit :=
  fun st =>
    if write_fails E dst pos then Raise OSError st
    else Ok tt (State (alter (append_bytes chunk) dst (st_fs st)) (st_log st) (st_clock st)).

(** [shutil.copystat(src, dst)]: times and permission bits are not part of
    [node], so all that is left of it is whether it raises. *)
Definition copystat (E : env) (src dst : path) : M unit :=
  fun st => if copystat_fails E src dst then Raise OSError st else Ok tt st.

(** ** config.py *)

Definition COPY_CHUNK_BYTES : N := 4 * 1024 * 1024.

(** ** services/server_sync.py *)

Definition _needs_copy (E : env) (f : fsmap) (src dst : path) : bool :=
  if negb (path_exists f dst) then true
  else match getsize E f src, getsize E f dst with
       | Some a, Some b => negb (a =? b)%N
       | _, _ => true
       end.

(** [max(t, 1e-6)] *)
Definition clamp_dt (t : Q) : Q :=
  if Qle_bool (1 # 1000000) t then t else (1 # 1000000)%Q.

Definition rate (copied : N) (dt : Q) : Q :=
  (inject_Z (Z.of_N copied) / clamp_dt dt)%Q.

Definition mbps_text (E : env) (bps : Q) : string :=
  fmt_2f E (bps / inject_Z 1024 / inject_Z 1024)%Q.

Definition progress_line (E : env) (src : path) (copied total : N) (bps : Q) : string :=
  "Copying " +:+ basename src +:+ ": " +:+ pretty copied +:+ "/" +:+ pretty total
    +:+ " bytes (" +:+ mbps_text E bps +:+ " MB/s)".

Definition getsize_or_raise (E : env) (p : path) : M N :=
  fun st =>
    match getsize E (st_fs st) p with
    | Some n => Ok n st
    | None => Raise FileNotFoundError st
    end.

(** The [while True] loop of [copy_with_progress]; [fuel] bounds the number
    of iterations, [rest] is the unread part of the source. *)
Fixpoint copy_loop (fuel : nat) (E : env) (src dst : path) (total : N) (start : Q)
    (rest : list Byte.byte) (copied : N) : M N :=
  match fuel with
  | O => fun _ => Diverge
  | S fuel' =>
      let* r := read E src COPY_CHUNK_BYTES copied rest in
      let chunk := r.1 in
      let rest' := r.2 in
      match chunk with
      | [] => ret copied
      | _ :: _ =>
          write E dst copied chunk ;;
          let copied' := (copied + N.of_nat (length chunk))%N in
          let* now := time_time E in
          let bps := rate copied' (now - start) in
          log (progress_line E src copied' total bps) ;;
          copy_loop fuel' E src dst total start rest' copied'
      end
  end.

Definition copy_with_progress (E : env) (src dst : path) : M (bool * Q) :=
  _ensure_dir (dirname dst) ;;
  let* f := get_fs in
  if negb (_needs_copy E f src dst) then ret (false, 0%Q)
  else
    let* total := getsize_or_raise E src in
    let* start := time_time E in
    let* rest := open_rb E src in
    open_wb E dst ;;
    let* copied := copy_loop (S (length rest)) E src dst total start rest 0%N in
    try_except (copystat E src dst) (ret tt) ;;
    let* now := time_time E in
    ret (true, rate copied (now - start)).

(** ** [str] and [posixpath] on path strings *)

Definition is_slash (c : ascii) : bool := Ascii.eqb c "/".

Fixpoint in_chars (c : ascii) (chars : string) : bool :=
  match chars with
  | EmptyString => false
  | String d chars' => Ascii.eqb c d || in_chars c chars'
  end.

(** [s.rstrip(chars)] *)
Fixpoint rstrip (chars : string) (s : string) : string :=
  match s with
  | EmptyString => EmptyString
  | String c s' =>
      match rstrip chars s' with
      | EmptyString => if in_chars c chars then EmptyString else String c EmptyString
      | r => String c r
      end
  end.

(** What follows the last ["/"] of [s], when [s] has one. *)
Fixpoint after_last_slash (s : string) : option string :=
  match s with
  | EmptyString => None
  | String c s' =>
      match after_last_slash s' with
      | Some r => Some r
      | None => if is_slash c then Some s' else None
      end
  end.

(** [posixpath.basename] *)
Definition posix_basename (s : string) : string :=
  match after_last_slash s with Some r => r | None => s end.

Fixpoint ends_with_slash (s : string) : bool :=
  match s with
  | EmptyString => false
  | String c EmptyString => is_slash c
  | String _ s' => ends_with_slash s'
  end.

Definition starts_with_slash (s : string) : bool :=
  match s with String c _ => is_slash c | EmptyString => false end.

(** [posixpath.join(a, b)] *)
Definition posix_join (a b : string) : string :=
  if starts_with_slash b then b
  else match a with
       | EmptyString => b
       | _ => if ends_with_slash a then a +:+ b else a +:+ "/" +:+ b
       end.

(** [s.split("/")], as its first piece and the others. *)
Fixpoint split_slash (s : string) : string * list string :=
  match s with
  | EmptyString => (EmptyString, [])
  | String c s' =>
      let r := split_slash s' in
      if is_slash c then (EmptyString, r.1 :: r.2) else (String c r.1, r.2)
  end.

Definition nonempty (s : string) : bool :=
  match s with EmptyString => false | _ => true end.

(** The path a string resolves to: its non-empty components in order.
    Relative paths start at the root of the name space; ["."] and [".."]
    are not interpreted. *)
Definition path_of (s : string) : path :=
  let r := split_slash s in List.filter nonempty (r.1 :: r.2).

(** ["."] and [".."], the names every directory has for itself and for its
    parent. *)
Definition is_dot (c : string) : bool := String.eqb c "." || String.eqb c "..".

(** No character of [s] is NUL, which no system call takes in a path. *)
Fixpoint no_nul (s : string) : bool :=
  match s with
  | EmptyString => true
  | String c s' => negb (Ascii.eqb c "000") && no_nul s'
  end.

(** A path string that names its place component by component, from the
    root: it starts with ["/"], has no NUL in it, and none of its
    components is ["."] or [".."].  For such a string [path_of] is the
    place the system calls resolve it to. *)
Definition plain (s : string) : bool :=
  starts_with_slash s && no_nul s && forallb (fun c => negb (is_dot c)) (path_of s).

Fixpoint common_prefix_length (p q : path) : nat :=
  match p, q with
  | x :: p', y :: q' => if String.eqb x y then S (common_prefix_length p' q') else 0
  | _, _ => 0
  end.

(** [os.path.relpath(p, start)] on resolved paths; [[]] is ["."]. *)
Definition relpath (p start : path) : path :=
  let i := common_prefix_length start p in
  replicate (length start - i) ".." ++ drop i p.

(** The text of a relative path. *)
Definition path_text (p : path) : string :=
  match p with
  | [] => "."
  | _ => String.concat "/" p
  end.

(** ** [os.walk] *)

(** One [os.scandir] pass over [top]: sub-directories and other entries,
    each in listing order.  [None]: [top] cannot be listed. *)
Definition scandir (f : fsmap) (top : path) : option (list string * list string) :=
  match f !! top with
  | Some (Dir names) =>
      Some (List.filter (fun x => is_dir f (top ++ [x])) names,
            List.filter (fun x => negb (is_dir f (top ++ [x]))) names)
  | _ => None
  end.

(** [for root, dirs, files in os.walk(top): body(root, dirs, files)].
    The generator lists a directory when it is resumed there, so [top] is
    listed in the state its turn finds, the body runs, and then the
    sub-directories are walked in order.  A directory that cannot be listed
    is passed over in silence ([onerror=None]). *)
Fixpoint walk (fuel : nat) (body : path -> list string -> list string -> M unit)
    (top : path) : M unit :=
  match fuel with
  | O => fun _ => Diverge
  | S fuel' =>
      fun st =>
        match scandir (st_fs st) top with
        | None => Ok tt st
        | Some (dirs, files) =>
            (body top dirs files ;;
             for_each (fun d => walk fuel' body (top ++ [d])) dirs) st
        end
  end.

Definition check_mark : string :=
  String "226" (String "156" (String "147" EmptyString)).

Definition already_line (rel : path) : string :=
  check_mark +:+ " Already on server: " +:+ path_text rel.

Definition copied_line (E : env) (rel : path) (bps : Q) : string :=
  check_mark +:+ " Copied to server at " +:+ path_text rel +:+ " @ "
    +:+ mbps_text E bps +:+ " MB/s".

(** The body of the inner [for f in files] loop. *)
Definition sync_file (E : env) (server_root root dst_dir : path) (f : string) : M unit :=
  let src := root ++ [f] in
  let dst := dst_dir ++ [f] in
  let* r := copy_with_progress E src dst in
  let copied := r.1 in
  let bps := r.2 in
  if negb copied then log (already_line (relpath dst server_root))
  else log (copied_line E (relpath dst server_root) bps).

(** The body of the [for root, dirs, files in os.walk(project_dir)] loop. *)
Definition sync_dir (E : env) (project_dir server_root dst_project : path)
    (root : path) (dirs files : list string) : M unit :=
  let rel := relpath root project_dir in
  let dst_dir := match rel with [] => dst_project | _ => dst_project ++ rel end in
  _ensure_dir dst_dir ;;
  for_each (fun d => _ensure_dir (dst_dir ++ [d])) dirs ;;
  for_each (sync_file E server_root root dst_dir) files.

Definition project_name_of (project_dir : string) : string :=
  posix_basename (rstrip "/\" project_dir).

Definition dst_project_of (project_dir server_root : string) : string :=
  posix_join server_root (project_name_of project_dir).

Definition sync_project_to_server (E : env) (fuel : nat)
    (project_dir server_root : string) : M unit :=
  let project_name := posix_basename (rstrip "/\" project_dir) in
  let dst_project := posix_join server_root project_name in
  _ensure_dir (path_of dst_project) ;;
  walk fuel
    (sync_dir E (path_of project_dir) (path_of server_root) (path_of dst_project))
    (path_of project_dir).

(** * Specification vocabulary *)

(** ** Steps of the file system *)

(** What [os.makedirs] may do on the way to [p]: entries off that way stay
    as they are, files are neither made nor changed, directories stay
    directories. *)
Definition grows_to (p : path) (f f' : fsmap) : Prop :=
  (forall q, ~ q `prefix_of` p -> f' !! q = f !! q) /\
  (forall q c, f !! q = Some (File c) <-> f' !! q = Some (File c)) /\
  (forall q, is_dir f q = true -> is_dir f' q = true).

(** What a copy to [dst] may do: as [grows_to], but for the file at [dst]. *)
Definition writes_at (dst : path) (f f' : fsmap) : Prop :=
  (forall q, ~ q `prefix_of` dst -> f' !! q = f !! q) /\
  (forall q c, q <> dst -> f !! q = Some (File c) <-> f' !! q = Some (File c)) /\
  (forall q, is_dir f q = true -> is_dir f' q = true) /\
  (forall q, path_exists f q = true -> path_exists f' q = true).

Definition same_meta (st st' : state) : Prop :=
  st_log st' = st_log st /\ st_clock st' = st_clock st.

(** [os.makedirs] has made [p]: it is a directory and its parent is there. *)
Definition made (p : path) (f : fsmap) : Prop :=
  is_dir f p = true /\ path_exists f (dirname p) = true.

(** A file system is a tree: the root is a directory and every entry lies
    in a directory. *)
Definition wf_fs (f : fsmap) : Prop :=
  is_dir f [] = true /\
  map_Forall (fun p _ => is_dir f (dirname p) = true) f.

(** ** The chunks of a copy *)

Fixpoint chunks_fuel {A} (fuel : nat) (n : N) (l : list A) : list (list A) :=
  match fuel with
  | O => []
  | S fuel' =>
      match take_N n l with
      | [] => []
      | c => c :: chunks_fuel fuel' n (drop_N n l)
      end
  end.

(** [l] cut into pieces of [n] elements, the last one possibly shorter. *)
Definition chunks {A} (n : N) (l : list A) : list (list A) :=
  chunks_fuel (length l) n l.

(** The copy loop, chunk by chunk: write the chunk at its offset, tell the
    log; after the last chunk one more [read] finds the end of the file. *)
Fixpoint copy_chunks (E : env) (src dst : path) (total : N) (start : Q)
    (cs : list (list Byte.byte)) (copied : N) : M N :=
  match cs with
  | [] => fun st => if read_fails E src copied then Raise OSError st else Ok copied st
  | c :: cs' =>
      fun st =>
        if read_fails E src copied then Raise OSError st
        else
          (write E dst copied c ;;
           let copied' := (copied + N.of_nat (length c))%N in
           let* now := time_time E in
           log (progress_line E src copied' total (rate copied' (now - start))) ;;
           copy_chunks E src dst total start cs' copied') st
  end.

(** A summary line of the mirror starts with the check mark. *)
Definition is_summary (line : string) : bool := String.prefix check_mark line.

(** The log grew by lines that are not summary lines. *)
Definition logs_progress (st st' : state) : Prop :=
  exists lines, st_log st' = st_log st ++ lines /\
    Forall (fun l => is_summary l = false) lines.

(** ** The plan of a mirror run *)

(** The steps of a run, named by the directory [r] (relative to the project
    directory) they belong to.  [OutOfFuel] marks where the bound on the
    depth of the walk was hit. *)
Inductive action :=
  | EnsureDir (r : path)
  | SyncFile (r : path) (f : string)
  | OutOfFuel.

#[global] Instance action_eq_dec : EqDecision action.
Proof. solve_decision. Defined.

(** The directory a step belongs to. *)
Definition dir_of (a : action) : path :=
  match a with
  | EnsureDir r => r
  | SyncFile r _ => r
  | OutOfFuel => []
  end.

Section Plan.

Variable E : env.
Variables proj srv dstp : path.

Definition run_action (a : action) : M unit :=
  match a with
  | EnsureDir r => _ensure_dir (dstp ++ r)
  | SyncFile r f => sync_file E srv (proj ++ r) (dstp ++ r) f
  | OutOfFuel => fun _ => Diverge
  end.

Definition run_plan (l : list action) : M unit := for_each run_action l.

(** The steps the walk takes below [proj ++ r] when it lists the
    directories as they are in [f]. *)
Fixpoint plan (fuel : nat) (f : fsmap) (r : path) : list action :=
  match fuel with
  | O => [OutOfFuel]
  | S fuel' =>
      match scandir f (proj ++ r) with
      | None => []
      | Some (dirs, files) =>
          EnsureDir r :: map (fun d => EnsureDir (r ++ [d])) dirs
            ++ map (SyncFile r) files
            ++ concat (map (fun d => plan fuel' f (r ++ [d])) dirs)
      end
  end.

(** The path a step writes to; all it changes lies on the way there. *)
Definition target (a : action) : path :=
  match a with
  | EnsureDir r => dstp ++ r
  | SyncFile r f => dstp ++ r ++ [f]
  | OutOfFuel => []
  end.

(** What holds once a step is done, and keeps holding. *)
Definition settled (a : action) (f : fsmap) : Prop :=
  match a with
  | EnsureDir r => made (dstp ++ r) f
  | SyncFile r x =>
      made (dstp ++ r) f /\
      _needs_copy E f (proj ++ r ++ [x]) (dstp ++ r ++ [x]) = false
  | OutOfFuel => False
  end.

(** The summary line of a file, one way or the other. *)
Definition summary_of (r : path) (x : string) (line : string) : Prop :=
  line = already_line (relpath (dstp ++ r ++ [x]) srv) \/
  exists bps, line = copied_line E (relpath (dstp ++ r ++ [x]) srv) bps.

End Plan.

(** The files of a plan, in order. *)
Definition plan_files (l : list action) : list (path * string) :=
  omap (fun a => match a with SyncFile r x => Some (r, x) | _ => None end) l.

(** The files the walk meets below [proj], in the order it meets them:
    the directory (relative to [proj]) and the name of each. *)
Definition walk_files (proj : path) (fuel : nat) (f : fsmap) : list (path * string) :=
  plan_files (plan proj fuel f []).

(** Neither tree lies inside the other. *)
Definition disjoint_roots (proj dstp : path) : Prop :=
  ~ proj `prefix_of` dstp /\ ~ dstp `prefix_of` proj.

(** [f'] is [f] on and below [root]. *)
Definition agree_under (root : path) (f f' : fsmap) : Prop :=
  forall q, root `prefix_of` q -> f' !! q = f !! q.

(** [x] is in the listing of the directory [p]. *)
Definition listed (f : fsmap) (p : path) (x : string) : Prop :=
  exists names, f !! p = Some (Dir names) /\ x ∈ names.

(** The walk from [proj] gets to the directory [proj ++ r]: every step on
    the way is a listed sub-directory. *)
Definition walks_to (f : fsmap) (proj r : path) : Prop :=
  forall q x, (q ++ [x]) `prefix_of` r ->
    listed f (proj ++ q) x /\ is_dir f (proj ++ q ++ [x]) = true.

(** [proj ++ r ++ [x]] is a file of the project tree holding [c]. *)
Definition source_file (f : fsmap) (proj r : path) (x : string)
    (c : list Byte.byte) : Prop :=
  walks_to f proj r /\ listed f (proj ++ r) x /\
  f !! (proj ++ r ++ [x]) = Some (File c).

(** The environment [E] with another answer to "does [copystat] fail". *)
Definition with_copystat (E : env) (g : path -> path -> bool) : env :=
  Env (time_at E) (fmt_2f E) (dir_st_size E) (open_read_fails E)
      (open_write_fails E) (read_fails E) (write_fails E) g.

(** * The server-path annotation of a session's file list
      (main.py, tabs/recording_tab.py) *)

(** ** [str.replace] *)

(** [new] before every character of [s] and after the last: what
    [s.replace("", new)] gives. *)
Fixpoint intersperse_new (new s : string) : string :=
  match s with
  | EmptyString => new
  | String c s' => new +:+ String c (intersperse_new new s')
  end.

(** The scan of [s.replace(old, new)] for a non-empty [old]: [skip] counts
    the characters of an occurrence still to be passed over. *)
Fixpoint replace_scan (old new : string) (skip : nat) (s : string) : string :=
  match s with
  | EmptyString => EmptyString
  | String c s' =>
      match skip with
      | S k => replace_scan old new k s'
      | O =>
          if String.prefix old s
          then new +:+ replace_scan old new (String.length old - 1) s'
          else String c (replace_scan old new 0 s')
      end
  end.

(** [s.replace(old, new)]: every occurrence, left to right, not
    overlapping. *)
Definition str_replace (old new s : string) : string :=
  match old with
  | EmptyString => intersperse_new new s
  | _ => replace_scan old new 0 s
  end.

(** [old] occurs in [s]. *)
Fixpoint occurs (old s : string) : bool :=
  String.prefix old s ||
  match s with
  | EmptyString => false
  | String _ s' => occurs old s'
  end.

Fixpoint drop_str (n : nat) (s : string) : string :=
  match n, s with
  | S k, String _ s' => drop_str k s'
  | _, _ => s
  end.

(** The place the components [cs] lead to from the directory [cur], as
    [os.stat] follows them: every step starts in a directory; an empty
    component and ["."] stay there, [".."] goes to the parent (the root is
    its own parent), a name goes to the entry of that name.  A string that
    ends with ["/"] has an empty last component, so what lies before it
    must be a directory. *)
Fixpoint resolve_from (f : fsmap) (cur : path) (cs : list string) : option path :=
  match cs with
  | [] => Some cur
  | c :: cs' =>
      if is_dir f cur then
        if negb (nonempty c) || String.eqb c "." then resolve_from f cur cs'
        else if String.eqb c ".." then resolve_from f (dirname cur) cs'
        else resolve_from f (cur ++ [c]) cs'
      else None
  end.

(** The place a path string resolves to; a relative string starts at the
    root, the working directory of the model. *)
Definition resolve (f : fsmap) (s : string) : option path :=
  let r := split_slash s in resolve_from f [] (r.1 :: r.2).

(** [os.path.exists] on a path string: [os.stat] finds an entry.  [""]
    names nothing, and a string with a NUL in it is an error of [os.stat],
    which [os.path.exists] answers with [False]. *)
Definition str_exists (f : fsmap) (s : string) : bool :=
  nonempty s && no_nul s &&
  match resolve f s with
  | Some p => path_exists f p
  | None => false
  end.

(** [posixpath.join(a, b, c, d)] *)
Definition posix_join4 (a b c d : string) : string :=
  posix_join (posix_join (posix_join a b) c) d.

(** ** Records of the file list *)

(** A value of a record read from [metadata.json]. *)
Inductive pyval :=
  | VStr (s : string)
  | VInt (n : Z)
  | VNone.

(** The records are [dict] objects: the heap maps the address of each to
    its items, and [file_list] is a list of addresses.  An address without
    an object reads as the empty [dict]. *)
Abbreviation pydict := (gmap string pyval).
Abbreviation heap := (gmap nat (gmap string pyval)).

Inductive pyexn :=
  | KeyError
  | AttributeError.

Inductive pyres :=
  | Done (h : heap)
  | Raised (e : pyexn) (h : heap).

Definition item_at (h : heap) (a : nat) : pydict := default ∅ (h !! a).

(** The body of [for item in file_list]:
    [spath = item["path"].replace(session_dir, server_dir)];
    [item["server_path"] = spath if os.path.exists(spath) else ""]. *)
Definition annotate_item (f : fsmap) (session_dir server_dir : string)
    (a : nat) (h : heap) : pyres :=
  let item := item_at h a in
  match item !! "path" with
  | None => Raised KeyError h
  | Some (VStr p) =>
      let spath := str_replace session_dir server_dir p in
      Done (<[a := <["server_path" := VStr (if str_exists f spath then spath else "")]> item]> h)
  | Some _ => Raised AttributeError h
  end.

(** The loop over the file list, as it stands in [update_file_list] and in
    [_copy_to_server]. *)
Fixpoint annotate_server_paths (f : fsmap) (session_dir server_dir : string)
    (file_list : list nat) (h : heap) : pyres :=
  match file_list with
  | [] => Done h
  | a :: l =>
      match annotate_item f session_dir server_dir a h with
      | Done h' => annotate_server_paths f session_dir server_dir l h'
      | Raised e h' => Raised e h'
      end
  end.

(** The loop with the directories [_copy_to_server] gives it. *)
Definition annotate_after_copy (f : fsmap) (raw_root server_dir proj animal session : string)
    (file_list : list nat) (h : heap) : pyres :=
  let server_project := posix_join server_dir proj in
  let session_dir := posix_join4 raw_root proj animal session in
  annotate_server_paths f session_dir
    (posix_join (posix_join server_project animal) session) file_list h.

(** The value the loop gives [server_path] for a record with path [p]. *)
Definition server_path_for (f : fsmap) (session_dir server_dir p : string) : string :=
  let spath := str_replace session_dir server_dir p in
  if str_exists f spath then spath else "".

(** ** Shapes of path strings *)

(** Every character of [s] is one of [chars]. *)
Fixpoint all_in (chars s : string) : bool :=
  match s with
  | EmptyString => true
  | String c s' => in_chars c chars && all_in chars s'
  end.

(** [s] is empty or its last character is none of [chars]. *)
Fixpoint ends_clear (chars s : string) : bool :=
  match s with
  | EmptyString => true
  | String c EmptyString => negb (in_chars c chars)
  | String _ s' => ends_clear chars s'
  end.

Fixpoint has_slash (s : string) : bool :=
  match s with
  | EmptyString => false
  | String c s' => is_slash c || has_slash s'
  end.

(** ** The claims in the words of the specification *)

(** The candidate server path "derived by substituting the sessionRawDir
    prefix of record.path with sessionServerDir". *)
Definition candidate_by_prefix (session_dir server_dir p : string) : option string :=
  if String.prefix session_dir p
  then Some (server_dir +:+ drop_str (String.length session_dir) p)
  else None.

(** The summary lines as the specification writes them. *)
Definition already_text (rel : path) : string :=
  "Already on server: " +:+ path_text rel.

Definition copied_text (E : env) (rel : path) (bps : Q) : string :=
  "Copied to server at " +:+ path_text rel +:+ " @ " +:+ mbps_text E bps +:+ " MB/s".

(** ** Runs to look at *)

Definition quiet_env : env :=
  Env (fun n => inject_Z (Z.of_nat n)) (fun _ => "0.00") (fun _ => 4096%N)
      (fun _ => false) (fun _ => false) (fun _ _ => false) (fun _ _ => false)
      (fun _ _ => false).

Definition state_of (r : outcome unit) (otherwise : state) : state :=
  match r with Ok _ st => st | _ => otherwise end.

(** [/raw/Proj] holds [a.bin] and [A/b.bin]; [/srv] is empty. *)
Definition demo_fs : fsmap :=
  list_to_map
    [ ([], Dir ["raw"; "srv"]);
      (["raw"], Dir ["Proj"]);
      (["raw"; "Proj"], Dir ["a.bin"; "A"]);
      (["raw"; "Proj"; "a.bin"], File [Byte.x01; Byte.x02]);
      (["raw"; "Proj"; "A"], Dir ["b.bin"]);
      (["raw"; "Proj"; "A"; "b.bin"], File [Byte.x03]);
      (["srv"], Dir []) ].

Definition demo_state : state := State demo_fs [] 0.

Definition demo_mirrored : state :=
  state_of (sync_project_to_server quiet_env 5 "/raw/Proj/" "/srv" demo_state) demo_state.

(** [/srv/Proj/a.bin] is there already, as long as [/raw/Proj/a.bin] but
    with other bytes. *)
Definition stale_fs : fsmap :=
  list_to_map
    [ ([], Dir ["raw"; "srv"]);
      (["raw"], Dir ["Proj"]);
      (["raw"; "Proj"], Dir ["a.bin"]);
      (["raw"; "Proj"; "a.bin"], File [Byte.x01; Byte.x02]);
      (["srv"], Dir ["Proj"]);
      (["srv"; "Proj"], Dir ["a.bin"]);
      (["srv"; "Proj"; "a.bin"], File [Byte.x07; Byte.x07]) ].

Definition stale_state : state := State stale_fs [] 0.

Definition stale_mirrored : state :=
  state_of (sync_project_to_server quiet_env 5 "/raw/Proj" "/srv" stale_state) stale_state.

(** The project [/d/p/p] is mirrored to the server root [/d]: its mirror
    [/d/p] is the directory the project lies in. *)
Definition nested_fs : fsmap :=
  list_to_map
    [ ([], Dir ["d"]);
      (["d"], Dir ["p"]);
      (["d"; "p"], Dir ["p"]);
      (["d"; "p"; "p"], Dir ["p"]);
      (["d"; "p"; "p"; "p"], Dir ["x.bin"]);
      (["d"; "p"; "p"; "p"; "x.bin"], File [Byte.x01]) ].

Definition nested_state : state := State nested_fs [] 0.

Definition nested_once : state :=
  state_of (sync_project_to_server quiet_env 5 "/d/p/p" "/d" nested_state) nested_state.

Definition nested_twice : state :=
  state_of (sync_project_to_server quiet_env 5 "/d/p/p" "/d" nested_once) nested_once.

(** The root holds [a.bin] and nothing else. *)
Definition root_fs : fsmap :=
  list_to_map [ ([], Dir ["a.bin"]); (["a.bin"], File [Byte.x01]) ].

Definition root_state : state := State root_fs [] 0.

(** [wf_fs], computed. *)
Definition wf_fsb (f : fsmap) : bool :=
  is_dir f [] && forallb (fun pn => is_dir f (dirname pn.1)) (map_to_list f).

(** The record at [a] has a string under ["path"]. *)
Definition has_path (h : heap) (a : nat) : Prop :=
  exists p, item_at h a !! "path" = Some (VStr p).

Definition heap_of (r : pyres) : heap :=
  match r with Done h => h | Raised _ h => h end.

(** A session with [f.bin] on the server and [g.bin] not; the record of
    [g.bin] still has the place an earlier server root gave it.  [/old/h.bin]
    is a file outside the session, and [bak] a copy of the tree kept inside
    it. *)
Definition recon_fs : fsmap :=
  list_to_map
    [ ([], Dir ["raw"; "srv"; "old"]);
      (["raw"], Dir ["S"]);
      (["raw"; "S"], Dir ["f.bin"; "g.bin"; "bak"]);
      (["raw"; "S"; "f.bin"], File [Byte.x01]);
      (["raw"; "S"; "g.bin"], File [Byte.x02]);
      (["raw"; "S"; "bak"], Dir ["raw"]);
      (["raw"; "S"; "bak"; "raw"], Dir ["S"]);
      (["raw"; "S"; "bak"; "raw"; "S"], Dir ["f.bin"]);
      (["raw"; "S"; "bak"; "raw"; "S"; "f.bin"], File [Byte.x01]);
      (["srv"], Dir ["S"]);
      (["srv"; "S"], Dir ["f.bin"; "bak"]);
      (["srv"; "S"; "f.bin"], File [Byte.x01]);
      (["srv"; "S"; "bak"], Dir ["raw"]);
      (["srv"; "S"; "bak"; "raw"], Dir ["S"]);
      (["srv"; "S"; "bak"; "raw"; "S"], Dir ["f.bin"]);
      (["srv"; "S"; "bak"; "raw"; "S"; "f.bin"], File [Byte.x01]);
      (["old"], Dir ["h.bin"]);
      (["old"; "h.bin"], File [Byte.x03]) ].

Definition recon_heap : heap :=
  list_to_map
    [ (0, list_to_map [("path", VStr "/raw/S/f.bin"); ("size", VInt 1)]);
      (1, list_to_map [("path", VStr "/raw/S/g.bin"); ("size", VInt 1);
                       ("server_path", VStr "/mnt/S/g.bin")]);
      (2, list_to_map [("path", VStr "/raw/S/bak/raw/S/f.bin"); ("size", VInt 1)]);
      (3, list_to_map [("path", VStr "/old/h.bin"); ("size", VInt 1)]) ].

Definition recon_heap' : heap :=
  heap_of (annotate_server_paths recon_fs "/raw/S" "/srv/S" [0; 1; 2; 3] recon_heap).

(** Reading [/raw/Proj/a.bin] fails. *)
Definition faulty_env : env :=
  Env (time_at quiet_env) (fmt_2f quiet_env) (dir_st_size quiet_env)
      (fun _ => false) (fun _ => false)
      (fun p _ => bool_decide (p = ["raw"; "Proj"; "a.bin"])) (fun _ _ => false)
      (fun _ _ => false).

(** * Further definitions *)

(** ** The progress lines of a copy *)

(** The lines the copy loop logs for the chunks [cs], the first of them
    after [copied] bytes, when the clock has been read [clock] times: one
    line for each chunk, with the bytes copied so far and the rate since
    [start]. *)
Fixpoint progress_lines (E : env) (src : path) (total : N) (start : Q) (clock : nat)
    (copied : N) (cs : list (list Byte.byte)) : list string :=
  match cs with
  | [] => []
  | c :: cs' =>
      let copied' := (copied + N.of_nat (length c))%N in
      progress_line E src copied' total (rate copied' (time_at E clock - start))
        :: progress_lines E src total start (S clock) copied' cs'
  end.

(** The state a computation ends in, however it ends. *)
Definition final_state {A} (r : outcome A) (otherwise : state) : state :=
  match r with
  | Ok _ st => st
  | Raise _ st => st
  | Diverge => otherwise
  end.

(** ** How deep a file system is *)

(** The length of the longest path of [f]. *)
Definition depth (f : fsmap) : nat :=
  max_list ((fun pn => length pn.1) <$> map_to_list f).

(** ** A run that copies nothing *)

(** From [st] to [st'] the file system and the clock stayed as they were,
    and the log got lines that say "Already on server" and no others. *)
Definition only_skipped (st st' : state) : Prop :=
  st_fs st' = st_fs st /\ st_clock st' = st_clock st /\
  exists lines, st_log st' = st_log st ++ lines /\
    Forall (fun line => exists rel, line = already_line rel) lines.

(** * Settings and state of the application (state.py) *)

(** ** Values *)

(** A value as [json.loads] makes it.  A [float] is given by its 64 bits. *)
#[local] Unset Elimination Schemes.
Inductive json :=
  | JNull
  | JBool (b : bool)
  | JInt (z : Z)
  | JFloat (bits : N)
  | JStr (s : string)
  | JList (l : list json)
  | JDict (d : gmap string json).
#[local] Set Elimination Schemes.

(** [bool(v)], which [v or w] asks for: [None], [False], zero and the empty
    string, list and dict are false. *)
Definition truthy (v : json) : bool :=
  match v with
  | JNull => false
  | JBool b => b
  | JInt z => negb (z =? 0)%Z
  | JFloat bits => negb (N.land bits (2 ^ 63 - 1) =? 0)%N
  | JStr s => nonempty s
  | JList l => match l with [] => false | _ => true end
  | JDict d => match map_to_list d with [] => false | _ => true end
  end.

(** [v or w], where [v] may be the [None] of a failed [dict.get]. *)
Definition py_or (v : option json) (w : json) : json :=
  match v with
  | Some v' => if truthy v' then v' else w
  | None => w
  end.

Module Py.

Inductive error :=
  | TypeError
  | AttributeError.

(** What a call comes to: a value, or an exception. *)
Inductive result (A : Type) :=
  | Val (a : A)
  | Exc (e : error).
Arguments Val {A} a.
Arguments Exc {A} e.

End Py.

(** ** config.py *)

Definition DEFAULT_RAW_ROOT : string := "B:\NPX\rawData".
Definition DEFAULT_PROCESSED_ROOT : string := "B:\NPX\processedData".

(** ** [AppSettings] *)

Module AppSettings.

(** The object: its [_data], as far as the string keys go, and the
    documents [save] has handed to the settings file, oldest first.
    Whether the file took them is not known to the object: [save] ignores
    every failure. *)
Record t := Make {
  _data : gmap string json;
  written : list (gmap string json)
}.

(** The [_data] of [__init__]. *)
Definition defaults : gmap string json :=
  list_to_map
    [ ("raw_root", JStr DEFAULT_RAW_ROOT);
      ("processed_root", JStr DEFAULT_PROCESSED_ROOT);
      ("last_opened_project", JStr "");
      ("last_opened_session_path", JStr "");
      ("server_roots_by_project", JDict ∅) ].

(** [load]: [doc] is the object the settings file decodes to; [None] when
    there is no file, or reading or decoding it fails.  (A file that holds
    JSON other than an object is not modelled.) *)
Definition load (doc : option (gmap string json)) (s : t) : t :=
  match doc with
  | Some d => Make (d ∪ _data s) (written s)
  | None => s
  end.

Definition init (doc : option (gmap string json)) : t :=
  load doc (Make defaults []).

Definition save (s : t) : t := Make (_data s) (written s ++ [_data s]).

Definition set_item (k : string) (v : json) (s : t) : t :=
  Make (<[k := v]> (_data s)) (written s).

Definition raw_root (s : t) : json :=
  py_or (_data s !! "raw_root") (JStr DEFAULT_RAW_ROOT).

Definition set_raw_root (v : string) (s : t) : t :=
  save (set_item "raw_root" (JStr v) s).

Definition processed_root (s : t) : json :=
  py_or (_data s !! "processed_root") (JStr DEFAULT_PROCESSED_ROOT).

Definition set_processed_root (v : string) (s : t) : t :=
  save (set_item "processed_root" (JStr v) s).

(** [(self._data.get("server_roots_by_project") or {}).get(project, "")] *)
Definition get_server_root_for_project (project : string) (s : t) : Py.result json :=
  match py_or (_data s !! "server_roots_by_project") (JDict ∅) with
  | JDict d => Py.Val (default (JStr "") (d !! project))
  | _ => Py.Exc Py.AttributeError
  end.

(** [d = self._data.setdefault("server_roots_by_project", {})];
    [d[project] = server_root]; [self.save()] *)
Definition put_server_root_for_project (project server_root : string) (s : t) : Py.result t :=
  let d := default (JDict ∅) (_data s !! "server_roots_by_project") in
  match d with
  | JDict m =>
      Py.Val (save (set_item "server_roots_by_project"
                   (JDict (<[project := JStr server_root]> m)) s))
  | _ => Py.Exc Py.TypeError
  end.

Definition last_opened_project (s : t) : json :=
  default (JStr "") (_data s !! "last_opened_project").

Definition set_last_opened_project (v : string) (s : t) : t :=
  save (set_item "last_opened_project" (JStr v) s).

Definition last_opened_session_path (s : t) : json :=
  default (JStr "") (_data s !! "last_opened_session_path").

Definition set_last_opened_session_path (v : string) (s : t) : t :=
  save (set_item "last_opened_session_path" (JStr v) s).

End AppSettings.

(** ** [AppState] *)

Module AppState.

Record t := Make {
  settings : AppSettings.t;
  current_project : json;
  current_animal : json;
  current_session : json;
  current_session_path : json
}.

(** [__init__], given the settings object it makes. *)
Definition init (s : AppSettings.t) : t :=
  Make s
    (py_or (Some (AppSettings.last_opened_project s)) (JStr ""))
    (JStr "")
    (JStr "")
    (py_or (Some (AppSettings.last_opened_session_path s)) (JStr "")).

Definition set_current (project animal session session_path : option string) (a : t) : t :=
  let a1 :=
    match project with
    | Some p =>
        Make (AppSettings.set_last_opened_project p (settings a))
          (JStr p) (current_animal a) (current_session a) (current_session_path a)
    | None => a
    end in
  let a2 :=
    match animal with
    | Some x =>
        Make (settings a1) (current_project a1) (JStr x) (current_session a1)
          (current_session_path a1)
    | None => a1
    end in
  let a3 :=
    match session with
    | Some x =>
        Make (settings a2) (current_project a2) (current_animal a2) (JStr x)
          (current_session_path a2)
    | None => a2
    end in
  match session_path with
  | Some sp =>
      Make (AppSettings.set_last_opened_session_path sp (settings a3))
        (current_project a3) (current_animal a3) (current_session a3) (JStr sp)
  | None => a3
  end.

End AppState.

(** The settings have the keys [__init__] gives them. *)
Definition has_defaults (s : AppSettings.t) : Prop :=
  forall k, is_Some (AppSettings.defaults !! k) -> is_Some (AppSettings._data s !! k).

(** A settings file that says [null] where the server roots belong. *)
Definition null_roots : gmap string json :=
  list_to_map [("server_roots_by_project", JNull)].

(** * The recording tab (tabs/recording_tab.py) *)

(** ** [posixpath.dirname] *)

(** The part of [s] up to its last ["/"], the slash included. *)
Fixpoint upto_last_slash (s : string) : string :=
  match s with
  | EmptyString => EmptyString
  | String c s' =>
      match after_last_slash s' with
      | Some _ => String c (upto_last_slash s')
      | None => if is_slash c then String c EmptyString else EmptyString
      end
  end.

(** [posixpath.dirname]: the head, without its trailing slashes unless it
    is made of slashes only. *)
Definition posix_dirname (p : string) : string :=
  let head := upto_last_slash p in
  if nonempty head && negb (all_in "/" head) then rstrip "/" head else head.

(** ** [RecordingTab] *)

(** [_session_dir]: the four fields joined. *)
Definition _session_dir (root proj animal session : string) : string :=
  posix_join4 root proj animal session.

(** The names [load_session] gives a session without metadata: project,
    animal and session, from the last three components of the path. *)
Definition names_of_session_dir (session_dir : string) : string * string * string :=
  (posix_basename (posix_dirname (posix_dirname session_dir)),
   posix_basename (posix_dirname session_dir),
   posix_basename session_dir).

(** A name: not empty, and without a slash. *)
Definition is_name (s : string) : bool := nonempty s && negb (has_slash s).

(** ** The metadata table *)

(** A [str] of the user interface, as its code points. *)
Abbreviation text := (list N).

(** [str.isspace] of one character: the white space of Unicode. *)
Definition isspace (c : N) : bool :=
  ((9 <=? c) && (c <=? 13) || (28 <=? c) && (c <=? 32) || (c =? 133) || (c =? 160)
   || (c =? 5760) || (8192 <=? c) && (c <=? 8202) || (c =? 8232) || (c =? 8233)
   || (c =? 8239) || (c =? 8287) || (c =? 12288))%N.

Fixpoint lstrip_space (s : text) : text :=
  match s with
  | [] => []
  | c :: s' => if isspace c then lstrip_space s' else s
  end.

(** [s.strip()] *)
Definition strip (s : text) : text :=
  rev (lstrip_space (rev (lstrip_space s))).

(** A row of a [QTableWidget] of two columns: the text of each cell,
    [None] for a cell without an item. *)
Definition table_row : Type := option text * option text.

(** [tbl.item(r, c).text() if tbl.item(r, c) else ""] *)
Definition cell_text (c : option text) : text := default [] c.

(** A [dict] from [str] to [str], as its items in the order of insertion. *)
Abbreviation text_dict := (list (text * text)).

(** [out[k] = v]: a key that is there keeps its place. *)
Fixpoint dict_set (k v : text) (out : text_dict) : text_dict :=
  match out with
  | [] => [(k, v)]
  | (k', v') :: out' =>
      if decide (k' = k) then (k', v) :: out' else (k', v') :: dict_set k v out'
  end.

(** [out.get(k)] *)
Fixpoint dict_get (k : text) (out : text_dict) : option text :=
  match out with
  | [] => None
  | (k', v') :: out' => if decide (k' = k) then Some v' else dict_get k out'
  end.

(** The body of the loop of [table_to_dict]. *)
Definition table_row_to_dict (out : text_dict) (r : table_row) : text_dict :=
  let k := strip (cell_text r.1) in
  match k with
  | [] => out
  | _ => dict_set k (cell_text r.2) out
  end.

Definition table_to_dict (tbl : list table_row) : text_dict :=
  fold_left table_row_to_dict tbl [].

(** The values the rows of [tbl] give for the key [k], in the order of the
    rows. *)
Definition values_for (k : text) (tbl : list table_row) : list text :=
  omap (fun r : table_row =>
          if decide (strip (cell_text r.1) = k) then Some (cell_text r.2) else None) tbl.

(** * Runs to look at, continued *)

(** [/raw/S/e.bin] is an empty file; [/srv/S] is an empty directory. *)
Definition empty_fs : fsmap :=
  list_to_map
    [ ([], Dir ["raw"; "srv"]);
      (["raw"], Dir ["S"]);
      (["raw"; "S"], Dir ["e.bin"]);
      (["raw"; "S"; "e.bin"], File []);
      (["srv"], Dir ["S"]);
      (["srv"; "S"], Dir []) ].

Definition empty_state : state := State empty_fs [] 0.

(** [/raw/S] holds nothing but the empty directories [a] and [a/b]. *)
Definition hollow_fs : fsmap :=
  list_to_map
    [ ([], Dir ["raw"; "srv"]);
      (["raw"], Dir ["S"]);
      (["raw"; "S"], Dir ["a"]);
      (["raw"; "S"; "a"], Dir ["b"]);
      (["raw"; "S"; "a"; "b"], Dir []);
      (["srv"], Dir []) ].

Definition hollow_state : state := State hollow_fs [] 0.

(** As [demo_fs], with a file [/srv/Proj/old.bin] that the project does not
    have. *)
Definition keep_fs : fsmap :=
  list_to_map
    [ ([], Dir ["raw"; "srv"]);
      (["raw"], Dir ["Proj"]);
      (["raw"; "Proj"], Dir ["a.bin"; "A"]);
      (["raw"; "Proj"; "a.bin"], File [Byte.x01; Byte.x02]);
      (["raw"; "Proj"; "A"], Dir ["b.bin"]);
      (["raw"; "Proj"; "A"; "b.bin"], File [Byte.x03]);
      (["srv"], Dir ["Proj"]);
      (["srv"; "Proj"], Dir ["old.bin"]);
      (["srv"; "Proj"; "old.bin"], File [Byte.x09]) ].

Definition keep_state : state := State keep_fs [] 0.

(** * Facts about the model *)

(** ** Paths *)

Lemma unsnoc_snoc (p : path) (x : string) : unsnoc (p ++ [x]) = Some (p, x).
Proof.
  induction p as [|y p IH]; simpl; [done|]. by rewrite IH.
Qed.

Lemma unsnoc_Some (p q : path) (x : string) : unsnoc p = Some (q, x) -> p = q ++ [x].
Proof.
  revert q. induction p as [|y p IH]; intros q; simpl; [done|].
  destruct (unsnoc p) as [[q' x']|] eqn:Hu.
  - intros [= <- <-]. by rewrite (IH q' eq_refl).
  - intros [= <- <-]. destruct p; [done|]. simpl in Hu. by destruct (unsnoc p) as [[??]|].
Qed.

Lemma unsnoc_None (p : path) : unsnoc p = None -> p = [].
Proof. destruct p; [done|]. simpl. by destruct (unsnoc p) as [[??]|]. Qed.

Lemma dirname_snoc (p : path) (x : string) : dirname (p ++ [x]) = p.
Proof. unfold dirname. by rewrite unsnoc_snoc. Qed.

Lemma basename_snoc (p : path) (x : string) : basename (p ++ [x]) = x.
Proof. unfold basename. by rewrite unsnoc_snoc. Qed.

Lemma prefix_snoc_inv (q p : path) (x : string) :
  q `prefix_of` (p ++ [x]) -> q = p ++ [x] \/ q `prefix_of` p.
Proof.
  intros [k Hk]. destruct (unsnoc k) as [[k' y]|] eqn:Hu.
  - apply unsnoc_Some in Hu as ->. rewrite app_assoc in Hk.
    apply app_inj_tail in Hk as [-> _]. right. by exists k'.
  - apply unsnoc_None in Hu as ->. rewrite app_nil_r in Hk. by left.
Qed.


(** ** The monad *)

Lemma bind_Ok {A B} (m : M A) (k : A -> M B) st a st' :
  m st = Ok a st' -> bind m k st = k a st'.
Proof. unfold bind. by intros ->. Qed.

Lemma bind_Raise {A B} (m : M A) (k : A -> M B) st e st' :
  m st = Raise e st' -> bind m k st = Raise e st'.
Proof. unfold bind. by intros ->. Qed.

Lemma bind_Diverge {A B} (m : M A) (k : A -> M B) st :
  m st = Diverge -> bind m k st = Diverge.
Proof. unfold bind. by intros ->. Qed.

Lemma bind_Ok_inv {A B} (m : M A) (k : A -> M B) st b st2 :
  bind m k st = Ok b st2 -> exists a st1, m st = Ok a st1 /\ k a st1 = Ok b st2.
Proof. unfold bind. destruct (m st) as [a st1| |]; [eauto|done..]. Qed.

Lemma for_each_app {A} (body : A -> M unit) (l1 l2 : list A) st :
  for_each body (l1 ++ l2) st = (for_each body l1 ;; for_each body l2) st.
Proof.
  revert st. induction l1 as [|x l1 IH]; intros st; simpl; [done|].
  unfold bind. destruct (body x st) as [[] st1| |]; [|done..].
  by rewrite IH.
Qed.

Lemma for_each_map {A B} (g : A -> B) (body : B -> M unit) (l : list A) :
  for_each body (map g l) = for_each (fun x => body (g x)) l.
Proof. induction l as [|x l IH]; simpl; [done|]. by rewrite IH. Qed.

Lemma for_each_ext {A} (body body' : A -> M unit) (l : list A) st :
  (forall x st', body x st' = body' x st') ->
  for_each body l st = for_each body' l st.
Proof.
  intros Hb. revert st. induction l as [|x l IH]; intros st; simpl; [done|].
  unfold bind. rewrite Hb. destruct (body' x st) as [[] st1| |]; [|done..]. apply IH.
Qed.

(** ** Steps of the file system *)

Lemma grows_to_refl p f : grows_to p f f.
Proof. by split_and!. Qed.

Lemma grows_to_trans p f1 f2 f3 :
  grows_to p f1 f2 -> grows_to p f2 f3 -> grows_to p f1 f3.
Proof.
  intros (A1 & B1 & C1) (A2 & B2 & C2). split_and!.
  - intros q Hq. by rewrite A2, A1.
  - intros q c. by rewrite B1, B2.
  - eauto.
Qed.

Lemma grows_to_weaken p p' f f' :
  p `prefix_of` p' -> grows_to p f f' -> grows_to p' f f'.
Proof.
  intros Hp (A & B & C). split_and!; [|done..].
  intros q Hq. apply A. intros Hqp. apply Hq. by etrans.
Qed.

Lemma grows_to_exists p f f' q :
  grows_to p f f' -> path_exists f q = true -> path_exists f' q = true.
Proof.
  intros (A & B & C). unfold path_exists.
  destruct (f !! q) as [[c|names]|] eqn:Hq; [| |done]; intros _.
  - apply B in Hq. by rewrite Hq.
  - specialize (C q). unfold is_dir in C. rewrite Hq in C.
    specialize (C eq_refl). by destruct (f' !! q).
Qed.

Lemma is_dir_insert_Dir (f : gmap (list string) node) p names q :
  is_dir f q = true -> is_dir (<[p := Dir names]> f) q = true.
Proof.
  unfold is_dir. destruct (decide (p = q)) as [->|Hne].
  - by rewrite lookup_insert_eq.
  - by rewrite lookup_insert_ne.
Qed.

Lemma mkdir_Ok p st st' :
  mkdir p st = Ok tt st' ->
  same_meta st st' /\ grows_to p (st_fs st) (st_fs st') /\ made p (st_fs st').
Proof.
  unfold mkdir. destruct (path_exists (st_fs st) p) eqn:Hex; [done|].
  destruct (unsnoc p) as [[parent name]|] eqn:Hu; [|done].
  apply unsnoc_Some in Hu as ->.
  destruct (st_fs st !! parent) as [[c|names]|] eqn:Hpar; [done| |done].
  intros [= <-]. unfold made. simpl. rewrite dirname_snoc.
  assert (parent <> parent ++ [name]) as Hne.
  { intros Heq. apply (f_equal length) in Heq. rewrite length_app in Heq. simpl in Heq. lia. }
  split_and!; [done| | |].
  - split_and!.
    + intros q Hq. rewrite !lookup_insert_ne; [done| |].
      * intros <-. apply Hq. by apply prefix_app_r.
      * by intros <-.
    + intros q c. destruct (decide (q = parent ++ [name])) as [->|Hq1].
      { rewrite lookup_insert_eq. unfold path_exists in Hex.
        destruct (st_fs st !! (parent ++ [name])); [done|]. split; done. }
      rewrite lookup_insert_ne by done.
      destruct (decide (q = parent)) as [->|Hq2].
      { rewrite lookup_insert_eq, Hpar. split; done. }
      by rewrite lookup_insert_ne.
    + intros q Hq. by do 2 apply is_dir_insert_Dir.
  - unfold is_dir. by rewrite lookup_insert_eq.
  - unfold path_exists. rewrite lookup_insert_ne by done. by rewrite lookup_insert_eq.
Qed.

Lemma mkdir_Raise p st e st' : mkdir p st = Raise e st' -> st' = st.
Proof.
  unfold mkdir. destruct (path_exists (st_fs st) p); [by intros [= _ <-]|].
  destruct (unsnoc p) as [[parent name]|]; [|by intros [= _ <-]].
  destruct (st_fs st !! parent) as [[c|names]|]; [|done|]; by intros [= _ <-].
Qed.

Lemma mkdir_Raise_exists p st st' :
  mkdir p st = Raise FileExistsError st' -> path_exists (st_fs st) p = true.
Proof.
  unfold mkdir. destruct (path_exists (st_fs st) p); [done|].
  destruct (unsnoc p) as [[parent name]|]; [|done].
  by destruct (st_fs st !! parent) as [[c|names]|].
Qed.

Lemma mkdir_not_Diverge p st : mkdir p st <> Diverge.
Proof.
  unfold mkdir. destruct (path_exists (st_fs st) p); [done|].
  destruct (unsnoc p) as [[parent name]|]; [|done].
  by destruct (st_fs st !! parent) as [[c|names]|].
Qed.

Lemma is_dir_exists (f : gmap (list string) node) p :
  is_dir f p = true -> path_exists f p = true.
Proof. unfold is_dir, path_exists. by destruct (f !! p) as [[?|?]|]. Qed.

Lemma makedirs_rev_spec rp st :
  match makedirs_rev rp st with
  | Ok _ st' =>
      same_meta st st' /\ grows_to (rev rp) (st_fs st) (st_fs st') /\
      made (rev rp) (st_fs st')
  | Raise e st' =>
      same_meta st st' /\ grows_to (rev rp) (st_fs st) (st_fs st') /\
      (e = FileExistsError -> path_exists (st_fs st') (rev rp) = true)
  | Diverge => False
  end.
Proof.
  revert st. induction rp as [|x rparent IH]; intros st.
  - simpl. destruct (mkdir [] st) as [[] st'|e st'|] eqn:Hm.
    + apply mkdir_Ok in Hm as (? & ? & ?). by split_and!.
    + pose proof (mkdir_Raise _ _ _ _ Hm) as ->.
      destruct (is_dir (st_fs st) []) eqn:Hd.
      * split_and!; [done|apply grows_to_refl|]. split; [done|by apply is_dir_exists].
      * split_and!; [done|apply grows_to_refl|].
        intros ->. by apply mkdir_Raise_exists in Hm.
    + by apply mkdir_not_Diverge in Hm.
  - cbn [makedirs_rev]. set (p := rev (x :: rparent)).
    assert (dirname p = rev rparent) as Hdn by apply dirname_snoc.
    assert (rev rparent `prefix_of` p) as Hpre by (by apply prefix_app_r).
    unfold bind.
    assert (forall st1, same_meta st st1 -> grows_to p (st_fs st) (st_fs st1) ->
              path_exists (st_fs st1) (rev rparent) = true ->
              match
                match mkdir p st1 with
                | Raise e st' => if is_dir (st_fs st') p then Ok tt st' else Raise e st'
                | r => r
                end
              with
              | Ok _ st' =>
                  same_meta st st' /\ grows_to p (st_fs st) (st_fs st') /\ made p (st_fs st')
              | Raise e st' =>
                  same_meta st st' /\ grows_to p (st_fs st) (st_fs st') /\
                  (e = FileExistsError -> path_exists (st_fs st') p = true)
              | Diverge => False
              end) as Hmk.
    { intros st1 [Hl Hc] Hg Hex.
      destruct (mkdir p st1) as [[] st'|e st'|] eqn:Hm.
      - apply mkdir_Ok in Hm as ([Hl' Hc'] & Hg' & Hd').
        split_and!; [split; congruence|by eapply grows_to_trans|done].
      - pose proof (mkdir_Raise _ _ _ _ Hm) as ->.
        destruct (is_dir (st_fs st1) p) eqn:Hd.
        + split_and!; [done..|]. split; [done|]. by rewrite Hdn.
        + split_and!; [done..|]. intros ->. by apply mkdir_Raise_exists in Hm.
      - by apply mkdir_not_Diverge in Hm. }
    destruct (path_exists (st_fs st) (rev rparent)) eqn:Hex.
    + apply Hmk; [done|apply grows_to_refl|done].
    + specialize (IH st).
      destruct (makedirs_rev rparent st) as [[] st1|e st1|]; [| |done].
      * destruct IH as (Hm & Hg & Hd & _).
        apply Hmk; [done|by eapply grows_to_weaken|by apply is_dir_exists].
      * destruct IH as (Hm & Hg & He).
        destruct e; try (split_and!; [done|by eapply grows_to_weaken|done]).
        apply Hmk; [done|by eapply grows_to_weaken|by apply He].
Qed.

Lemma makedirs_spec p st :
  match makedirs p st with
  | Ok _ st' =>
      same_meta st st' /\ grows_to p (st_fs st) (st_fs st') /\ made p (st_fs st')
  | Raise e st' => same_meta st st' /\ grows_to p (st_fs st) (st_fs st')
  | Diverge => False
  end.
Proof.
  unfold makedirs. pose proof (makedirs_rev_spec (rev p) st) as H.
  rewrite rev_involutive in H.
  destruct (makedirs_rev (rev p) st) as [[] st'|e st'|]; [done| |done].
  by destruct H as (? & ? & _).
Qed.

(** Making a directory that is there changes nothing. *)
Lemma makedirs_made p st : made p (st_fs st) -> makedirs p st = Ok tt st.
Proof.
  intros [Hd Hp]. unfold makedirs.
  assert (mkdir p st = Raise FileExistsError st) as Hm.
  { unfold mkdir. by rewrite (is_dir_exists _ _ Hd). }
  destruct (unsnoc p) as [[parent x]|] eqn:Hu.
  - apply unsnoc_Some in Hu as ->. rewrite dirname_snoc in Hp.
    rewrite rev_unit. cbn [makedirs_rev]. unfold bind.
    rewrite rev_involutive, Hp.
    replace (rev (x :: rev parent)) with (parent ++ [x])
      by (simpl; by rewrite rev_involutive).
    by rewrite Hm, Hd.
  - apply unsnoc_None in Hu as ->. simpl. simpl in Hm. by rewrite Hm, Hd.
Qed.

(** ** Reading in chunks *)

Lemma take_N_drop_N {A} (n : N) (l : list A) : take_N n l ++ drop_N n l = l.
Proof.
  revert n. induction l as [|x l IH]; intros n; simpl; [done|].
  destruct (n =? 0)%N; [done|]. simpl. by rewrite IH.
Qed.

Lemma take_N_nil {A} (n : N) (l : list A) :
  take_N n l = [] -> drop_N n l = l /\ (n = 0%N \/ l = []).
Proof.
  destruct l as [|x l]; simpl; [auto|].
  destruct (n =? 0)%N eqn:Hn; [|done]. apply N.eqb_eq in Hn. auto.
Qed.

Lemma take_N_pos {A} (n : N) (x : A) (l : list A) :
  (0 < n)%N -> take_N n (x :: l) <> [].
Proof.
  intros Hn. simpl. destruct (n =? 0)%N eqn:H0; [|done].
  apply N.eqb_eq in H0. lia.
Qed.

Lemma length_take_N {A} (n : N) (l : list A) :
  N.of_nat (length (take_N n l)) = N.min n (N.of_nat (length l)).
Proof.
  revert n. induction l as [|x l IH]; intros n; simpl; [lia|].
  destruct (n =? 0)%N eqn:Hn.
  - apply N.eqb_eq in Hn. simpl. lia.
  - apply N.eqb_neq in Hn. cbn [length]. rewrite !Nat2N.inj_succ, IH. lia.
Qed.

Lemma length_drop_N {A} (n : N) (l : list A) :
  take_N n l <> [] -> length (drop_N n l) < length l.
Proof.
  intros Hne. pose proof (take_N_drop_N n l) as Heq.
  apply (f_equal length) in Heq. rewrite length_app in Heq.
  destruct (take_N n l); [done|]. simpl in Heq. lia.
Qed.

Lemma chunks_fuel_enough {A} (fuel : nat) (n : N) (l : list A) :
  length l <= fuel -> chunks_fuel fuel n l = chunks n l.
Proof.
  unfold chunks. revert l.
  induction fuel as [fuel IH] using lt_wf_ind; intros l Hl.
  destruct l as [|x l].
  { by destruct fuel. }
  destruct fuel as [|fuel]; [simpl in Hl; lia|].
  cbn [length chunks_fuel].
  destruct (take_N n (x :: l)) as [|y c] eqn:Ht; [done|].
  assert (length (drop_N n (x :: l)) < length (x :: l)) as Hd
    by (apply length_drop_N; by rewrite Ht).
  cbn [length] in Hl, Hd. f_equal.
  rewrite (IH fuel), (IH (length l)); [done|lia..].
Qed.

Lemma chunks_nil {A} (n : N) : chunks n (@nil A) = [].
Proof. done. Qed.

Lemma chunks_step {A} (n : N) (l : list A) :
  chunks n l =
    match take_N n l with
    | [] => []
    | c => c :: chunks n (drop_N n l)
    end.
Proof.
  destruct l as [|x l]; [done|].
  unfold chunks at 1. cbn [length chunks_fuel].
  destruct (take_N n (x :: l)) as [|y c] eqn:Ht; [done|].
  f_equal. apply chunks_fuel_enough.
  assert (length (drop_N n (x :: l)) < length (x :: l)) as Hd
    by (apply length_drop_N; by rewrite Ht).
  cbn [length] in Hd. lia.
Qed.

Lemma chunks_ind {A} (n : N) (P : list A -> Prop) :
  (forall l, take_N n l = [] -> P l) ->
  (forall l, take_N n l <> [] -> P (drop_N n l) -> P l) ->
  forall l, P l.
Proof.
  intros H0 HS l. remember (length l) as k eqn:Hk. revert l Hk.
  induction k as [k IH] using lt_wf_ind; intros l ->.
  destruct (take_N n l) as [|y c] eqn:Ht; [by apply H0|].
  apply HS; [by rewrite Ht|].
  eapply IH; [|done]. apply length_drop_N. by rewrite Ht.
Qed.

Lemma concat_chunks {A} (n : N) (l : list A) :
  (0 < n)%N -> concat (chunks n l) = l.
Proof.
  intros Hn. induction l as [l Ht|l Ht IH] using (chunks_ind n).
  - rewrite chunks_step, Ht. apply take_N_nil in Ht as [_ [-> | ->]]; [lia|done].
  - rewrite chunks_step. pose proof (take_N_drop_N n l) as Heq.
    destruct (take_N n l) as [|y c]; [done|].
    cbn [concat]. by rewrite IH.
Qed.

(** Every chunk is non-empty and holds at most [n] elements; every chunk
    but the last holds exactly [n]. *)
Lemma chunks_sizes {A} (n : N) (l : list A) :
  Forall (fun c => c <> [] /\ (N.of_nat (length c) <= n)%N) (chunks n l) /\
  forall i c, chunks n l !! i = Some c -> S i < length (chunks n l) ->
    N.of_nat (length c) = n.
Proof.
  induction l as [l Ht|l Ht [IH1 IH2]] using (chunks_ind n).
  - rewrite chunks_step, Ht. split; [constructor|]. intros i c. by rewrite lookup_nil.
  - rewrite chunks_step. pose proof (length_take_N n l) as Hlen.
    destruct (take_N n l) as [|y c] eqn:Hc; [done|]. split.
    + constructor; [|done]. split; [done|]. clear -Hlen. lia.
    + intros [|i] c' Hl Hi.
      * injection Hl as <-. cbn [length] in Hi.
        assert (N.of_nat (length l) <= n -> False)%N as Hgt;
          [|clear -Hlen Hgt; lia].
        intros Hle. assert (drop_N n l = []) as Hdr.
        { pose proof (take_N_drop_N n l) as Heq. rewrite Hc in Heq.
          apply (f_equal length) in Heq. rewrite length_app in Heq.
          destruct (drop_N n l); [done|]. cbn [length] in Heq, Hlen. lia. }
        rewrite Hdr, chunks_nil in Hi. simpl in Hi. lia.
      * cbn [length] in Hi. apply (IH2 i); [done|lia].
Qed.

(** ** Copying one file *)

Lemma dirname_prefix (p : path) : dirname p `prefix_of` p.
Proof.
  unfold dirname. destruct (unsnoc p) as [[q x]|] eqn:Hu.
  - apply unsnoc_Some in Hu as ->. by apply prefix_app_r.
  - apply prefix_nil.
Qed.

Lemma not_prefix_dirname (p : path) : p <> [] -> ~ p `prefix_of` dirname p.
Proof.
  intros Hne. unfold dirname. destruct (unsnoc p) as [[q x]|] eqn:Hu.
  - apply unsnoc_Some in Hu as ->. apply prefix_snoc_not.
  - by apply unsnoc_None in Hu.
Qed.

Lemma grows_to_writes_at dst f f' :
  grows_to (dirname dst) f f' -> writes_at dst f f'.
Proof.
  intros Hg. pose proof Hg as (A & B & C). split_and!.
  - intros q Hq. apply A. intros Hp. apply Hq. etrans; [done|apply dirname_prefix].
  - intros q c _. apply B.
  - done.
  - intros q. by eapply grows_to_exists.
Qed.

Lemma writes_at_refl dst f : writes_at dst f f.
Proof. by split_and!. Qed.

Lemma writes_at_trans dst f1 f2 f3 :
  writes_at dst f1 f2 -> writes_at dst f2 f3 -> writes_at dst f1 f3.
Proof.
  intros (A1 & B1 & C1 & D1) (A2 & B2 & C2 & D2). split_and!.
  - intros q Hq. by rewrite A2, A1.
  - intros q c Hq. by rewrite B1, B2.
  - eauto.
  - eauto.
Qed.

Lemma progress_not_summary E src copied total bps :
  is_summary (progress_line E src copied total bps) = false.
Proof. done. Qed.

Lemma already_is_summary rel : is_summary (already_line rel) = true.
Proof. done. Qed.

Lemma copied_is_summary E rel bps : is_summary (copied_line E rel bps) = true.
Proof. done. Qed.

Lemma logs_progress_refl st st' : st_log st' = st_log st -> logs_progress st st'.
Proof. intros H. exists []. by rewrite app_nil_r. Qed.

Lemma logs_progress_trans st1 st2 st3 :
  logs_progress st1 st2 -> logs_progress st2 st3 -> logs_progress st1 st3.
Proof.
  intros (l1 & H1 & F1) (l2 & H2 & F2). exists (l1 ++ l2). split.
  - by rewrite H2, H1, app_assoc.
  - by apply Forall_app.
Qed.

Lemma open_rb_Ok E src st c st' :
  open_rb E src st = Ok c st' -> st' = st /\ st_fs st !! src = Some (File c).
Proof.
  unfold open_rb. destruct (st_fs st !! src) as [[c'|names]|]; [|done..].
  destruct (open_read_fails E src); [done|]. by intros [= <- <-].
Qed.

Lemma open_wb_Ok E dst st st' :
  open_wb E dst st = Ok tt st' ->
  same_meta st st' /\ writes_at dst (st_fs st) (st_fs st') /\
  st_fs st' !! dst = Some (File []).
Proof.
  unfold open_wb. destruct (st_fs st !! dst) as [[c|names]|] eqn:Hdst; [|done|].
  - destruct (open_write_fails E dst); [done|]. intros [= <-]. simpl.
    split_and!; [done| |by rewrite lookup_insert_eq].
    split_and!.
    + intros q Hq. rewrite lookup_insert_ne; [done|]. by intros <-.
    + intros q c' Hq. by rewrite lookup_insert_ne.
    + intros q. unfold is_dir. destruct (decide (dst = q)) as [<-|Hq].
      * by rewrite Hdst.
      * by rewrite lookup_insert_ne.
    + intros q. unfold path_exists. destruct (decide (dst = q)) as [<-|Hq].
      * by rewrite lookup_insert_eq.
      * by rewrite lookup_insert_ne.
  - destruct (unsnoc dst) as [[parent name]|] eqn:Hu; [|done].
    apply unsnoc_Some in Hu as ->.
    destruct (st_fs st !! parent) as [[c|names]|] eqn:Hpar; [done| |done].
    destruct (open_write_fails E (parent ++ [name])); [done|]. intros [= <-]. simpl.
    assert (parent <> parent ++ [name]) as Hne.
    { intros Heq. apply (f_equal length) in Heq. rewrite length_app in Heq.
      simpl in Heq. lia. }
    split_and!; [done| |by rewrite lookup_insert_eq].
    split_and!.
    + intros q Hq. rewrite !lookup_insert_ne; [done| |].
      * intros <-. apply Hq. by apply prefix_app_r.
      * by intros <-.
    + intros q c' Hq. rewrite lookup_insert_ne by done.
      destruct (decide (q = parent)) as [->|Hq2].
      * rewrite lookup_insert_eq, Hpar. split; done.
      * by rewrite lookup_insert_ne.
    + intros q. unfold is_dir. destruct (decide (parent ++ [name] = q)) as [<-|Hq].
      * by rewrite Hdst.
      * rewrite lookup_insert_ne by done. destruct (decide (parent = q)) as [<-|Hq2].
        -- by rewrite lookup_insert_eq.
        -- by rewrite lookup_insert_ne.
    + intros q. unfold path_exists. destruct (decide (parent ++ [name] = q)) as [<-|Hq].
      * by rewrite lookup_insert_eq.
      * rewrite lookup_insert_ne by done. destruct (decide (parent = q)) as [<-|Hq2].
        -- by rewrite lookup_insert_eq.
        -- by rewrite lookup_insert_ne.
Qed.

Lemma append_bytes_app c1 c2 x :
  append_bytes c2 (append_bytes c1 x) = append_bytes (c1 ++ c2) x.
Proof. destruct x; simpl; [|done]. by rewrite app_assoc. Qed.

Lemma alter_append_app (f : gmap (list string) node) dst c1 c2 :
  alter (append_bytes c2) dst (alter (append_bytes c1) dst f)
  = alter (append_bytes (c1 ++ c2)) dst f.
Proof.
  rewrite alter_alter_eq. apply alter_ext. intros x _. simpl. apply append_bytes_app.
Qed.

Lemma writes_at_alter (f : gmap (list string) node) dst w :
  writes_at dst f (alter (append_bytes w) dst f).
Proof.
  split_and!.
  - intros q Hq. rewrite lookup_alter_ne; [done|]. by intros <-.
  - intros q c Hq. by rewrite lookup_alter_ne.
  - intros q. unfold is_dir. destruct (decide (dst = q)) as [<-|Hq].
    + rewrite lookup_alter_eq. by destruct (f !! dst) as [[?|?]|].
    + by rewrite lookup_alter_ne.
  - intros q. unfold path_exists. destruct (decide (dst = q)) as [<-|Hq].
    + rewrite lookup_alter_eq. by destruct (f !! dst) as [[?|?]|].
    + by rewrite lookup_alter_ne.
Qed.

(** The loop is the chunk-by-chunk copy of what is left of the source. *)
Lemma copy_loop_chunks fuel E src dst total start rest copied st :
  length rest < fuel ->
  copy_loop fuel E src dst total start rest copied st
  = copy_chunks E src dst total start (chunks COPY_CHUNK_BYTES rest) copied st.
Proof.
  revert rest copied st. induction fuel as [|fuel IH]; intros rest copied st Hf; [lia|].
  cbn [copy_loop]. unfold bind at 1. unfold read.
  rewrite (chunks_step COPY_CHUNK_BYTES rest).
  destruct (take_N COPY_CHUNK_BYTES rest) as [|y c] eqn:Ht.
  - cbn [copy_chunks fst snd]. destruct (read_fails E src copied); [done|].
    done.
  - cbn [copy_chunks fst snd].
    destruct (read_fails E src copied); [done|]. cbn [fst snd].
    unfold bind. destruct (write E dst copied (y :: c) st) as [[] st1| |]; [|done..].
    destruct (time_time E st1) as [now st2| |]; [|done..].
    destruct (log _ st2) as [[] st3| |]; [|done..].
    apply IH.
    assert (length (drop_N COPY_CHUNK_BYTES rest) < length rest); [|lia].
    apply length_drop_N. by rewrite Ht.
Qed.

Lemma copy_chunks_spec E src dst total start cs copied st :
  match copy_chunks E src dst total start cs copied st with
  | Ok n st' =>
      n = (copied + N.of_nat (length (concat cs)))%N /\
      st_fs st' = alter (append_bytes (concat cs)) dst (st_fs st) /\
      logs_progress st st'
  | Raise e st' =>
      e = OSError /\
      (exists w, st_fs st' = alter (append_bytes w) dst (st_fs st)) /\
      logs_progress st st'
  | Diverge => False
  end.
Proof.
  assert (forall f : gmap (list string) node, f = alter (append_bytes []) dst f) as Hid.
  { intros f. symmetry. apply alter_id. intros x _. destruct x; simpl; [|done].
    by rewrite app_nil_r. }
  revert copied st. induction cs as [|c cs IH]; intros copied st; cbn [copy_chunks].
  - destruct (read_fails E src copied).
    + split_and!; [done|by exists []|by apply logs_progress_refl].
    + simpl. split_and!; [lia|done|by apply logs_progress_refl].
  - destruct (read_fails E src copied).
    { split_and!; [done|by exists []|by apply logs_progress_refl]. }
    unfold bind, write. destruct (write_fails E dst copied).
    { split_and!; [done|by exists []|by apply logs_progress_refl]. }
    unfold time_time, log. cbn [st_fs st_log st_clock].
    match goal with |- context [copy_chunks _ _ _ _ _ _ ?n ?s] =>
      specialize (IH n s); destruct (copy_chunks E src dst total start cs n s)
        as [n' st'|e st'|] end; [| |done].
    + destruct IH as (-> & Hfs & (lines & Hlog & Hall)). cbn [st_fs st_log] in *.
      split_and!.
      * rewrite concat_cons, length_app. lia.
      * rewrite Hfs, concat_cons. apply alter_append_app.
      * eexists (_ :: lines). rewrite Hlog, <- app_assoc. split; [done|].
        constructor; [apply progress_not_summary|done].
    + destruct IH as (-> & (w & Hfs) & (lines & Hlog & Hall)). cbn [st_fs st_log] in *.
      split_and!; [done| |].
      * exists (c ++ w). rewrite Hfs. apply alter_append_app.
      * eexists (_ :: lines). rewrite Hlog, <- app_assoc. split; [done|].
        constructor; [apply progress_not_summary|done].
Qed.

Lemma COPY_CHUNK_BYTES_pos : (0 < COPY_CHUNK_BYTES)%N.
Proof. done. Qed.

Lemma open_rb_not_Diverge E src st : open_rb E src st <> Diverge.
Proof.
  unfold open_rb. destruct (st_fs st !! src) as [[c|names]|]; [|done..].
  by destruct (open_read_fails E src).
Qed.

Lemma open_wb_not_Diverge E dst st : open_wb E dst st <> Diverge.
Proof.
  unfold open_wb. destruct (st_fs st !! dst) as [[c|names]|]; [|done|].
  - by destruct (open_write_fails E dst).
  - destruct (unsnoc dst) as [[parent name]|]; [|done].
    destruct (st_fs st !! parent) as [[c|names]|]; [done| |done].
    by destruct (open_write_fails E dst).
Qed.

(** What a call of [copy_with_progress] comes to: the parent directory of
    [dst] is made first; then either nothing is copied, or [dst] ends up
    holding the bytes of [src]. *)
Lemma copy_with_progress_spec E src dst st :
  match copy_with_progress E src dst st with
  | Ok (b, bps) st' =>
      exists st1, makedirs (dirname dst) st = Ok tt st1 /\
        if b then
          _needs_copy E (st_fs st1) src dst = true /\
          exists c, st_fs st1 !! src = Some (File c) /\
            st_fs st' !! dst = Some (File c) /\
            writes_at dst (st_fs st1) (st_fs st') /\ logs_progress st1 st'
        else
          _needs_copy E (st_fs st1) src dst = false /\ st' = st1 /\ bps = 0%Q
  | Raise e st' => True
  | Diverge => False
  end.
Proof.
  unfold copy_with_progress, _ensure_dir, bind, get_fs, getsize_or_raise.
  pose proof (makedirs_spec (dirname dst) st) as Hmk.
  destruct (makedirs (dirname dst) st) as [[] st1|e st1|]; [|done..].
  clear Hmk.
  destruct (_needs_copy E (st_fs st1) src dst) eqn:Hnc; cbn [negb].
  2:{ exists st1. by split_and!. }
  destruct (getsize E (st_fs st1) src) as [total|]; [|done].
  unfold time_time at 1.
  set (st2 := State (st_fs st1) (st_log st1) (S (st_clock st1))).
  destruct (open_rb E src st2) as [rest st2'|e st2'|] eqn:Hrb;
    [|done|by apply open_rb_not_Diverge in Hrb].
  apply open_rb_Ok in Hrb as [-> Hsrc].
  destruct (open_wb E dst st2) as [[] st3|e st3|] eqn:Hwb;
    [|done|by apply open_wb_not_Diverge in Hwb].
  apply open_wb_Ok in Hwb as ([Hl3 Hc3] & Hw3 & Hdst3).
  rewrite copy_loop_chunks by lia.
  pose proof (copy_chunks_spec E src dst total (time_at E (st_clock st1))
                (chunks COPY_CHUNK_BYTES rest) 0%N st3) as Hcs.
  destruct (copy_chunks E src dst total (time_at E (st_clock st1))
              (chunks COPY_CHUNK_BYTES rest) 0%N st3) as [copied st4|e st4|];
    [|done..].
  destruct Hcs as (_ & Hfs4 & Hlog4).
  rewrite (concat_chunks _ _ COPY_CHUNK_BYTES_pos) in Hfs4.
  unfold try_except, copystat, time_time, ret.
  destruct (copystat_fails E src dst); cbn [st_fs st_log st_clock].
  all: exists st1; split; [done|]; split; [done|]; exists rest.
  all: split_and!; [done| | |].
  all: try (rewrite Hfs4, lookup_alter_eq, Hdst3; done).
  all: try (eapply writes_at_trans; [exact Hw3|]; rewrite Hfs4; apply writes_at_alter).
  all: destruct Hlog4 as (lines & Hlog & Hall); exists lines; cbn [st_log];
       split; [by rewrite Hlog, Hl3|done].
Qed.

Lemma copy_with_progress_not_Diverge E src dst st :
  copy_with_progress E src dst st <> Diverge.
Proof.
  pose proof (copy_with_progress_spec E src dst st) as H.
  by destruct (copy_with_progress E src dst st).
Qed.

(** Nothing is done when the parent of [dst] is made and no copy is needed. *)
Lemma copy_with_progress_skip E src dst st :
  made (dirname dst) (st_fs st) ->
  _needs_copy E (st_fs st) src dst = false ->
  copy_with_progress E src dst st = Ok (false, 0%Q) st.
Proof.
  intros Hmade Hnc. unfold copy_with_progress, _ensure_dir, bind.
  rewrite (makedirs_made _ _ Hmade). unfold get_fs. by rewrite Hnc.
Qed.

Lemma needs_copy_grows (E : env) (f f1 : gmap (list string) node) (src dst : path) c :
  grows_to (dirname dst) f f1 -> dst <> [] -> f !! src = Some (File c) ->
  _needs_copy E f1 src dst = _needs_copy E f src dst.
Proof.
  intros (A & B & C) Hne Hsrc. unfold _needs_copy, path_exists, getsize.
  rewrite (A dst) by (by apply not_prefix_dirname).
  pose proof Hsrc as Hsrc1. apply B in Hsrc1. by rewrite Hsrc, Hsrc1.
Qed.

Lemma needs_copy_same_file (E : env) (f : gmap (list string) node) (src dst : path) c :
  f !! src = Some (File c) -> f !! dst = Some (File c) ->
  _needs_copy E f src dst = false.
Proof.
  intros Hs Hd. unfold _needs_copy, path_exists, getsize. rewrite Hs, Hd. simpl.
  by rewrite N.eqb_refl.
Qed.

Lemma needs_copy_false (E : env) (f : gmap (list string) node) (src dst : path) :
  _needs_copy E f src dst = false <->
  exists n, path_exists f dst = true /\ getsize E f src = Some n /\ getsize E f dst = Some n.
Proof.
  unfold _needs_copy. destruct (path_exists f dst); simpl.
  - destruct (getsize E f src) as [a|], (getsize E f dst) as [b|]; simpl.
    + destruct (N.eqb_spec a b) as [->|Hab]; simpl.
      * split; [eauto|done].
      * split; [done|]. intros (n & _ & [= ->] & [= ->]). done.
    + split; [done|]. by intros (n & _ & _ & ?).
    + split; [done|]. by intros (n & _ & ? & _).
    + split; [done|]. by intros (n & _ & ? & _).
  - split; [done|]. by intros (n & ? & _).
Qed.

(** ** The walk and its plan *)

Lemma common_prefix_length_app (p r : path) :
  common_prefix_length p (p ++ r) = length p.
Proof.
  induction p as [|x p IH]; simpl; [by destruct r|].
  by rewrite String.eqb_refl, IH.
Qed.

Lemma relpath_app (p r : path) : relpath (p ++ r) p = r.
Proof.
  unfold relpath. rewrite common_prefix_length_app, Nat.sub_diag. simpl.
  by rewrite drop_app_length.
Qed.

Section PlanFacts.

Variable E : env.
Variables proj srv dstp : path.

Local Abbreviation act := (run_action E proj srv dstp).
Local Abbreviation run := (run_plan E proj srv dstp).
Local Abbreviation plan_of := (plan proj).
Local Abbreviation tgt := (target dstp).

Lemma run_plan_cons a l st :
  run (a :: l) st = (act a ;; run l) st.
Proof. done. Qed.

Lemma run_plan_app l1 l2 st :
  run (l1 ++ l2) st = (run l1 ;; run l2) st.
Proof. apply for_each_app. Qed.

(** One round of the loop over [os.walk] is the steps of its directory. *)
Lemma sync_dir_plan r dirs files st :
  sync_dir E proj srv dstp (proj ++ r) dirs files st
  = run (EnsureDir r :: map (fun d => EnsureDir (r ++ [d])) dirs
                ++ map (SyncFile r) files) st.
Proof.
  unfold sync_dir. rewrite relpath_app.
  replace (match r with [] => dstp | _ :: _ => dstp ++ r end) with (dstp ++ r)
    by (destruct r; [by rewrite app_nil_r|done]).
  rewrite run_plan_cons. unfold bind at 1 3. cbn [run_action].
  destruct (_ensure_dir (dstp ++ r) st) as [[] st1| |]; [|done..].
  rewrite run_plan_app. unfold bind.
  unfold run_plan. rewrite !for_each_map.
  erewrite (for_each_ext _ (fun x => act (EnsureDir (r ++ [x])))).
  2:{ intros x st'. cbn [run_action]. by rewrite app_assoc. }
  done.
Qed.

(** A step changes nothing off the way to its target, keeps files other
    than its target and keeps directories. *)
Lemma run_action_Ok a st st' :
  act a st = Ok tt st' -> writes_at (tgt a) (st_fs st) (st_fs st').
Proof.
  destruct a as [r|r x|]; cbn [run_action target]; [| |done].
  - unfold _ensure_dir. intros Hm. pose proof (makedirs_spec (dstp ++ r) st) as H.
    rewrite Hm in H. destruct H as (_ & (A & B & C) & _). split_and!; [done| |done|].
    + intros q c _. apply B.
    + intros q. by eapply grows_to_exists.
  - unfold sync_file, bind.
    pose proof (copy_with_progress_spec E (proj ++ r ++ [x]) (dstp ++ r ++ [x]) st) as H.
    rewrite <- !app_assoc.
    destruct (copy_with_progress E (proj ++ r ++ [x]) (dstp ++ r ++ [x]) st)
      as [[b bps] st1| |]; [|done..].
    destruct H as (st0 & Hmk & H).
    pose proof (makedirs_spec (dirname (dstp ++ r ++ [x])) st) as Hg.
    rewrite Hmk in Hg. destruct Hg as (_ & Hg & _).
    apply grows_to_writes_at in Hg.
    assert (writes_at (dstp ++ r ++ [x]) (st_fs st) (st_fs st1)) as Hw.
    { destruct b.
      - destruct H as (_ & c & _ & _ & Hw & _). by eapply writes_at_trans.
      - by destruct H as (_ & -> & _). }
    cbn [fst snd]. destruct b; cbn [negb]; unfold log; by intros [= <-].
Qed.

Lemma run_action_agree a st st' :
  disjoint_roots proj dstp ->
  act a st = Ok tt st' -> agree_under proj (st_fs st) (st_fs st').
Proof.
  intros [Hd1 Hd2] Hrun q Hq.
  assert (dstp `prefix_of` tgt a) as Ht.
  { destruct a; [by apply prefix_app_r|by apply prefix_app_r|done]. }
  apply run_action_Ok in Hrun as (A & _).
  apply A. intros Hp.
  assert (proj `prefix_of` tgt a) as Hpt by (by etrans).
  destruct (prefix_weak_total _ _ _ Hpt Ht); done.
Qed.

Lemma agree_under_refl root f : agree_under root f f.
Proof. by intros q _. Qed.

Lemma agree_under_trans root f1 f2 f3 :
  agree_under root f1 f2 -> agree_under root f2 f3 -> agree_under root f1 f3.
Proof. intros H1 H2 q Hq. by rewrite H2, H1. Qed.

Lemma run_plan_agree l st st' :
  disjoint_roots proj dstp ->
  run l st = Ok tt st' -> agree_under proj (st_fs st) (st_fs st').
Proof.
  intros Hd. revert st. induction l as [|a l IH]; intros st.
  - intros [= <-]. apply agree_under_refl.
  - rewrite run_plan_cons. intros ([] & st1 & Ha & Hl)%bind_Ok_inv.
    eapply agree_under_trans; [by eapply run_action_agree|by apply IH].
Qed.

Lemma scandir_agree (f f' : gmap (list string) node) (r : path) :
  agree_under proj f f' -> scandir f' (proj ++ r) = scandir f (proj ++ r).
Proof.
  intros Ha. unfold scandir. rewrite (Ha (proj ++ r)) by (by apply prefix_app_r).
  destruct (f !! (proj ++ r)) as [[c|names]|]; [done| |done].
  assert (forall x, is_dir f' ((proj ++ r) ++ [x]) = is_dir f ((proj ++ r) ++ [x])) as Hx.
  { intros x. unfold is_dir. rewrite Ha; [done|]. rewrite <- app_assoc. by apply prefix_app_r. }
  f_equal. f_equal; apply filter_ext; intros x; by rewrite Hx.
Qed.

Lemma plan_agree (fuel : nat) (f f' : gmap (list string) node) (r : path) :
  agree_under proj f f' -> plan_of fuel f' r = plan_of fuel f r.
Proof.
  intros Ha. revert r. induction fuel as [|fuel IH]; intros r; [done|].
  cbn [plan]. rewrite (scandir_agree _ _ _ Ha).
  destruct (scandir f (proj ++ r)) as [[dirs files]|]; [|done].
  do 3 f_equal. f_equal. apply map_ext. intros d. apply IH.
Qed.

(** Walking the tree is running its plan, when the mirror does not write
    into the tree it reads. *)
Lemma walk_plan fuel r st :
  disjoint_roots proj dstp ->
  walk fuel (sync_dir E proj srv dstp) (proj ++ r) st
  = run (plan_of fuel (st_fs st) r) st.
Proof.
  intros Hd. revert r st. induction fuel as [|fuel IH]; intros r st; [done|].
  cbn [walk plan].
  destruct (scandir (st_fs st) (proj ++ r)) as [[dirs files]|]; [|done].
  rewrite app_assoc, app_comm_cons, run_plan_app. unfold bind.
  rewrite sync_dir_plan.
  destruct (run (EnsureDir r :: map (fun d => EnsureDir (r ++ [d])) dirs
                        ++ map (SyncFile r) files) st) as [[] st1| |] eqn:Hbody;
    [|done..].
  apply run_plan_agree in Hbody; [|done].
  clear -IH Hd Hbody. revert st1 Hbody.
  induction dirs as [|d dirs IHd]; intros st1 Hag; [done|].
  cbn [for_each map concat]. rewrite run_plan_app. unfold bind.
  rewrite <- app_assoc, IH, (plan_agree _ _ _ _ Hag).
  destruct (run (plan_of fuel (st_fs st) (r ++ [d])) st1) as [[] st2| |] eqn:Hsub;
    [|done..].
  apply IHd. eapply agree_under_trans; [exact Hag|]. by eapply run_plan_agree.
Qed.

End PlanFacts.

(** ** Steps that are done stay done *)

Lemma getsize_keep (E : env) (f f' : gmap (list string) node) (q : path) :
  (forall c, f !! q = Some (File c) -> f' !! q = Some (File c)) ->
  (is_dir f q = true -> is_dir f' q = true) ->
  path_exists f q = true -> getsize E f' q = getsize E f q.
Proof.
  unfold is_dir, path_exists, getsize. intros Hf Hd.
  destruct (f !! q) as [[c|names]|]; [| |done]; intros _.
  - by rewrite (Hf c eq_refl).
  - specialize (Hd eq_refl). by destruct (f' !! q) as [[?|?]|].
Qed.

Lemma made_writes_at (p dst : path) (f f' : gmap (list string) node) :
  writes_at dst f f' -> made p f -> made p f'.
Proof. intros (_ & _ & C & D) [H1 H2]. split; auto. Qed.

Section Settled.

Variable E : env.
Variables proj srv dstp : path.
Hypothesis Hdisj : disjoint_roots proj dstp.

Local Abbreviation act := (run_action E proj srv dstp).
Local Abbreviation run := (run_plan E proj srv dstp).
Local Abbreviation plan_of := (plan proj).
Local Abbreviation tgt := (target dstp).
Local Abbreviation done_in := (settled E proj dstp).

Lemma dirname_dst (r : path) (x : string) : dirname (dstp ++ r ++ [x]) = dstp ++ r.
Proof. by rewrite app_assoc, dirname_snoc. Qed.

(** The file step, spelled out: what [copy_with_progress] returned and the
    summary line that followed it. *)
Lemma sync_file_Ok r x st st' :
  act (SyncFile r x) st = Ok tt st' ->
  exists b bps st1,
    copy_with_progress E (proj ++ r ++ [x]) (dstp ++ r ++ [x]) st = Ok (b, bps) st1 /\
    st_fs st' = st_fs st1 /\ st_clock st' = st_clock st1 /\
    st_log st' = st_log st1 ++
      [if b then copied_line E (relpath (dstp ++ r ++ [x]) srv) bps
       else already_line (relpath (dstp ++ r ++ [x]) srv)].
Proof.
  cbn [run_action]. unfold sync_file, bind. rewrite <- !app_assoc.
  destruct (copy_with_progress E (proj ++ r ++ [x]) (dstp ++ r ++ [x]) st)
    as [[b bps] st1| |]; [|done..].
  cbn [fst snd]. exists b, bps, st1. split; [done|].
  destruct b; cbn [negb] in *; unfold log in *; by simplify_eq.
Qed.

Lemma settled_after a st st' :
  act a st = Ok tt st' -> done_in a (st_fs st').
Proof.
  destruct a as [r|r x|]; [| |done].
  - cbn [run_action settled]. unfold _ensure_dir. intros Hm.
    pose proof (makedirs_spec (dstp ++ r) st) as H. rewrite Hm in H. by destruct H as (_ & _ & ?).
  - intros (b & bps & st1 & Hc & Hfs & _)%sync_file_Ok. cbn [settled]. rewrite Hfs.
    pose proof (copy_with_progress_spec E (proj ++ r ++ [x]) (dstp ++ r ++ [x]) st) as H.
    rewrite Hc in H. destruct H as (st0 & Hmk & H).
    pose proof (makedirs_spec (dirname (dstp ++ r ++ [x])) st) as Hg.
    rewrite Hmk, dirname_dst in Hg. destruct Hg as (_ & _ & Hmade).
    destruct b.
    + destruct H as (Hnc & c & Hsrc & Hdst & Hw & _). split.
      * by eapply made_writes_at.
      * apply (needs_copy_same_file E _ _ _ c); [|done].
        destruct Hw as (_ & B & _). apply B; [|done].
        intros Heq. rewrite Heq in Hsrc.
        assert (_needs_copy E (st_fs st0) (dstp ++ r ++ [x]) (dstp ++ r ++ [x]) = false)
          by (by eapply needs_copy_same_file).
        congruence.
    + destruct H as (Hnc & -> & _). done.
Qed.

Lemma settled_step a b st st' :
  done_in a (st_fs st) -> act b st = Ok tt st' -> done_in a (st_fs st').
Proof.
  intros Ha Hb. pose proof (run_action_Ok _ _ _ _ _ _ _ Hb) as Hw.
  pose proof (run_action_agree _ _ _ _ _ _ _ Hdisj Hb) as Hag.
  destruct a as [r|r x|]; [by eapply made_writes_at| |done].
  destruct Ha as [Hmade Hnc]. split; [by eapply made_writes_at|].
  apply needs_copy_false in Hnc as (n & Hex & Hs & Hd).
  assert (forall b' : bool, (forall c, st_fs st !! (dstp ++ r ++ [x]) = Some (File c) ->
             st_fs st' !! (dstp ++ r ++ [x]) = Some (File c)) ->
          _needs_copy E (st_fs st') (proj ++ r ++ [x]) (dstp ++ r ++ [x]) = false) as Hkeep.
  { intros _ Hfile. apply needs_copy_false. exists n.
    destruct Hw as (A & B & C & D). split_and!.
    - by apply D.
    - unfold getsize. rewrite Hag; [done|]. by apply prefix_app_r.
    - rewrite <- Hd. apply getsize_keep; [done|apply C|done]. }
  destruct b as [r'|r' x'|]; [| |done].
  - (* a directory is made: files stay *)
    apply (Hkeep true). intros c Hc.
    cbn [run_action] in Hb. unfold _ensure_dir in Hb.
    pose proof (makedirs_spec (dstp ++ r') st) as H. rewrite Hb in H.
    destruct H as (_ & (_ & B' & _) & _). by apply B'.
  - destruct (decide (dstp ++ r ++ [x] = dstp ++ r' ++ [x'])) as [Heq|Hneq].
    + (* the same file again: nothing to do *)
      apply app_inv_head in Heq. apply app_inj_tail in Heq as [<- <-].
      apply sync_file_Ok in Hb as (b' & bps & st1 & Hc & Hfs & _).
      rewrite copy_with_progress_skip in Hc.
      * injection Hc as <- <- <-. rewrite Hfs. apply needs_copy_false. eauto.
      * by rewrite dirname_dst.
      * apply needs_copy_false. eauto.
    + apply (Hkeep true). intros c Hc. destruct Hw as (_ & B & _). by apply B.
Qed.

Lemma settled_run a l st st' :
  done_in a (st_fs st) -> run l st = Ok tt st' -> done_in a (st_fs st').
Proof.
  revert st. induction l as [|b l IH]; intros st Ha.
  - by intros [= <-].
  - rewrite run_plan_cons. intros ([] & st1 & Hb & Hl)%bind_Ok_inv.
    eapply IH; [|done]. by eapply settled_step.
Qed.

(** After a run that went through, every step of it is done. *)
Lemma run_settles l st st' :
  run l st = Ok tt st' -> Forall (fun a => done_in a (st_fs st')) l.
Proof.
  revert st. induction l as [|a l IH]; intros st; [constructor|].
  rewrite run_plan_cons. intros ([] & st1 & Ha & Hl)%bind_Ok_inv.
  constructor; [|by eapply IH].
  eapply settled_run; [|done]. by eapply settled_after.
Qed.

(** A step that is done does nothing but say so. *)
Lemma settled_noop a st :
  done_in a (st_fs st) ->
  act a st =
    Ok tt (State (st_fs st)
             (st_log st ++
                match a with
                | SyncFile r x => [already_line (relpath (dstp ++ r ++ [x]) srv)]
                | _ => []
                end)
             (st_clock st)).
Proof.
  destruct a as [r|r x|]; [| |done].
  - cbn [settled run_action]. intros Hm. unfold _ensure_dir.
    rewrite (makedirs_made _ _ Hm), app_nil_r. by destruct st.
  - intros [Hm Hnc]. cbn [run_action]. unfold sync_file, bind.
    rewrite <- !app_assoc, copy_with_progress_skip; [done| |done].
    by rewrite dirname_dst.
Qed.

(** A second run over a settled tree copies nothing: the file system stays
    as it is and the log gets one "already on server" line per file. *)
Lemma settled_rerun l st :
  Forall (fun a => done_in a (st_fs st)) l ->
  run l st =
    Ok tt (State (st_fs st)
             (st_log st ++
                map (fun rx => already_line (relpath (dstp ++ rx.1 ++ [rx.2]) srv))
                  (plan_files l))
             (st_clock st)).
Proof.
  revert st. induction l as [|a l IH]; intros st Hall.
  - cbn. rewrite app_nil_r. by destruct st.
  - apply Forall_cons in Hall as [Ha Hl]. rewrite run_plan_cons. unfold bind.
    rewrite (settled_noop _ _ Ha). rewrite IH by done. cbn [st_fs st_log st_clock].
    do 2 f_equal. rewrite <- app_assoc. f_equal.
    destruct a as [r|r x|]; done.
Qed.

End Settled.

(** ** The mirror as a plan *)

Lemma sync_plan E fuel pd sr st :
  disjoint_roots (path_of pd) (path_of (dst_project_of pd sr)) ->
  sync_project_to_server E fuel pd sr st
  = run_plan E (path_of pd) (path_of sr) (path_of (dst_project_of pd sr))
      (EnsureDir [] :: plan (path_of pd) fuel (st_fs st) []) st.
Proof.
  intros Hd. unfold sync_project_to_server. fold (project_name_of pd).
  fold (dst_project_of pd sr). rewrite run_plan_cons. unfold bind.
  cbn [run_action]. rewrite app_nil_r.
  destruct (_ensure_dir (path_of (dst_project_of pd sr)) st) as [[] st1| |] eqn:Hm;
    [|done..].
  rewrite <- (app_nil_r (path_of pd)) at 2. rewrite walk_plan by done.
  f_equal. apply plan_agree.
  eapply (run_action_agree E _ (path_of sr) _ (EnsureDir [])); [done|].
  cbn [run_action]. rewrite app_nil_r. exact Hm.
Qed.

Lemma needs_copy_env (E1 E2 : env) (f : gmap (list string) node) (src dst : path) :
  (forall p, dir_st_size E2 p = dir_st_size E1 p) ->
  _needs_copy E2 f src dst = _needs_copy E1 f src dst.
Proof.
  intros H. unfold _needs_copy, getsize. by rewrite !H.
Qed.

Lemma settled_env (E1 E2 : env) (proj dstp : path) (a : action) (f : gmap (list string) node) :
  (forall p, dir_st_size E2 p = dir_st_size E1 p) ->
  settled E1 proj dstp a f -> settled E2 proj dstp a f.
Proof.
  intros H. destruct a as [r|r x|]; cbn [settled]; [done| |done].
  by rewrite (needs_copy_env E1 E2).
Qed.

Lemma run_plan_no_OutOfFuel E proj srv dstp l st st' :
  run_plan E proj srv dstp l st = Ok tt st' -> OutOfFuel ∉ l.
Proof.
  revert st. induction l as [|a l IH]; intros st Hrun; [by apply not_elem_of_nil|].
  rewrite run_plan_cons in Hrun. apply bind_Ok_inv in Hrun as ([] & st1 & Ha & Hl).
  apply not_elem_of_cons. split; [|by eapply IH].
  intros <-. done.
Qed.

(** ** The files of the tree are in the plan *)

Lemma elem_of_List_filter {A} (g : A -> bool) (l : list A) (x : A) :
  x ∈ List.filter g l <-> g x = true /\ x ∈ l.
Proof. rewrite !list_elem_of_In, filter_In. tauto. Qed.

Lemma elem_of_concat {A} (x : A) (ls : list (list A)) :
  x ∈ concat ls <-> exists l, x ∈ l /\ l ∈ ls.
Proof.
  rewrite list_elem_of_In, in_concat. split.
  - intros (l & ? & ?). exists l. by rewrite !list_elem_of_In.
  - intros (l & ? & ?). exists l. by rewrite <- !list_elem_of_In.
Qed.

Section PlanFiles.

Variable proj : path.
Variable f : gmap (list string) node.

Lemma scandir_listed (top : path) names :
  f !! top = Some (Dir names) ->
  scandir f top =
    Some (List.filter (fun x => is_dir f (top ++ [x])) names,
          List.filter (fun x => negb (is_dir f (top ++ [x]))) names).
Proof. unfold scandir. by intros ->. Qed.

Lemma plan_has_file fuel (r0 r : path) (x : string) :
  OutOfFuel ∉ plan proj fuel f r0 ->
  (forall q y, (q ++ [y]) `prefix_of` r ->
     listed f (proj ++ r0 ++ q) y /\ is_dir f (proj ++ r0 ++ q ++ [y]) = true) ->
  listed f (proj ++ r0 ++ r) x ->
  is_dir f (proj ++ r0 ++ r ++ [x]) = false ->
  SyncFile (r0 ++ r) x ∈ plan proj fuel f r0.
Proof.
  revert r0 r. induction fuel as [|fuel IH]; intros r0 r Hfuel Hwalk Hx Hfile.
  { destruct Hfuel. by apply list_elem_of_singleton. }
  cbn [plan] in *.
  assert (exists names, f !! (proj ++ r0) = Some (Dir names) /\
            match r with [] => x ∈ names | d :: _ => d ∈ names end) as (names & Hn & Hin).
  { destruct r as [|d r'].
    - rewrite app_nil_r in Hx. destruct Hx as (names & ? & ?). eauto.
    - destruct (Hwalk [] d) as [(names & Hl & Hd) _]; [by apply prefix_cons, prefix_nil|].
      rewrite app_nil_r in Hl. eauto. }
  rewrite (scandir_listed _ _ Hn) in *.
  apply list_elem_of_further. rewrite !elem_of_app.
  destruct r as [|d r'].
  - right. left. rewrite app_nil_r in *. apply list_elem_of_fmap. exists x. split; [done|].
    apply elem_of_List_filter. split; [|done]. cbn [app] in Hfile.
    rewrite <- app_assoc. by rewrite Hfile.
  - right. right.
    assert (is_dir f ((proj ++ r0) ++ [d]) = true) as Hd.
    { destruct (Hwalk [] d) as [_ Hd]; [by apply prefix_cons, prefix_nil|].
      by rewrite <- app_assoc. }
    assert (d ∈ List.filter (fun x0 => is_dir f ((proj ++ r0) ++ [x0])) names) as Hdin
      by (by apply elem_of_List_filter).
    apply elem_of_concat. exists (plan proj fuel f (r0 ++ [d])). split.
    + replace (r0 ++ d :: r') with ((r0 ++ [d]) ++ r') by (by rewrite <- app_assoc).
      apply IH.
      * intros Hoof. apply Hfuel. apply list_elem_of_further. rewrite !elem_of_app.
        right. right. apply elem_of_concat. eexists. split; [exact Hoof|].
        apply list_elem_of_fmap. by exists d.
      * intros q y Hq. rewrite <- !app_assoc. cbn [app].
        apply (Hwalk (d :: q) y). cbn [app]. by apply prefix_cons.
      * by rewrite <- !app_assoc.
      * by rewrite <- !app_assoc.
    + apply list_elem_of_fmap. by exists d.
Qed.

Lemma plan_dirs fuel (r0 : path) a :
  a ∈ plan proj fuel f r0 ->
  (forall q y, (q ++ [y]) `prefix_of` r0 -> is_dir f (proj ++ q ++ [y]) = true) ->
  forall q y, (q ++ [y]) `prefix_of` dir_of a -> is_dir f (proj ++ q ++ [y]) = true.
Proof.
  revert r0. induction fuel as [|fuel IH]; intros r0 Hin Hr0.
  { apply list_elem_of_singleton in Hin as ->. intros q y [k Hk].
    by destruct q. }
  cbn [plan] in Hin.
  destruct (f !! (proj ++ r0)) as [[c|names]|] eqn:Hn;
    unfold scandir in Hin; rewrite Hn in Hin; [by apply elem_of_nil in Hin| |by apply elem_of_nil in Hin].
  assert (forall d, d ∈ List.filter (fun x => is_dir f ((proj ++ r0) ++ [x])) names ->
            forall q y, (q ++ [y]) `prefix_of` (r0 ++ [d]) ->
              is_dir f (proj ++ q ++ [y]) = true) as Hsub.
  { intros d [Hd _]%elem_of_List_filter q y Hq.
    apply prefix_snoc_inv in Hq as [Heq|Hq]; [|by apply Hr0].
    apply app_inj_tail in Heq as [-> ->]. by rewrite app_assoc. }
  apply elem_of_cons in Hin as [->|Hin]; [done|].
  rewrite !elem_of_app in Hin. destruct Hin as [Hin|[Hin|Hin]].
  - apply list_elem_of_fmap in Hin as (d & -> & Hd). by apply Hsub.
  - apply list_elem_of_fmap in Hin as (x & -> & Hx). done.
  - apply elem_of_concat in Hin as (l & Hin & Hl).
    apply list_elem_of_fmap in Hl as (d & -> & Hd).
    eapply IH; [exact Hin|]. by apply Hsub.
Qed.

End PlanFiles.

(** ** What the mirror leaves at the place of a file *)

Lemma needs_copy_ext (E : env) (f f' : gmap (list string) node) (src dst : path) :
  f' !! src = f !! src -> f' !! dst = f !! dst ->
  _needs_copy E f' src dst = _needs_copy E f src dst.
Proof. intros Hs Hd. unfold _needs_copy, path_exists, getsize. by rewrite Hs, Hd. Qed.

Section Content.

Variable E : env.
Variables proj srv dstp : path.
Hypothesis Hdisj : disjoint_roots proj dstp.

Variable f0 : gmap (list string) node.
Variables (r : path) (x : string) (c : list Byte.byte).
Hypothesis Hsrc0 : f0 !! (proj ++ r ++ [x]) = Some (File c).

Local Abbreviation act := (run_action E proj srv dstp).
Local Abbreviation run := (run_plan E proj srv dstp).
Local Abbreviation tgt := (target dstp).
Local Abbreviation src := (proj ++ r ++ [x]).
Local Abbreviation dst := (dstp ++ r ++ [x]).

Lemma src_kept st : agree_under proj f0 (st_fs st) -> st_fs st !! src = Some (File c).
Proof. intros Hag. rewrite Hag; [done|]. by apply prefix_app_r. Qed.

Lemma dst_not_nil : dst <> [].
Proof. intros H. apply (f_equal length) in H. rewrite !length_app in H. simpl in H. lia. Qed.

(** The copy, when it is needed, puts the bytes of the source there. *)
Lemma sync_file_copies st st' :
  st_fs st !! src = Some (File c) ->
  _needs_copy E (st_fs st) src dst = true ->
  act (SyncFile r x) st = Ok tt st' ->
  st_fs st' !! dst = Some (File c).
Proof.
  intros Hs Hnc (b & bps & st1 & Hc & Hfs & _)%sync_file_Ok. rewrite Hfs.
  pose proof (copy_with_progress_spec E src dst st) as H.
  rewrite Hc in H. destruct H as (st0 & Hmk & H).
  pose proof (makedirs_spec (dirname dst) st) as Hg.
  rewrite Hmk in Hg. destruct Hg as (_ & Hg & _).
  rewrite <- (needs_copy_grows E _ _ _ _ c Hg dst_not_nil Hs) in Hnc.
  destruct b.
  - destruct H as (_ & c' & Hs0 & Hd & _).
    destruct Hg as (_ & B & _). apply B in Hs. congruence.
  - destruct H as (Hnc' & _). congruence.
Qed.

(** Once the bytes are there, they stay. *)
Lemma good_step b st st' :
  st_fs st !! src = Some (File c) ->
  st_fs st !! dst = Some (File c) ->
  act b st = Ok tt st' ->
  st_fs st' !! dst = Some (File c).
Proof.
  intros Hs Hd Hb. destruct b as [r'|r' x'|]; [| |done].
  - cbn [run_action] in Hb. unfold _ensure_dir in Hb.
    pose proof (makedirs_spec (dstp ++ r') st) as H. rewrite Hb in H.
    destruct H as (_ & (_ & B & _) & _). by apply B.
  - destruct (decide (dst = dstp ++ r' ++ [x'])) as [Heq|Hne].
    + apply app_inv_head in Heq. apply app_inj_tail in Heq as [<- <-].
      apply sync_file_Ok in Hb as (b & bps & st1 & Hc & Hfs & _). rewrite Hfs.
      pose proof (copy_with_progress_spec E src dst st) as H.
      rewrite Hc in H. destruct H as (st0 & Hmk & H).
      pose proof (makedirs_spec (dirname dst) st) as Hg.
      rewrite Hmk in Hg. destruct Hg as (_ & (_ & B & _) & _).
      apply B in Hs, Hd.
      pose proof (needs_copy_same_file E _ _ _ _ Hs Hd) as Hnc.
      destruct b.
      * destruct H as (Hnc' & _). congruence.
      * by destruct H as (_ & -> & _).
    + apply run_action_Ok in Hb as (_ & B & _). cbn [target] in B. by apply B.
Qed.

Lemma good_run l st st' :
  agree_under proj f0 (st_fs st) ->
  st_fs st !! dst = Some (File c) ->
  run l st = Ok tt st' ->
  st_fs st' !! dst = Some (File c).
Proof.
  revert st. induction l as [|b l IH]; intros st Hag Hd.
  - by intros [= <-].
  - rewrite run_plan_cons. intros ([] & st1 & Hb & Hl)%bind_Ok_inv.
    eapply IH; [|by eapply good_step; [apply src_kept| |]|done].
    eapply agree_under_trans; [done|]. by eapply run_action_agree.
Qed.

(** The steps of the directories and of the other files keep off. *)
Lemma target_off b :
  (forall q y, (q ++ [y]) `prefix_of` dir_of b -> is_dir f0 (proj ++ q ++ [y]) = true) ->
  b <> SyncFile r x -> ~ dst `prefix_of` tgt b.
Proof.
  intros Hscope Hne Hp.
  assert (~ (r ++ [x]) `prefix_of` dir_of b) as Hnd.
  { intros Hq. specialize (Hscope r x Hq). unfold is_dir in Hscope.
    by rewrite Hsrc0 in Hscope. }
  destruct b as [r'|r' x'|]; cbn [target dir_of] in *.
  - by apply prefix_app_inv in Hp.
  - apply prefix_app_inv in Hp.
    apply prefix_snoc_inv in Hp as [Heq|Hp]; [|done].
    apply app_inj_tail in Heq as [-> ->]. done.
  - apply prefix_nil_inv in Hp. by apply dst_not_nil.
Qed.

Lemma content_run l st st' :
  (forall a, a ∈ l -> forall q y, (q ++ [y]) `prefix_of` dir_of a ->
     is_dir f0 (proj ++ q ++ [y]) = true) ->
  agree_under proj f0 (st_fs st) ->
  run l st = Ok tt st' ->
  _needs_copy E (st_fs st) src dst = true ->
  SyncFile r x ∈ l ->
  st_fs st' !! dst = Some (File c).
Proof.
  revert st. induction l as [|b l IH]; intros st Hscope Hag Hrun Hnc Hin.
  { by apply elem_of_nil in Hin. }
  rewrite run_plan_cons in Hrun. apply bind_Ok_inv in Hrun as ([] & st1 & Hb & Hl).
  assert (agree_under proj f0 (st_fs st1)) as Hag1.
  { eapply agree_under_trans; [done|]. by eapply run_action_agree. }
  destruct (decide (b = SyncFile r x)) as [->|Hne].
  - eapply good_run; [exact Hag1| |exact Hl].
    apply (sync_file_copies st st1); [by apply src_kept|exact Hnc|exact Hb].
  - apply elem_of_cons in Hin as [Heq|Hin]; [congruence|].
    eapply IH; [|exact Hag1|exact Hl| |exact Hin].
    + intros a Ha. apply Hscope. by apply list_elem_of_further.
    + rewrite <- Hnc. apply needs_copy_ext.
      * by rewrite !src_kept.
      * apply run_action_Ok in Hb as (A & _). apply A.
        apply target_off; [|done]. apply Hscope. by apply list_elem_of_here.
Qed.

End Content.

(** ** A second run copies nothing *)

(** C2, as the code has it.  For a project tree and a mirror that are given
    by plain path strings and do not overlap, a run right after a run that
    returned copies nothing: it
    returns, leaves the file system and the clock as they were, and logs
    one "Already on server" line for each file of the walk and nothing
    else.  (Directory sizes are taken to be reported the same in both
    runs.) *)
Theorem mirror_idempotent E1 E2 fuel pd sr st st1 :
  plain pd = true ->
  plain (dst_project_of pd sr) = true ->
  disjoint_roots (path_of pd) (path_of (dst_project_of pd sr)) ->
  (forall p, dir_st_size E2 p = dir_st_size E1 p) ->
  sync_project_to_server E1 fuel pd sr st = Ok tt st1 ->
  sync_project_to_server E2 fuel pd sr st1
  = Ok tt (State (st_fs st1)
             (st_log st1 ++
                map (fun rx => already_line
                       (relpath (path_of (dst_project_of pd sr) ++ rx.1 ++ [rx.2])
                          (path_of sr)))
                  (walk_files (path_of pd) fuel (st_fs st)))
             (st_clock st1)).
Proof.
  intros _ _ Hd HE Hrun. rewrite sync_plan in Hrun by done. rewrite sync_plan by done.
  pose proof (run_plan_agree _ _ _ _ _ _ _ Hd Hrun) as Hag.
  rewrite (plan_agree _ _ _ _ _ Hag).
  pose proof (run_settles _ _ _ _ Hd _ _ _ Hrun) as Hall.
  rewrite (settled_rerun E2 (path_of pd) (path_of sr) _ _ st1).
  - done.
  - eapply Forall_impl; [exact Hall|]. intros a Ha. by eapply settled_env.
Qed.

Lemma mirror_idempotent_witness :
  sync_project_to_server quiet_env 5 "/raw/Proj/" "/srv" demo_mirrored
  = Ok tt (State (st_fs demo_mirrored)
             (st_log demo_mirrored ++
                [already_line ["Proj"; "a.bin"]; already_line ["Proj"; "A"; "b.bin"]])
             (st_clock demo_mirrored)).
Proof.
  rewrite (mirror_idempotent quiet_env quiet_env 5 "/raw/Proj/" "/srv" demo_state).
  - reflexivity.
  - reflexivity.
  - reflexivity.
  - split; intros [k Hk]; vm_compute in Hk; discriminate.
  - reflexivity.
  - vm_compute. reflexivity.
Defined.

(** The second run copies [/d/p/p/x.bin], which the first run put there. *)
Lemma mirror_into_itself_copies_again :
  sync_project_to_server quiet_env 5 "/d/p/p" "/d" nested_state = Ok tt nested_once /\
  sync_project_to_server quiet_env 5 "/d/p/p" "/d" nested_once = Ok tt nested_twice /\
  st_fs nested_once !! ["d"; "p"; "x.bin"] = None /\
  st_fs nested_twice !! ["d"; "p"; "x.bin"] = Some (File [Byte.x01]) /\
  copied_line quiet_env ["p"; "x.bin"] (1 # 1) ∈ drop (length (st_log nested_once)) (st_log nested_twice).
Proof.
  split_and!; try (vm_compute; reflexivity).
  vm_compute. set_solver.
Qed.

(** ** Change detection *)

(** C3.  [_needs_copy] answers [True] when the destination does not exist;
    when it exists and both sizes are known, exactly when they differ; and
    [True] when a size cannot be had.  Two files of one size and different
    bytes get [False]. *)
Theorem needs_copy_by_size (E : env) (f : gmap (list string) node) (src dst : path) :
  (path_exists f dst = false -> _needs_copy E f src dst = true) /\
  (forall a b, path_exists f dst = true ->
     getsize E f src = Some a -> getsize E f dst = Some b ->
     (_needs_copy E f src dst = true <-> a <> b)) /\
  (getsize E f src = None \/ getsize E f dst = None -> _needs_copy E f src dst = true) /\
  (forall c c', f !! src = Some (File c) -> f !! dst = Some (File c') ->
     length c = length c' -> _needs_copy E f src dst = false).
Proof.
  unfold _needs_copy. split_and!.
  - by intros ->.
  - intros a b -> -> ->. simpl. destruct (N.eqb_spec a b); simpl; split; congruence.
  - intros [H|H]; rewrite H; destruct (path_exists f dst); simpl; [done..|by destruct (getsize E f src)|done].
  - intros c c' Hs Hd Hlen. unfold path_exists, getsize. rewrite Hs, Hd. simpl.
    by rewrite Hlen, N.eqb_refl.
Qed.

Lemma needs_copy_by_size_witness :
  _needs_copy quiet_env stale_fs ["raw"; "Proj"; "a.bin"] ["srv"; "Proj"; "a.bin"] = false /\
  _needs_copy quiet_env demo_fs ["raw"; "Proj"; "a.bin"] ["srv"; "Proj"; "a.bin"] = true /\
  _needs_copy quiet_env stale_fs ["raw"; "Proj"; "gone"] ["srv"; "Proj"; "a.bin"] = true.
Proof.
  split_and!.
  - destruct (needs_copy_by_size quiet_env stale_fs
                ["raw"; "Proj"; "a.bin"] ["srv"; "Proj"; "a.bin"]) as (_ & _ & _ & H).
    apply (H [Byte.x01; Byte.x02] [Byte.x07; Byte.x07]); reflexivity.
  - destruct (needs_copy_by_size quiet_env demo_fs
                ["raw"; "Proj"; "a.bin"] ["srv"; "Proj"; "a.bin"]) as (H & _).
    apply H. reflexivity.
  - destruct (needs_copy_by_size quiet_env stale_fs
                ["raw"; "Proj"; "gone"] ["srv"; "Proj"; "a.bin"]) as (_ & _ & H & _).
    apply H. left. reflexivity.
Defined.

(** ** Skipping a file *)

Lemma wf_parent (f : gmap (list string) node) (p : path) :
  wf_fs f -> path_exists f p = true -> is_dir f (dirname p) = true.
Proof.
  intros [Hroot Hall]. unfold path_exists.
  destruct (f !! p) as [n|] eqn:Hp; [|done]. intros _. by apply (Hall p n).
Qed.

Lemma wf_made_parent (f : gmap (list string) node) (p : path) :
  wf_fs f -> path_exists f p = true -> made (dirname p) f.
Proof.
  intros Hwf Hex. pose proof (wf_parent f p Hwf Hex) as Hd. split; [done|].
  apply is_dir_exists. apply wf_parent; [done|]. by apply is_dir_exists.
Qed.

(** C8.  When no copy is needed, [copy_with_progress] returns
    [(False, 0.0)] and leaves the world as it was: no entry of the file
    system is touched, nothing is logged, the clock is not read. *)
Theorem skip_leaves_destination (E : env) (src dst : path) (st : state) :
  wf_fs (st_fs st) ->
  _needs_copy E (st_fs st) src dst = false ->
  copy_with_progress E src dst st = Ok (false, 0%Q) st.
Proof.
  intros Hwf Hnc. apply copy_with_progress_skip; [|done].
  apply wf_made_parent; [done|].
  by apply needs_copy_false in Hnc as (n & Hex & _).
Qed.

Lemma wf_fsb_true (f : gmap (list string) node) : wf_fsb f = true -> wf_fs f.
Proof.
  unfold wf_fsb. intros [Hroot Hall]%andb_true_iff. split; [done|].
  apply map_Forall_to_list. rewrite forallb_forall in Hall.
  apply Forall_forall. intros [p n] Hin. apply (Hall (p, n)).
  by apply list_elem_of_In.
Qed.

Lemma skip_leaves_destination_witness :
  copy_with_progress quiet_env ["raw"; "Proj"; "a.bin"] ["srv"; "Proj"; "a.bin"] stale_state
  = Ok (false, 0%Q) stale_state.
Proof.
  apply skip_leaves_destination.
  - apply wf_fsb_true. vm_compute. reflexivity.
  - reflexivity.
Defined.

(** ** Path strings *)

Lemma append_nil_l (s : string) : "" +:+ s = s.
Proof. reflexivity. Qed.

Lemma append_cons (c : ascii) (a b : string) : String c a +:+ b = String c (a +:+ b).
Proof. reflexivity. Qed.

Lemma append_assoc (a b c : string) : (a +:+ b) +:+ c = a +:+ (b +:+ c).
Proof.
  induction a as [|x a IH]; [done|]. by rewrite !append_cons, IH.
Qed.

Lemma append_nil_r (a : string) : a +:+ "" = a.
Proof. induction a as [|x a IH]; [done|]. by rewrite append_cons, IH. Qed.

Lemma rstrip_all_in (chars s : string) : all_in chars s = true -> rstrip chars s = "".
Proof.
  induction s as [|c s IH]; simpl; [done|].
  intros [Hc Hs]%andb_true_iff. by rewrite IH, Hc.
Qed.

Lemma rstrip_ends_clear (chars s : string) : ends_clear chars s = true -> rstrip chars s = s.
Proof.
  induction s as [|c s IH]; [done|]. cbn [ends_clear rstrip].
  destruct s as [|c' s'].
  - simpl. intros Hc. by destruct (in_chars c chars).
  - intros H. rewrite (IH H). done.
Qed.

Lemma rstrip_app (chars base seps : string) :
  all_in chars seps = true -> ends_clear chars base = true ->
  rstrip chars (base +:+ seps) = base.
Proof.
  intros Hseps. induction base as [|c base IH].
  - intros _. by apply rstrip_all_in.
  - cbn [ends_clear]. destruct base as [|c' base'].
    + intros Hc. rewrite append_cons, append_nil_l. cbn [rstrip].
      rewrite (rstrip_all_in _ _ Hseps). by destruct (in_chars c chars).
    + intros H. specialize (IH H). rewrite !append_cons in *. cbn [rstrip] in *.
      by rewrite IH.
Qed.

Lemma after_last_slash_None (s : string) :
  after_last_slash s = None <-> has_slash s = false.
Proof.
  induction s as [|c s IH]; simpl; [done|].
  destruct (after_last_slash s) as [r|].
  - split; [done|]. intros [_ H]%orb_false_iff. apply IH in H. done.
  - destruct IH as [IH _]. rewrite (IH eq_refl), orb_false_r.
    by destruct (is_slash c).
Qed.

Lemma after_last_slash_no_slash (s r : string) :
  after_last_slash s = Some r -> has_slash r = false.
Proof.
  revert r. induction s as [|c s IH]; intros r; simpl; [done|].
  destruct (after_last_slash s) as [r'|] eqn:Hs.
  - intros [= <-]. by apply IH.
  - destruct (is_slash c); [|done]. intros [= <-]. by apply after_last_slash_None.
Qed.

Lemma posix_basename_no_slash (s : string) : has_slash (posix_basename s) = false.
Proof.
  unfold posix_basename. destruct (after_last_slash s) as [r|] eqn:Hs.
  - by eapply after_last_slash_no_slash.
  - by apply after_last_slash_None.
Qed.

(** The name after the last slash is empty only when the string is empty or
    ends with a slash. *)
Lemma posix_basename_nonempty (s : string) :
  s <> "" -> ends_clear "/\" s = true -> posix_basename s <> "".
Proof.
  unfold posix_basename. induction s as [|c s IH]; [done|]. intros _.
  cbn [ends_clear after_last_slash]. destruct s as [|c' s'].
  - simpl. unfold is_slash. destruct (Ascii.eqb_spec c "/") as [->|Hc]; [done|done].
  - intros H. specialize (IH ltac:(done) H).
    destruct (after_last_slash (String c' s')) as [r|] eqn:Hr; [done|].
    destruct (is_slash c); done.
Qed.

Lemma split_slash_app (a b : string) :
  split_slash (a +:+ String "/" b)
  = ((split_slash a).1, (split_slash a).2 ++ (split_slash b).1 :: (split_slash b).2).
Proof.
  induction a as [|c a IH].
  - done.
  - rewrite append_cons. cbn [split_slash]. rewrite IH. by destruct (is_slash c).
Qed.

Lemma path_of_app (a b : string) :
  path_of (a +:+ String "/" b) = path_of a ++ path_of b.
Proof.
  unfold path_of. rewrite split_slash_app. cbn [fst snd].
  by rewrite app_comm_cons, List.filter_app.
Qed.

Lemma split_slash_no_slash (s : string) :
  has_slash s = false -> split_slash s = (s, []).
Proof.
  induction s as [|c s IH]; simpl; [done|].
  intros [Hc Hs]%orb_false_iff. by rewrite Hc, (IH Hs).
Qed.

Lemma path_of_name (s : string) :
  has_slash s = false -> s <> "" -> path_of s = [s].
Proof.
  intros Hs Hne. unfold path_of. rewrite (split_slash_no_slash _ Hs). simpl.
  by destruct s.
Qed.

Lemma ends_with_slash_app (s : string) :
  ends_with_slash s = true -> exists a, s = a +:+ "/".
Proof.
  induction s as [|c s IH]; [done|]. cbn [ends_with_slash]. destruct s as [|c' s'].
  - unfold is_slash. intros ->%Ascii.eqb_eq. by exists "".
  - intros H. destruct (IH H) as [a Ha]. exists (String c a). by rewrite Ha.
Qed.

Lemma path_of_join (sr name : string) :
  has_slash name = false -> name <> "" ->
  path_of (posix_join sr name) = path_of sr ++ [name].
Proof.
  intros Hs Hne. unfold posix_join.
  assert (starts_with_slash name = false) as ->.
  { destruct name as [|c n]; [done|]. simpl in *. by apply orb_false_iff in Hs as [-> _]. }
  destruct sr as [|c sr'] eqn:Hsr; [by rewrite path_of_name|]. rewrite <- Hsr.
  destruct (ends_with_slash sr) eqn:He.
  - apply ends_with_slash_app in He as [a ->].
    rewrite append_assoc, append_cons, append_nil_l, !path_of_app.
    rewrite (path_of_name name) by done. cbn. by rewrite app_nil_r.
  - rewrite append_cons, append_nil_l. by rewrite path_of_app, (path_of_name name).
Qed.

Lemma path_of_join_any (a b : string) :
  starts_with_slash b = false -> path_of (posix_join a b) = path_of a ++ path_of b.
Proof.
  intros Hb. unfold posix_join. rewrite Hb.
  destruct a as [|c a'] eqn:Ha; [done|]. rewrite <- Ha.
  destruct (ends_with_slash a) eqn:He.
  - apply ends_with_slash_app in He as [a0 ->].
    rewrite append_assoc, append_cons, append_nil_l, !path_of_app.
    cbn. by rewrite app_nil_r.
  - rewrite append_cons, append_nil_l. by rewrite path_of_app.
Qed.

Lemma no_slash_starts (s : string) : has_slash s = false -> starts_with_slash s = false.
Proof. destruct s as [|c s]; [done|]. simpl. by intros [-> _]%orb_false_iff. Qed.

(** C10, as the code has it.  The separators ["/"] and ["\"] at the end of
    the project directory, a plain path string, are stripped before the
    base name is taken: the project is named by the last component of what
    is left, and the name is empty only when nothing is left, that is when
    the path is made of separators.  The run makes the directory of that name below the server
    root (the server root itself, when the name is empty) and mirrors the
    walk of the project directory into it: after a run that returns, for
    trees that do not overlap, that directory is there and holds an entry of
    the size of every file of the walk. *)
Theorem trailing_separators_stripped (E : env) (fuel : nat) (base seps sr : string)
    (st : state) :
  plain (base +:+ seps) = true ->
  plain (dst_project_of (base +:+ seps) sr) = true ->
  all_in "/\" seps = true ->
  ends_clear "/\" base = true ->
  let pd := base +:+ seps in
  let name := posix_basename base in
  let dstp := path_of sr ++ match base with EmptyString => [] | _ => [name] end in
  project_name_of pd = name /\
  (name = "" <-> base = "") /\
  path_of (dst_project_of pd sr) = dstp /\
  sync_project_to_server E fuel pd sr st
  = (_ensure_dir dstp ;;
     walk fuel (sync_dir E (path_of pd) (path_of sr) dstp) (path_of pd)) st /\
  (forall st', sync_project_to_server E fuel pd sr st = Ok tt st' ->
     disjoint_roots (path_of pd) dstp ->
     is_dir (st_fs st') dstp = true /\
     forall r x c, source_file (st_fs st) (path_of pd) r x c ->
       getsize E (st_fs st') (dstp ++ r ++ [x]) = Some (N.of_nat (length c))).
Proof.
  intros _ _ Hseps Hbase pd name dstp.
  assert (project_name_of pd = name) as Hname.
  { unfold project_name_of, pd. by rewrite rstrip_app. }
  assert (name = "" <-> base = "") as Hempty.
  { split; [|by intros ->]. intros Hn. destruct (decide (base = "")) as [|Hne]; [done|].
    by destruct (posix_basename_nonempty base Hne Hbase). }
  assert (path_of (dst_project_of pd sr) = dstp) as Hdst.
  { unfold dst_project_of. rewrite Hname.
    rewrite path_of_join_any by apply no_slash_starts, posix_basename_no_slash.
    unfold dstp. f_equal. destruct base as [|c b] eqn:Hb; [done|]. rewrite <- Hb in *.
    apply path_of_name; [apply posix_basename_no_slash|].
    intros Hn. apply Hempty in Hn. congruence. }
  split_and!; [done|done|done| |].
  - unfold sync_project_to_server. fold (project_name_of pd). fold (dst_project_of pd sr).
    by rewrite Hdst.
  - intros st' Hrun Hd. rewrite <- Hdst in *.
    rewrite sync_plan in Hrun by done.
    pose proof (run_plan_no_OutOfFuel _ _ _ _ _ _ _ Hrun) as Hoof.
    apply not_elem_of_cons in Hoof as [_ Hoof].
    pose proof (run_plan_agree _ _ _ _ _ _ _ Hd Hrun) as Hag.
    pose proof (run_settles _ _ _ _ Hd _ _ _ Hrun) as Hall.
    rewrite Forall_forall in Hall. split.
    + destruct (Hall (EnsureDir [])) as [Hdir _]; [by left|]. by rewrite app_nil_r in Hdir.
    + intros r x c (Hwalk & Hlisted & Hfile).
      assert (SyncFile r x ∈ EnsureDir [] :: plan (path_of pd) fuel (st_fs st) []) as Hin.
      { apply list_elem_of_further.
        apply (plan_has_file (path_of pd) (st_fs st) fuel [] r x); [done| |done|].
        - intros q y Hq. by apply Hwalk.
        - cbn [app]. unfold is_dir. by rewrite Hfile. }
      destruct (Hall _ Hin) as [_ Hnc].
      apply needs_copy_false in Hnc as (n & _ & Hs & ->). rewrite <- Hs.
      unfold getsize. rewrite Hag; [by rewrite Hfile|]. by apply prefix_app_r.
Qed.

Lemma trailing_separators_stripped_witness :
  project_name_of "/raw/Proj/" = "Proj" /\
  is_dir (st_fs demo_mirrored) ["srv"; "Proj"] = true /\
  getsize quiet_env (st_fs demo_mirrored) ["srv"; "Proj"; "A"; "b.bin"] = Some 1%N.
Proof.
  destruct (trailing_separators_stripped quiet_env 5 "/raw/Proj" "/" "/srv" demo_state)
    as (Hname & _ & _ & _ & Hrun); [reflexivity..|].
  split; [exact Hname|].
  destruct (Hrun demo_mirrored) as [Hdir Hfiles].
  - vm_compute. reflexivity.
  - split; intros [k Hk]; vm_compute in Hk; discriminate.
  - split; [exact Hdir|].
    apply (Hfiles ["A"] "b.bin" [Byte.x03]). split_and!.
    + intros q y Hq. apply (prefix_snoc_inv (q ++ [y]) [] "A") in Hq as [Heq|Hq].
      * apply (app_inj_tail q [] y "A") in Heq as [-> ->].
        split; [exists ["a.bin"; "A"]; split; [reflexivity|repeat constructor]|reflexivity].
      * apply prefix_nil_inv in Hq. by destruct q.
    + exists ["b.bin"]. split; [reflexivity|repeat constructor].
    + reflexivity.
Defined.

(** The project directory ["/"] has no name: its mirror is the server root
    itself, and the summary line of [/a.bin] shows [a.bin], with no project
    directory before it. *)
Lemma root_project_has_no_name :
  project_name_of "/" = "" /\
  dst_project_of "/" "/srv" = "/srv/" /\
  path_of (dst_project_of "/" "/srv") = path_of "/srv" /\
  plain "/" = true /\ plain (dst_project_of "/" "/") = true /\
  sync_project_to_server quiet_env 5 "/" "/" root_state
  = Ok tt (State root_fs [already_line ["a.bin"]] 0).
Proof. split_and!; vm_compute; reflexivity. Qed.

(** ** Summary lines *)

Lemma copy_with_progress_logs E src dst st b bps st1 :
  copy_with_progress E src dst st = Ok (b, bps) st1 -> logs_progress st st1.
Proof.
  intros Hc. pose proof (copy_with_progress_spec E src dst st) as H.
  rewrite Hc in H. destruct H as (st0 & Hmk & H).
  pose proof (makedirs_spec (dirname dst) st) as Hg. rewrite Hmk in Hg.
  destruct Hg as ([Hlog _] & _).
  destruct b.
  - destruct H as (_ & c & _ & _ & _ & Hl).
    eapply logs_progress_trans; [|exact Hl]. by apply logs_progress_refl.
  - destruct H as (_ & -> & _). by apply logs_progress_refl.
Qed.

Lemma filter_no_summary (lines : list string) :
  Forall (fun l => is_summary l = false) lines -> List.filter is_summary lines = [].
Proof.
  induction 1 as [|l lines Hl _ IH]; [done|]. simpl. by rewrite Hl.
Qed.

Lemma sync_file_not_Diverge E srv root dst_dir f st :
  sync_file E srv root dst_dir f st <> Diverge.
Proof.
  unfold sync_file, bind.
  pose proof (copy_with_progress_not_Diverge E (root ++ [f]) (dst_dir ++ [f]) st) as H.
  destruct (copy_with_progress E (root ++ [f]) (dst_dir ++ [f]) st) as [[b bps] st1| |];
    [|done..].
  simpl. by destruct b.
Qed.

(** The summary lines of a whole run: one per file of the walk, in order. *)
Lemma run_plan_summaries E proj srv dstp l st st' :
  run_plan E proj srv dstp l st = Ok tt st' ->
  exists new, st_log st' = st_log st ++ new /\
    Forall2 (fun rx line => summary_of E srv dstp rx.1 rx.2 line)
      (plan_files l) (List.filter is_summary new).
Proof.
  revert st. induction l as [|a l IH]; intros st.
  - intros [= <-]. exists []. split; [by rewrite app_nil_r|constructor].
  - rewrite run_plan_cons. intros ([] & st1 & Ha & Hl)%bind_Ok_inv.
    destruct (IH _ Hl) as (new & Hlog & Hall).
    destruct a as [r|r x|]; [| |done].
    + cbn [run_action] in Ha. unfold _ensure_dir in Ha.
      pose proof (makedirs_spec (dstp ++ r) st) as H. rewrite Ha in H.
      destruct H as ([Hsame _] & _). exists new. split; [by rewrite Hlog, Hsame|done].
    + apply sync_file_Ok in Ha as (b & bps & st0 & Hc & _ & _ & Hlog1).
      apply copy_with_progress_logs in Hc as (progress & Hlog0 & Hall0).
      eexists. split.
      * rewrite Hlog, Hlog1, Hlog0, <- !app_assoc. reflexivity.
      * rewrite !List.filter_app, (filter_no_summary _ Hall0). cbn [plan_files omap app].
        replace (List.filter is_summary
                   [if b then copied_line E (relpath (dstp ++ r ++ [x]) srv) bps
                    else already_line (relpath (dstp ++ r ++ [x]) srv)])
          with [if b then copied_line E (relpath (dstp ++ r ++ [x]) srv) bps
                else already_line (relpath (dstp ++ r ++ [x]) srv)]
          by (by destruct b).
        constructor; [|done]. unfold summary_of. cbn [fst snd].
        destruct b; [right; by exists bps|by left].
Qed.

(** C7, as the code has it.  For every file whose copy returns, the file
    step emits exactly one summary line, after the progress lines of the
    copy: the check mark and a blank, then "Copied to server at
    <relative-dest-path> @ <rate> MB/s" when the file was copied and
    "Already on server: <relative-dest-path>" when it was skipped.  In a
    run that returns, the summary lines are those of the files the walk
    meets, one for each and in its order. *)
Theorem one_summary_line_per_file E :
  (forall srv root dst_dir f st st',
     sync_file E srv root dst_dir f st = Ok tt st' ->
     exists b bps st1 progress,
       copy_with_progress E (root ++ [f]) (dst_dir ++ [f]) st = Ok (b, bps) st1 /\
       let rel := relpath (dst_dir ++ [f]) srv in
       let line := if b then copied_line E rel bps else already_line rel in
       st_log st' = st_log st ++ progress ++ [line] /\
       Forall (fun l => is_summary l = false) progress /\
       List.filter is_summary (progress ++ [line]) = [line] /\
       line = check_mark +:+ " " +:+
                (if b then copied_text E rel bps else already_text rel)) /\
  (forall fuel pd sr st st',
     disjoint_roots (path_of pd) (path_of (dst_project_of pd sr)) ->
     sync_project_to_server E fuel pd sr st = Ok tt st' ->
     exists new, st_log st' = st_log st ++ new /\
       Forall2 (fun rx line =>
                  summary_of E (path_of sr) (path_of (dst_project_of pd sr)) rx.1 rx.2 line)
         (walk_files (path_of pd) fuel (st_fs st)) (List.filter is_summary new)).
Proof.
  split.
  - intros srv root dst_dir f st st'. unfold sync_file, bind.
    destruct (copy_with_progress E (root ++ [f]) (dst_dir ++ [f]) st)
      as [[b bps] st1| |] eqn:Hc; [|done..].
    apply copy_with_progress_logs in Hc as (progress & Hlog & Hall).
    cbn [fst snd]. intros Hline. exists b, bps, st1, progress. split; [done|].
    cbv zeta. split_and!.
    + destruct b; cbn [negb] in Hline; unfold log in Hline; injection Hline as <-;
        cbn [st_log]; by rewrite Hlog, <- app_assoc.
    + done.
    + rewrite List.filter_app, (filter_no_summary _ Hall). by destruct b.
    + by destruct b.
  - intros fuel pd sr st st' Hd Hrun. rewrite sync_plan in Hrun by done.
    apply run_plan_summaries in Hrun as (new & Hlog & Hall).
    exists new. split; [done|exact Hall].
Qed.

Lemma one_summary_line_per_file_witness :
  (exists progress,
     st_log (state_of (sync_file quiet_env ["srv"] ["raw"; "Proj"] ["srv"; "Proj"] "a.bin"
                         stale_state) stale_state)
     = st_log stale_state ++ progress ++ [already_line ["Proj"; "a.bin"]] /\
     Forall (fun l => is_summary l = false) progress) /\
  (exists new, st_log demo_mirrored = st_log demo_state ++ new /\
     Forall2 (fun rx line => summary_of quiet_env ["srv"] ["srv"; "Proj"] rx.1 rx.2 line)
       [([], "a.bin"); (["A"], "b.bin")] (List.filter is_summary new)).
Proof.
  destruct (one_summary_line_per_file quiet_env) as [Hfile Hrun]. split.
  - destruct (Hfile ["srv"] ["raw"; "Proj"] ["srv"; "Proj"] "a.bin" stale_state
                (state_of (sync_file quiet_env ["srv"] ["raw"; "Proj"] ["srv"; "Proj"] "a.bin"
                             stale_state) stale_state))
      as (b & bps & st1 & progress & Hc & Hlog & Hall & _); [vm_compute; reflexivity|].
    exists progress. split; [|exact Hall].
    rewrite Hlog. vm_compute in Hc. injection Hc as <- _ _. reflexivity.
  - apply (Hrun 5 "/raw/Proj/" "/srv" demo_state demo_mirrored).
    + split; intros [k Hk]; vm_compute in Hk; discriminate.
    + vm_compute. reflexivity.
Defined.

(** The skipped file of the stale mirror gets its line, and it is not the
    text of the specification. *)
Lemma summary_line_has_check_mark :
  sync_project_to_server quiet_env 5 "/raw/Proj" "/srv" stale_state = Ok tt stale_mirrored /\
  st_log stale_mirrored = [already_line ["Proj"; "a.bin"]] /\
  already_text ["Proj"; "a.bin"] ∉ st_log stale_mirrored.
Proof.
  split_and!; [vm_compute; reflexivity..|].
  vm_compute. intros H. apply list_elem_of_singleton in H. discriminate.
Qed.

(** ** Failures *)

(** [for_each] stops at the first item that raises. *)
Lemma for_each_raise {A} (body : A -> M unit) (l1 : list A) (x : A) (l2 : list A)
    st st1 e st' :
  for_each body l1 st = Ok tt st1 -> body x st1 = Raise e st' ->
  for_each body (l1 ++ x :: l2) st = Raise e st'.
Proof.
  intros H1 Hx. rewrite for_each_app. unfold bind. rewrite H1. simpl.
  unfold bind. by rewrite Hx.
Qed.

Lemma copy_loop_with_copystat fuel E g src dst total start rest copied st :
  copy_loop fuel (with_copystat E g) src dst total start rest copied st
  = copy_loop fuel E src dst total start rest copied st.
Proof.
  revert rest copied st. induction fuel as [|fuel IH]; intros rest copied st; [done|].
  cbn [copy_loop]. unfold bind, read. cbn [with_copystat read_fails].
  destruct (read_fails E src copied); [done|]. cbn [fst snd].
  destruct (take_N COPY_CHUNK_BYTES rest) as [|y c]; [done|].
  unfold write. cbn [with_copystat write_fails].
  destruct (write_fails E dst copied); [done|].
  unfold time_time, log. cbn [st_fs st_log st_clock]. apply IH.
Qed.

Lemma copy_with_progress_with_copystat E g src dst st :
  copy_with_progress (with_copystat E g) src dst st = copy_with_progress E src dst st.
Proof.
  unfold copy_with_progress, bind, _ensure_dir.
  destruct (makedirs (dirname dst) st) as [[] st1| |]; [|done..].
  unfold get_fs.
  change (_needs_copy (with_copystat E g)) with (_needs_copy E).
  destruct (_needs_copy E (st_fs st1) src dst); [|done]. cbn [negb].
  change (getsize_or_raise (with_copystat E g)) with (getsize_or_raise E).
  destruct (getsize_or_raise E src st1) as [total st2| |]; [|done..].
  change (time_time (with_copystat E g)) with (time_time E).
  destruct (time_time E st2) as [start st3| |]; [|done..].
  change (open_rb (with_copystat E g)) with (open_rb E).
  destruct (open_rb E src st3) as [rest st4| |]; [|done..].
  change (open_wb (with_copystat E g)) with (open_wb E).
  destruct (open_wb E dst st4) as [[] st5| |]; [|done..].
  rewrite copy_loop_with_copystat.
  destruct (copy_loop (S (length rest)) E src dst total start rest 0 st5)
    as [copied st6| |]; [|done..].
  unfold try_except, copystat, ret. cbn [with_copystat copystat_fails].
  by destruct (g src dst), (copystat_fails E src dst).
Qed.

Lemma walk_ext fuel (body body' : path -> list string -> list string -> M unit) top st :
  (forall root dirs files st', body root dirs files st' = body' root dirs files st') ->
  walk fuel body top st = walk fuel body' top st.
Proof.
  intros Hb. revert top st. induction fuel as [|fuel IH]; intros top st; [done|].
  cbn [walk]. destruct (scandir (st_fs st) top) as [[dirs files]|]; [|done].
  unfold bind. rewrite Hb. destruct (body' top dirs files st) as [[] st1| |]; [|done..].
  apply for_each_ext. intros d st'. apply IH.
Qed.

Lemma sync_with_copystat E g fuel pd sr st :
  sync_project_to_server (with_copystat E g) fuel pd sr st
  = sync_project_to_server E fuel pd sr st.
Proof.
  unfold sync_project_to_server, bind.
  destruct (_ensure_dir _ st) as [[] st1| |]; [|done..].
  apply walk_ext. intros root dirs files st'. unfold sync_dir, bind.
  destruct (_ensure_dir _ st') as [[] st2| |]; [|done..].
  destruct (for_each _ dirs st2) as [[] st3| |]; [|done..].
  apply for_each_ext. intros f st4. unfold sync_file, bind.
  rewrite copy_with_progress_with_copystat.
  destruct (copy_with_progress E _ _ st4) as [[b bps] st5| |]; [|done..].
  done.
Qed.

(** C9.  An exception of [copy_with_progress] is handled nowhere between
    the copy and the caller of [sync_project_to_server]: it leaves the file
    step, the loop over the files of the directory (whatever files are
    left), the round of the walk, the walk of the directories above, and
    the mirror, with the state the copy left.  A failure of
    [shutil.copystat] changes nothing: neither the copy nor the mirror can
    tell it from a success.  In terms of the steps of the walk: when the
    copy of a file raises, the mirror ends there, with the state the copy
    left, and none of the steps behind it is taken. *)
Theorem copy_failure_aborts_mirror E :
  (forall srv root dst_dir f st e st',
     copy_with_progress E (root ++ [f]) (dst_dir ++ [f]) st = Raise e st' ->
     sync_file E srv root dst_dir f st = Raise e st') /\
  (forall proj srv dstp root dirs files1 f files2 st st1 e st',
     let rel := relpath root proj in
     let dst_dir := match rel with [] => dstp | _ => dstp ++ rel end in
     (_ensure_dir dst_dir ;;
      for_each (fun d => _ensure_dir (dst_dir ++ [d])) dirs ;;
      for_each (sync_file E srv root dst_dir) files1) st = Ok tt st1 ->
     copy_with_progress E (root ++ [f]) (dst_dir ++ [f]) st1 = Raise e st' ->
     sync_dir E proj srv dstp root dirs (files1 ++ f :: files2) st = Raise e st') /\
  (forall fuel body top dirs files st e st',
     scandir (st_fs st) top = Some (dirs, files) ->
     body top dirs files st = Raise e st' ->
     walk (S fuel) body top st = Raise e st') /\
  (forall fuel body top dirs1 d dirs2 files st st1 st2 e st',
     scandir (st_fs st) top = Some (dirs1 ++ d :: dirs2, files) ->
     body top (dirs1 ++ d :: dirs2) files st = Ok tt st1 ->
     for_each (fun d' => walk fuel body (top ++ [d'])) dirs1 st1 = Ok tt st2 ->
     walk fuel body (top ++ [d]) st2 = Raise e st' ->
     walk (S fuel) body top st = Raise e st') /\
  (forall fuel pd sr st st1 e st',
     _ensure_dir (path_of (dst_project_of pd sr)) st = Ok tt st1 ->
     walk fuel (sync_dir E (path_of pd) (path_of sr) (path_of (dst_project_of pd sr)))
       (path_of pd) st1 = Raise e st' ->
     sync_project_to_server E fuel pd sr st = Raise e st') /\
  (forall g src dst st,
     copy_with_progress (with_copystat E g) src dst st = copy_with_progress E src dst st) /\
  (forall g fuel pd sr st,
     sync_project_to_server (with_copystat E g) fuel pd sr st
     = sync_project_to_server E fuel pd sr st) /\
  (forall fuel pd sr st before r f behind st1 e st',
     disjoint_roots (path_of pd) (path_of (dst_project_of pd sr)) ->
     EnsureDir [] :: plan (path_of pd) fuel (st_fs st) [] = before ++ SyncFile r f :: behind ->
     run_plan E (path_of pd) (path_of sr) (path_of (dst_project_of pd sr)) before st
     = Ok tt st1 ->
     copy_with_progress E (path_of pd ++ r ++ [f])
       (path_of (dst_project_of pd sr) ++ r ++ [f]) st1 = Raise e st' ->
     sync_project_to_server E fuel pd sr st = Raise e st').
Proof.
  split_and!.
  - intros srv root dst_dir f st e st' Hc. unfold sync_file, bind. by rewrite Hc.
  - intros proj srv dstp root dirs files1 f files2 st st1 e st' rel dst_dir Hpre Hc.
    unfold sync_dir. fold rel. fold dst_dir. unfold bind in *.
    destruct (_ensure_dir dst_dir st) as [[] sta| |]; [|done..].
    destruct (for_each _ dirs sta) as [[] stb| |]; [|done..].
    eapply for_each_raise; [exact Hpre|]. unfold sync_file, bind. by rewrite Hc.
  - intros fuel body top dirs files st e st' Hs Hb. cbn [walk]. rewrite Hs.
    unfold bind. by rewrite Hb.
  - intros fuel body top dirs1 d dirs2 files st st1 st2 e st' Hs Hb H1 Hd.
    cbn [walk]. rewrite Hs. unfold bind. rewrite Hb.
    by eapply for_each_raise.
  - intros fuel pd sr st st1 e st' Hm Hw. unfold sync_project_to_server, bind.
    fold (project_name_of pd). fold (dst_project_of pd sr). by rewrite Hm.
  - intros. apply copy_with_progress_with_copystat.
  - intros. apply sync_with_copystat.
  - intros fuel pd sr st before r f behind st1 e st' Hd Hplan Hrun Hc.
    rewrite sync_plan, Hplan, run_plan_app by done. unfold bind. rewrite Hrun.
    rewrite run_plan_cons. unfold bind. cbn [run_action]. unfold sync_file, bind.
    rewrite <- !app_assoc. by rewrite Hc.
Qed.

Lemma copy_failure_aborts_mirror_witness :
  exists st',
    sync_project_to_server faulty_env 5 "/raw/Proj/" "/srv" demo_state = Raise OSError st' /\
    st_fs st' !! ["srv"; "Proj"; "a.bin"] = Some (File []) /\
    st_fs st' !! ["srv"; "Proj"; "A"; "b.bin"] = None /\
    sync_project_to_server (with_copystat quiet_env (fun _ _ => true)) 5 "/raw/Proj/" "/srv"
      demo_state = Ok tt demo_mirrored.
Proof.
  destruct (copy_failure_aborts_mirror faulty_env) as (_ & _ & _ & _ & _ & _ & _ & Hplan).
  destruct (copy_failure_aborts_mirror quiet_env) as (_ & _ & _ & _ & _ & _ & Hstat & _).
  eexists. split_and!.
  - eapply (Hplan 5 "/raw/Proj/" "/srv" demo_state
             [EnsureDir []; EnsureDir []; EnsureDir ["A"]] [] "a.bin"
             [EnsureDir ["A"]; SyncFile ["A"] "b.bin"]).
    + split; intros [k Hk]; vm_compute in Hk; discriminate.
    + vm_compute. reflexivity.
    + vm_compute. reflexivity.
    + vm_compute. reflexivity.
  - vm_compute. reflexivity.
  - vm_compute. reflexivity.
  - rewrite Hstat. vm_compute. reflexivity.
Defined.

(** ** [str.replace] *)

Lemma prefix_append (old rest : string) : String.prefix old (old +:+ rest) = true.
Proof.
  induction old as [|c old IH]; [by destruct rest|].
  rewrite append_cons. cbn [String.prefix]. by destruct (ascii_dec c c).
Qed.

Lemma prefix_split (old s : string) :
  String.prefix old s = true -> s = old +:+ drop_str (String.length old) s.
Proof.
  revert s. induction old as [|c old IH]; intros s; [done|].
  destruct s as [|c' s]; [done|]. cbn [String.prefix String.length drop_str].
  destruct (ascii_dec c c') as [<-|]; [|done]. intros H.
  rewrite append_cons. f_equal. by apply IH.
Qed.

Lemma replace_scan_skip (old new s rest : string) :
  replace_scan old new (String.length s) (s +:+ rest) = replace_scan old new 0 rest.
Proof.
  induction s as [|c s IH]; [by destruct rest|].
  rewrite append_cons. cbn [String.length replace_scan]. apply IH.
Qed.

(** An occurrence at the front is replaced, and the scan goes on behind it. *)
Lemma str_replace_front (old new rest : string) :
  old <> "" ->
  str_replace old new (old +:+ rest) = new +:+ str_replace old new rest.
Proof.
  destruct old as [|c old]; [done|]. intros _. unfold str_replace.
  rewrite append_cons. cbn [replace_scan].
  rewrite <- (append_cons c old rest), prefix_append.
  cbn [String.length Nat.sub]. rewrite ?Nat.sub_0_r. by rewrite replace_scan_skip.
Qed.

(** Where [old] does not occur there is nothing to replace. *)
Lemma str_replace_absent (old new s : string) :
  occurs old s = false -> str_replace old new s = s.
Proof.
  destruct old as [|c old].
  { destruct s; simpl; done. }
  unfold str_replace. induction s as [|c' s IH]; [done|].
  cbn [occurs replace_scan]. intros [Hp Ho]%orb_false_iff.
  rewrite Hp. f_equal. by apply IH.
Qed.

Lemma str_replace_prefix_only (old new s cand : string) :
  old <> "" ->
  candidate_by_prefix old new s = Some cand ->
  occurs old (drop_str (String.length old) s) = false ->
  str_replace old new s = cand.
Proof.
  unfold candidate_by_prefix. intros Hne. destruct (String.prefix old s) eqn:Hp; [|done].
  intros [= <-] Ho. rewrite (prefix_split _ _ Hp) at 1.
  rewrite str_replace_front by done. by rewrite str_replace_absent.
Qed.

(** ** The annotation loop *)

Lemma annotate_item_Done f sd srv a (h : gmap nat (gmap string pyval)) p :
  item_at h a !! "path" = Some (VStr p) ->
  annotate_item f sd srv a h
  = Done (<[a := <["server_path" := VStr (server_path_for f sd srv p)]> (item_at h a)]> h).
Proof. unfold annotate_item. by intros ->. Qed.

Lemma annotate_item_inv f sd srv a (h h1 : gmap nat (gmap string pyval)) :
  annotate_item f sd srv a h = Done h1 ->
  exists p, item_at h a !! "path" = Some (VStr p) /\
    h1 = <[a := <["server_path" := VStr (server_path_for f sd srv p)]> (item_at h a)]> h.
Proof.
  unfold annotate_item. destruct (item_at h a !! "path") as [[p|n|]|]; [|done..].
  intros [= <-]. eauto.
Qed.

Lemma item_at_insert (h : gmap nat (gmap string pyval)) a i b :
  item_at (<[a := i]> h) b = if decide (a = b) then i else item_at h b.
Proof.
  unfold item_at. destruct (decide (a = b)) as [->|Hne].
  - by rewrite lookup_insert_eq.
  - by rewrite lookup_insert_ne.
Qed.

(** A round of the loop changes the ["server_path"] of one record and
    nothing else. *)
Lemma annotate_item_keeps f sd srv a (h h1 : gmap nat (gmap string pyval)) b k :
  annotate_item f sd srv a h = Done h1 -> k <> "server_path" ->
  item_at h1 b !! k = item_at h b !! k.
Proof.
  intros (p & Hp & ->)%annotate_item_inv Hk. rewrite item_at_insert.
  destruct (decide (a = b)) as [->|]; [|done]. by rewrite lookup_insert_ne.
Qed.

Lemma annotate_server_paths_inv f sd srv l (h h' : gmap nat (gmap string pyval)) :
  annotate_server_paths f sd srv l h = Done h' ->
  Forall (has_path h) l /\
  (forall a, a ∉ l -> h' !! a = h !! a) /\
  (forall a k, k <> "server_path" -> item_at h' a !! k = item_at h a !! k) /\
  (forall a p, a ∈ l -> item_at h a !! "path" = Some (VStr p) ->
     h' !! a = Some (<["server_path" := VStr (server_path_for f sd srv p)]> (item_at h a))).
Proof.
  revert h. induction l as [|a l IH]; intros h.
  - intros [= <-]. split_and!; [constructor|done|done|]. intros a p Ha. by apply elem_of_nil in Ha.
  - cbn [annotate_server_paths].
    destruct (annotate_item f sd srv a h) as [h1|] eqn:Ha; [|done]. intros Hl.
    destruct (IH _ Hl) as (Hall & Hout & Hkeep & Hin).
    assert (forall b k, k <> "server_path" -> item_at h1 b !! k = item_at h b !! k) as Hkeep1.
    { intros b k. by apply (annotate_item_keeps f sd srv a). }
    apply annotate_item_inv in Ha as (p & Hp & ->).
    split_and!.
    + constructor; [by exists p|]. eapply Forall_impl; [exact Hall|].
      intros b (q & Hq). exists q. by rewrite <- (Hkeep1 b "path").
    + intros b [Hba Hbl]%not_elem_of_cons. rewrite (Hout b Hbl).
      by rewrite lookup_insert_ne.
    + intros b k Hk. by rewrite Hkeep, Hkeep1.
    + intros b q Hb Hq. destruct (decide (b ∈ l)) as [Hbl|Hbl].
      * rewrite (Hin b q Hbl) by (by rewrite (Hkeep1 b "path")).
        rewrite item_at_insert. destruct (decide (a = b)) as [->|]; [|done].
        rewrite Hp in Hq. injection Hq as ->. by rewrite insert_insert_eq.
      * apply elem_of_cons in Hb as [->|]; [|done].
        rewrite (Hout a Hbl), lookup_insert_eq. congruence.
Qed.

Lemma annotate_server_paths_Done f sd srv l (h : gmap nat (gmap string pyval)) :
  Forall (has_path h) l -> exists h', annotate_server_paths f sd srv l h = Done h'.
Proof.
  revert h. induction l as [|a l IH]; intros h Hall; [by eexists|].
  apply Forall_cons in Hall as [(p & Hp) Hl]. cbn [annotate_server_paths].
  rewrite (annotate_item_Done _ _ _ _ _ _ Hp). apply IH.
  eapply Forall_impl; [exact Hl|]. intros b (q & Hq). exists q.
  rewrite item_at_insert. destruct (decide (a = b)) as [->|]; [|done].
  by rewrite lookup_insert_ne.
Qed.

(** ** Reconciliation of the file list *)

Lemma item_at_Some (h : gmap nat (gmap string pyval)) a i :
  h !! a = Some i -> item_at h a = i.
Proof. unfold item_at. by intros ->. Qed.

Lemma has_path_allocated (h : gmap nat (gmap string pyval)) a :
  has_path h a -> is_Some (h !! a).
Proof.
  intros (p & Hp). unfold item_at in Hp. destruct (h !! a); [done|]. done.
Qed.

(** C4, as the code has it.  When every listed record has a path, the loop
    returns, and each listed record gets under ["server_path"] the
    candidate, where something exists at the candidate, and the empty string
    otherwise; what an earlier call (for whatever directories) wrote does not
    show in the result.  The candidate is the path with every occurrence of
    the session directory replaced: it is the path with its prefix
    substituted when the session directory is not empty and occurs in the
    path only as its prefix. *)
Theorem server_path_rederived (f : gmap (list string) node) (sd srv : string)
    (l : list nat) (h : gmap nat (gmap string pyval)) :
  Forall (has_path h) l ->
  exists h', annotate_server_paths f sd srv l h = Done h' /\
    (forall a p, a ∈ l -> item_at h a !! "path" = Some (VStr p) ->
       (str_exists f (str_replace sd srv p) = true ->
          item_at h' a !! "server_path" = Some (VStr (str_replace sd srv p))) /\
       (str_exists f (str_replace sd srv p) = false ->
          item_at h' a !! "server_path" = Some (VStr ""))) /\
    (forall f0 sd0 srv0 h0,
       annotate_server_paths f0 sd0 srv0 l h0 = Done h ->
       annotate_server_paths f sd srv l h0 = Done h') /\
    (forall p cand, sd <> "" ->
       candidate_by_prefix sd srv p = Some cand ->
       occurs sd (drop_str (String.length sd) p) = false ->
       str_replace sd srv p = cand).
Proof.
  intros Hall. destruct (annotate_server_paths_Done f sd srv l h Hall) as [h' Hrun].
  exists h'. destruct (annotate_server_paths_inv _ _ _ _ _ _ Hrun) as (_ & Hout & Hkeep & Hin).
  split_and!; [done| | |].
  - intros a p Ha Hp. rewrite (item_at_Some _ _ _ (Hin a p Ha Hp)), lookup_insert_eq.
    unfold server_path_for. split; by intros ->.
  - intros f0 sd0 srv0 h0 Hprev.
    destruct (annotate_server_paths_inv _ _ _ _ _ _ Hprev) as (Hall0 & Hout0 & Hkeep0 & Hin0).
    destruct (annotate_server_paths_Done f sd srv l h0 Hall0) as [h0' Hrun0].
    rewrite Hrun0. f_equal.
    destruct (annotate_server_paths_inv _ _ _ _ _ _ Hrun0) as (_ & Hout' & _ & Hin').
    apply map_eq. intros a. destruct (decide (a ∈ l)) as [Ha|Ha].
    + rewrite Forall_forall in Hall0. destruct (Hall0 a Ha) as (p & Hp).
      rewrite (Hin' a p Ha Hp).
      rewrite (Hin a p Ha) by (by rewrite Hkeep0).
      rewrite (item_at_Some _ _ _ (Hin0 a p Ha Hp)). by rewrite insert_insert_eq.
    + by rewrite (Hout' a Ha), (Hout a Ha), (Hout0 a Ha).
  - intros p cand. apply str_replace_prefix_only.
Qed.

Lemma server_path_rederived_witness :
  annotate_server_paths recon_fs "/raw/S" "/srv/S" [0; 1] recon_heap
  = Done (heap_of (annotate_server_paths recon_fs "/raw/S" "/srv/S" [0; 1] recon_heap)) /\
  item_at (heap_of (annotate_server_paths recon_fs "/raw/S" "/srv/S" [0; 1] recon_heap)) 0
    !! "server_path" = Some (VStr "/srv/S/f.bin") /\
  item_at (heap_of (annotate_server_paths recon_fs "/raw/S" "/srv/S" [0; 1] recon_heap)) 1
    !! "server_path" = Some (VStr "").
Proof.
  destruct (server_path_rederived recon_fs "/raw/S" "/srv/S" [0; 1] recon_heap)
    as (h' & Hrun & Hval & _).
  { repeat constructor; eexists; vm_compute; reflexivity. }
  rewrite Hrun. cbn [heap_of]. split_and!; [done| |].
  - destruct (Hval 0 "/raw/S/f.bin") as [H _]; [repeat constructor|reflexivity|].
    apply H. reflexivity.
  - destruct (Hval 1 "/raw/S/g.bin") as [_ H]; [repeat constructor|reflexivity|].
    apply H. reflexivity.
Defined.

(** The session directory occurs twice in the path of the third record:
    both occurrences are replaced, nothing exists at the result, and
    ["server_path"] is empty although the path with its prefix substituted
    names a file. *)
Lemma replace_reaches_past_the_prefix :
  candidate_by_prefix "/raw/S" "/srv/S" "/raw/S/bak/raw/S/f.bin"
  = Some "/srv/S/bak/raw/S/f.bin" /\
  str_exists recon_fs "/srv/S/bak/raw/S/f.bin" = true /\
  item_at recon_heap 2 !! "path" = Some (VStr "/raw/S/bak/raw/S/f.bin") /\
  annotate_server_paths recon_fs "/raw/S" "/srv/S" [0; 1; 2; 3] recon_heap = Done recon_heap' /\
  item_at recon_heap' 2 !! "server_path" = Some (VStr "").
Proof. split_and!; vm_compute; reflexivity. Qed.





(** C6, as the code has it.  The loop works on the records themselves: it
    gives every listed record a ["server_path"], changes no other key of any
    record and no object outside the list, and makes no new object.  The
    file system is only asked whether paths exist. *)
Theorem annotation_in_place (f : gmap (list string) node) (sd srv : string)
    (l : list nat) (h h' : gmap nat (gmap string pyval)) :
  annotate_server_paths f sd srv l h = Done h' ->
  (forall a, a ∈ l -> exists p,
     item_at h a !! "path" = Some (VStr p) /\
     h' !! a = Some (<["server_path" := VStr (server_path_for f sd srv p)]> (item_at h a))) /\
  (forall a k, k <> "server_path" -> item_at h' a !! k = item_at h a !! k) /\
  (forall a, a ∉ l -> h' !! a = h !! a) /\
  (forall a, is_Some (h' !! a) <-> is_Some (h !! a)).
Proof.
  intros Hrun.
  destruct (annotate_server_paths_inv _ _ _ _ _ _ Hrun) as (Hall & Hout & Hkeep & Hin).
  rewrite Forall_forall in Hall. split_and!; [|done|done|].
  - intros a Ha. destruct (Hall a Ha) as (p & Hp). exists p. split; [done|]. by apply Hin.
  - intros a. destruct (decide (a ∈ l)) as [Ha|Ha]; [|by rewrite Hout].
    pose proof (has_path_allocated h a (Hall a Ha)) as Hsome.
    destruct (Hall a Ha) as (p & Hp). rewrite (Hin a p Ha Hp). split; [done|by eexists].
Qed.

Lemma annotation_in_place_witness :
  item_at recon_heap' 0 !! "server_path" = Some (VStr "/srv/S/f.bin") /\
  item_at recon_heap' 0 !! "size" = Some (VInt 1) /\
  recon_heap' !! 7 = None.
Proof.
  destruct (annotation_in_place recon_fs "/raw/S" "/srv/S" [0; 1; 2; 3] recon_heap recon_heap')
    as (Hin & Hkeep & Hout & _); [vm_compute; reflexivity|].
  split_and!.
  - destruct (Hin 0) as (p & Hp & H0); [repeat constructor|].
    rewrite (item_at_Some _ _ _ H0), lookup_insert_eq.
    vm_compute in Hp. injection Hp as <-. reflexivity.
  - rewrite Hkeep by done. reflexivity.
  - rewrite Hout; [reflexivity|].
    repeat (apply not_elem_of_cons; split; [done|]). apply not_elem_of_nil.
Defined.

(** The record at address [0] is not the same after the loop: the input
    record was changed where it lies. *)
Lemma input_record_is_mutated :
  annotate_server_paths recon_fs "/raw/S" "/srv/S" [0; 1; 2; 3] recon_heap = Done recon_heap' /\
  0 ∈ [0; 1; 2; 3] /\
  item_at recon_heap 0 !! "server_path" = None /\
  item_at recon_heap' 0 !! "server_path" = Some (VStr "/srv/S/f.bin") /\
  recon_heap' !! 0 <> recon_heap !! 0.
Proof.
  split_and!; try (vm_compute; reflexivity); [repeat constructor|].
  intros Heq. assert (item_at recon_heap' 0 !! "server_path" = item_at recon_heap 0 !! "server_path") as H.
  { unfold item_at. by rewrite Heq. }
  vm_compute in H. discriminate.
Qed.

(** * More about the mirror (services/server_sync.py) *)

(** ** The file system stays a tree *)

Lemma is_dir_insert_keep (f : gmap (list string) node) (p q : path) (n : node) :
  is_dir f q = true ->
  (forall names, f !! p = Some (Dir names) -> exists names', n = Dir names') ->
  is_dir (<[p := n]> f) q = true.
Proof.
  unfold is_dir. intros Hq Hn. destruct (decide (p = q)) as [->|Hne].
  - rewrite lookup_insert_eq. destruct (f !! q) as [[c|names]|]; [done| |done].
    by destruct (Hn names eq_refl) as [names' ->].
  - by rewrite lookup_insert_ne.
Qed.

Lemma wf_fs_insert (f : gmap (list string) node) (p : path) (n : node) :
  wf_fs f -> is_dir f (dirname p) = true ->
  (forall names, f !! p = Some (Dir names) -> exists names', n = Dir names') ->
  wf_fs (<[p := n]> f).
Proof.
  intros [Hroot Hall] Hpar Hn. split; [by apply is_dir_insert_keep|].
  intros q m Hq. apply is_dir_insert_keep; [|done].
  destruct (decide (p = q)) as [->|Hne]; [done|].
  rewrite lookup_insert_ne in Hq by done. by apply (Hall q m).
Qed.

Lemma wf_fs_alter (f : gmap (list string) node) (p : path) (w : list Byte.byte) :
  wf_fs f -> wf_fs (alter (append_bytes w) p f).
Proof.
  intros Hwf. destruct (f !! p) as [n|] eqn:Hp.
  - replace (alter (append_bytes w) p f) with (<[p := append_bytes w n]> f).
    + apply wf_fs_insert; [done| |].
      * destruct Hwf as [_ Hall]. by apply (Hall p n).
      * intros names Hd. rewrite Hp in Hd. injection Hd as ->. by exists names.
    + apply map_eq. intros q. destruct (decide (p = q)) as [->|Hne].
      * by rewrite lookup_insert_eq, lookup_alter_eq, Hp.
      * by rewrite lookup_insert_ne, lookup_alter_ne.
  - replace (alter (append_bytes w) p f) with f; [done|].
    apply map_eq. intros q. destruct (decide (p = q)) as [->|Hne].
    + by rewrite lookup_alter_eq, Hp.
    + by rewrite lookup_alter_ne.
Qed.

Lemma wf_fs_add_entry (f : gmap (list string) node) (parent : path) (name : string)
    (names : list string) (n : node) :
  wf_fs f -> f !! parent = Some (Dir names) ->
  (forall names', f !! (parent ++ [name]) = Some (Dir names') -> exists names'', n = Dir names'') ->
  wf_fs (<[parent ++ [name] := n]> (<[parent := Dir (names ++ [name])]> f)).
Proof.
  intros Hwf Hpar Hn.
  assert (parent <> parent ++ [name]) as Hne.
  { intros Heq. apply (f_equal length) in Heq. rewrite length_app in Heq. simpl in Heq. lia. }
  apply wf_fs_insert.
  - apply wf_fs_insert; [done| |by eauto].
    destruct Hwf as [_ Hall]. by apply (Hall parent (Dir names)).
  - rewrite dirname_snoc. unfold is_dir. by rewrite lookup_insert_eq.
  - intros names'. rewrite lookup_insert_ne by done. apply Hn.
Qed.

Lemma mkdir_wf p st st' : wf_fs (st_fs st) -> mkdir p st = Ok tt st' -> wf_fs (st_fs st').
Proof.
  intros Hwf. unfold mkdir. destruct (path_exists (st_fs st) p) eqn:Hex; [done|].
  destruct (unsnoc p) as [[parent name]|] eqn:Hu; [|done].
  apply unsnoc_Some in Hu as ->.
  destruct (st_fs st !! parent) as [[c|names]|] eqn:Hpar; [done| |done].
  intros [= <-]. cbn [st_fs]. apply wf_fs_add_entry; [done..|].
  intros names' Hd. unfold path_exists in Hex. by rewrite Hd in Hex.
Qed.

Lemma makedirs_rev_wf rp st :
  wf_fs (st_fs st) ->
  match makedirs_rev rp st with
  | Ok _ st' | Raise _ st' => wf_fs (st_fs st')
  | Diverge => True
  end.
Proof.
  revert st. induction rp as [|x rparent IH]; intros st Hwf.
  - simpl. destruct (mkdir [] st) as [[] st'|e st'|] eqn:Hm; [| |done].
    { by eapply mkdir_wf. }
    apply mkdir_Raise in Hm as ->. by destruct (is_dir (st_fs st) []).
  - cbn [makedirs_rev]. unfold bind.
    assert (forall st1, wf_fs (st_fs st1) ->
              match
                match mkdir (rev (x :: rparent)) st1 with
                | Raise e st' =>
                    if is_dir (st_fs st') (rev (x :: rparent)) then Ok tt st' else Raise e st'
                | r => r
                end
              with
              | Ok _ st' | Raise _ st' => wf_fs (st_fs st')
              | Diverge => True
              end) as Hmk.
    { intros st1 Hwf1. destruct (mkdir (rev (x :: rparent)) st1) as [[] st'|e st'|] eqn:Hm;
        [by eapply mkdir_wf| |done].
      apply mkdir_Raise in Hm as ->. by destruct (is_dir (st_fs st1) _). }
    destruct (path_exists (st_fs st) (rev rparent)); [by apply Hmk|].
    specialize (IH st Hwf).
    destruct (makedirs_rev rparent st) as [[] st1|e st1|]; [by apply Hmk| |done].
    destruct e; try done. by apply Hmk.
Qed.

Lemma makedirs_wf p st :
  wf_fs (st_fs st) ->
  match makedirs p st with
  | Ok _ st' | Raise _ st' => wf_fs (st_fs st')
  | Diverge => True
  end.
Proof. apply makedirs_rev_wf. Qed.

(** In a tree, what lies on the way to an entry is a directory. *)
Lemma wf_prefix_is_dir (f : gmap (list string) node) (q r : path) :
  wf_fs f -> path_exists f (q ++ r) = true -> r <> [] -> is_dir f q = true.
Proof.
  intros Hwf. induction r as [|x r IH] using rev_ind; [done|]. intros Hex _.
  rewrite app_assoc in Hex. pose proof (wf_parent _ _ Hwf Hex) as Hd.
  rewrite dirname_snoc in Hd. destruct r as [|y r].
  - by rewrite app_nil_r in Hd.
  - apply IH; [by apply is_dir_exists|done].
Qed.

Lemma wf_all_prefixes (f : gmap (list string) node) (p q : path) :
  wf_fs f -> is_dir f p = true -> q `prefix_of` p -> is_dir f q = true.
Proof.
  intros Hwf Hp [r ->]. destruct r as [|x r].
  - by rewrite app_nil_r in Hp.
  - eapply wf_prefix_is_dir; [done|by apply is_dir_exists|done].
Qed.

(** ** [_ensure_dir] *)

(** X1.  When [_ensure_dir(p)] returns, [p] and everything on the way to it is a
    directory; no file was made or changed, entries off the way are as they
    were, nothing is logged, and a second call changes nothing at all. *)
Theorem ensure_dir_makes (p : path) (st st' : state) :
  wf_fs (st_fs st) ->
  _ensure_dir p st = Ok tt st' ->
  (forall q, q `prefix_of` p -> is_dir (st_fs st') q = true) /\
  (forall q c, st_fs st !! q = Some (File c) <-> st_fs st' !! q = Some (File c)) /\
  (forall q, ~ q `prefix_of` p -> st_fs st' !! q = st_fs st !! q) /\
  (forall q, is_dir (st_fs st) q = true -> is_dir (st_fs st') q = true) /\
  st_log st' = st_log st /\
  wf_fs (st_fs st') /\
  _ensure_dir p st' = Ok tt st'.
Proof.
  intros Hwf Hrun. unfold _ensure_dir in *.
  pose proof (makedirs_spec p st) as H. pose proof (makedirs_wf p st Hwf) as Hwf'.
  rewrite Hrun in H, Hwf'. destruct H as ([Hlog _] & (A & B & C) & Hmade).
  split_and!; [|done..|by apply makedirs_made].
  intros q Hq. eapply wf_all_prefixes; [done| |done]. by destruct Hmade.
Qed.

Lemma ensure_dir_makes_witness :
  is_dir (st_fs (state_of (_ensure_dir ["srv"; "Proj"; "A"] demo_state) demo_state))
    ["srv"; "Proj"] = true.
Proof.
  destruct (ensure_dir_makes ["srv"; "Proj"; "A"] demo_state
              (state_of (_ensure_dir ["srv"; "Proj"; "A"] demo_state) demo_state))
    as (H & _).
  - apply wf_fsb_true. vm_compute. reflexivity.
  - vm_compute. reflexivity.
  - apply H. by exists ["A"].
Defined.

(** Nothing lies below a file. *)
Lemma wf_below_file (f : gmap (list string) node) (q r : path) c :
  wf_fs f -> f !! q = Some (File c) -> r <> [] -> path_exists f (q ++ r) = false.
Proof.
  intros Hwf Hq Hr. destruct (path_exists f (q ++ r)) eqn:Hex; [|done].
  pose proof (wf_prefix_is_dir f q r Hwf Hex Hr) as Hd. unfold is_dir in Hd.
  by rewrite Hq in Hd.
Qed.

Lemma makedirs_rev_blocked (q r : path) c st :
  wf_fs (st_fs st) -> st_fs st !! q = Some (File c) ->
  makedirs_rev (rev (q ++ r)) st
  = Raise (match r with [] => FileExistsError | _ => NotADirectoryError end) st.
Proof.
  intros Hwf Hq. induction r as [|x r IH] using rev_ind.
  - rewrite app_nil_r.
    assert (mkdir q st = Raise FileExistsError st) as Hm.
    { unfold mkdir, path_exists. by rewrite Hq. }
    assert (is_dir (st_fs st) q = false) as Hd by (unfold is_dir; by rewrite Hq).
    destruct (unsnoc q) as [[parent y]|] eqn:Hu.
    + apply unsnoc_Some in Hu as ->. rewrite rev_unit. cbn [makedirs_rev]. unfold bind.
      rewrite rev_involutive.
      assert (path_exists (st_fs st) parent = true) as ->.
      { apply is_dir_exists. rewrite <- (dirname_snoc parent y). apply wf_parent; [done|].
        unfold path_exists. by rewrite Hq. }
      replace (rev (y :: rev parent)) with (parent ++ [y])
        by (simpl; by rewrite rev_involutive).
      by rewrite Hm, Hd.
    + apply unsnoc_None in Hu as ->. simpl. simpl in Hm. by rewrite Hm, Hd.
  - rewrite app_assoc, rev_unit. cbn [makedirs_rev]. unfold bind.
    rewrite rev_involutive.
    replace (rev (x :: rev (q ++ r))) with ((q ++ r) ++ [x])
      by (simpl; by rewrite rev_involutive).
    assert (mkdir ((q ++ r) ++ [x]) st = Raise NotADirectoryError st \/
            r <> [] /\ mkdir ((q ++ r) ++ [x]) st = Raise FileNotFoundError st) as Hm.
    { unfold mkdir. rewrite <- app_assoc.
      rewrite (wf_below_file _ q (r ++ [x]) c Hwf Hq) by (by destruct r).
      rewrite app_assoc, unsnoc_snoc. destruct r as [|y r].
      - left. by rewrite app_nil_r, Hq.
      - right. split; [done|].
        pose proof (wf_below_file _ q (y :: r) c Hwf Hq ltac:(done)) as Hex.
        unfold path_exists in Hex. by destruct (st_fs st !! (q ++ y :: r)). }
    assert (is_dir (st_fs st) ((q ++ r) ++ [x]) = false) as Hd.
    { destruct (is_dir (st_fs st) ((q ++ r) ++ [x])) eqn:Hd; [|done].
      apply is_dir_exists in Hd. rewrite <- app_assoc in Hd.
      rewrite (wf_below_file _ q (r ++ [x]) c Hwf Hq) in Hd by (by destruct r). done. }
    destruct r as [|y r].
    + rewrite app_nil_r in *.
      assert (path_exists (st_fs st) q = true) as -> by (unfold path_exists; by rewrite Hq).
      destruct Hm as [Hm|[? _]]; [|done]. by rewrite Hm, Hd.
    + rewrite (wf_below_file _ q (y :: r) c Hwf Hq) by done.
      by rewrite IH.
Qed.

(** X2.  A file in the way stops [_ensure_dir]: [FileExistsError] when the path
    itself is a file, [NotADirectoryError] when a file lies on the way to
    it; nothing is changed. *)
Theorem ensure_dir_blocked (q r : path) (c : list Byte.byte) (st : state) :
  wf_fs (st_fs st) ->
  st_fs st !! q = Some (File c) ->
  _ensure_dir (q ++ r) st
  = Raise (match r with [] => FileExistsError | _ => NotADirectoryError end) st.
Proof.
  intros Hwf Hq. unfold _ensure_dir, makedirs. by apply (makedirs_rev_blocked q r c).
Qed.

Lemma ensure_dir_blocked_witness :
  _ensure_dir ["raw"; "Proj"; "a.bin"; "x"; "y"] demo_state = Raise NotADirectoryError demo_state /\
  _ensure_dir ["raw"; "Proj"; "a.bin"] demo_state = Raise FileExistsError demo_state.
Proof.
  split.
  - apply (ensure_dir_blocked ["raw"; "Proj"; "a.bin"] ["x"; "y"] [Byte.x01; Byte.x02]).
    + apply wf_fsb_true. vm_compute. reflexivity.
    + reflexivity.
  - rewrite <- (app_nil_r ["raw"; "Proj"; "a.bin"]).
    apply (ensure_dir_blocked ["raw"; "Proj"; "a.bin"] [] [Byte.x01; Byte.x02]).
    + apply wf_fsb_true. vm_compute. reflexivity.
    + reflexivity.
Defined.

(** ** [copy_with_progress] *)

(** The copy once the directory is made, a copy is needed and the source is
    a file. *)
Lemma copy_with_progress_trace (E : env) (src dst : path) (st st1 : state)
    (c : list Byte.byte) :
  makedirs (dirname dst) st = Ok tt st1 ->
  _needs_copy E (st_fs st1) src dst = true ->
  st_fs st1 !! src = Some (File c) ->
  copy_with_progress E src dst st =
    if open_read_fails E src
    then Raise OSError (State (st_fs st1) (st_log st1) (S (st_clock st1)))
    else
      match open_wb E dst (State (st_fs st1) (st_log st1) (S (st_clock st1))) with
      | Ok _ st3 =>
          match copy_chunks E src dst (N.of_nat (length c)) (time_at E (st_clock st1))
                  (chunks COPY_CHUNK_BYTES c) 0%N st3 with
          | Ok copied st4 =>
              Ok (true, rate copied (time_at E (st_clock st4) - time_at E (st_clock st1)))
                 (State (st_fs st4) (st_log st4) (S (st_clock st4)))
          | Raise e st4 => Raise e st4
          | Diverge => Diverge
          end
      | Raise e st3 => Raise e st3
      | Diverge => Diverge
      end.
Proof.
  intros Hmk Hnc Hsrc.
  unfold copy_with_progress, _ensure_dir, bind, get_fs, getsize_or_raise.
  rewrite Hmk, Hnc. cbn [negb]. unfold getsize. rewrite Hsrc.
  unfold time_time at 1. unfold open_rb. cbn [st_fs]. rewrite Hsrc.
  destruct (open_read_fails E src); [done|].
  destruct (open_wb E dst _) as [[] st3|e st3|]; [|done..].
  rewrite copy_loop_chunks by lia.
  destruct (copy_chunks E src dst _ _ _ _ st3) as [copied st4|e st4|]; [|done..].
  unfold try_except, copystat, time_time, ret.
  by destruct (copystat_fails E src dst).
Qed.

Lemma copy_chunks_Ok (E : env) (src dst : path) (total : N) (start : Q)
    (cs : list (list Byte.byte)) (copied : N) (st : state) (n : N) (st' : state) :
  copy_chunks E src dst total start cs copied st = Ok n st' ->
  n = (copied + N.of_nat (length (concat cs)))%N /\
  st_fs st' = alter (append_bytes (concat cs)) dst (st_fs st) /\
  st_log st' = st_log st ++ progress_lines E src total start (st_clock st) copied cs /\
  st_clock st' = st_clock st + length cs.
Proof.
  revert copied st. induction cs as [|c cs IH]; intros copied st; cbn [copy_chunks].
  - destruct (read_fails E src copied); [done|]. intros [= <- <-].
    split_and!; [simpl; lia| |by rewrite app_nil_r|simpl; lia].
    symmetry. apply alter_id. intros x _. destruct x; simpl; [|done]. by rewrite app_nil_r.
  - destruct (read_fails E src copied); [done|].
    unfold bind, write. destruct (write_fails E dst copied); [done|].
    unfold time_time, log. cbn [st_fs st_log st_clock]. intros Hrun.
    apply IH in Hrun as (-> & Hfs & Hlog & Hclock). cbn [st_fs st_log st_clock] in *.
    split_and!.
    + rewrite concat_cons, length_app. lia.
    + rewrite Hfs, concat_cons. apply alter_append_app.
    + rewrite Hlog, <- app_assoc. done.
    + rewrite Hclock. simpl. lia.
Qed.

Lemma copy_chunks_Raise (E : env) (src dst : path) (total : N) (start : Q)
    (cs : list (list Byte.byte)) (copied : N) (st : state) (e : exn) (st' : state) :
  copy_chunks E src dst total start cs copied st = Raise e st' ->
  e = OSError /\
  exists k, st_fs st' = alter (append_bytes (concat (take k cs))) dst (st_fs st).
Proof.
  assert (forall f : gmap (list string) node, f = alter (append_bytes []) dst f) as Hid.
  { intros f. symmetry. apply alter_id. intros x _. destruct x; simpl; [|done].
    by rewrite app_nil_r. }
  revert copied st. induction cs as [|c cs IH]; intros copied st; cbn [copy_chunks].
  - destruct (read_fails E src copied); [|done]. intros [= <- <-].
    split; [done|]. exists 0. apply Hid.
  - destruct (read_fails E src copied).
    { intros [= <- <-]. split; [done|]. exists 0. apply Hid. }
    unfold bind, write. destruct (write_fails E dst copied).
    { intros [= <- <-]. split; [done|]. exists 0. apply Hid. }
    unfold time_time, log. cbn [st_fs st_log st_clock]. intros Hrun.
    apply IH in Hrun as (-> & k & Hfs). cbn [st_fs] in Hfs.
    split; [done|]. exists (S k). rewrite Hfs. cbn [take]. rewrite concat_cons.
    apply alter_append_app.
Qed.

Lemma length_progress_lines E src total start clock copied cs :
  length (progress_lines E src total start clock copied cs) = length cs.
Proof.
  revert clock copied. induction cs as [|c cs IH]; intros clock copied; simpl; [done|].
  by rewrite IH.
Qed.

(** The last progress line reports all the bytes of the chunks. *)
Lemma last_progress_lines E src total start clock copied cs :
  cs <> [] ->
  last (progress_lines E src total start clock copied cs)
  = Some (progress_line E src (copied + N.of_nat (length (concat cs))) total
            (rate (copied + N.of_nat (length (concat cs)))
               (time_at E (clock + length cs - 1) - start))).
Proof.
  revert clock copied. induction cs as [|c cs IH]; intros clock copied Hne; [done|].
  destruct cs as [|c' cs].
  - replace (clock + length [c] - 1) with clock by (simpl; lia).
    simpl. by rewrite app_nil_r.
  - cbn [progress_lines] in *. rewrite last_cons.
    rewrite (IH (S clock) (copied + N.of_nat (length c))%N) by done.
    rewrite (concat_cons c), length_app.
    replace (S clock + length (c' :: cs) - 1) with (clock + length (c :: c' :: cs) - 1)
      by (simpl; lia).
    replace (copied + N.of_nat (length c) + N.of_nat (length (concat (c' :: cs))))%N
      with (copied + N.of_nat (length c + length (concat (c' :: cs))))%N by lia.
    done.
Qed.

Lemma needs_copy_not_same (E : env) (f : gmap (list string) node) (p : path) (c : list Byte.byte) :
  f !! p = Some (File c) -> _needs_copy E f p p = false.
Proof. intros Hp. by apply (needs_copy_same_file E f p p c). Qed.

Lemma makedirs_dst (dst : path) (st st1 : state) (e : exn) :
  dst <> [] ->
  makedirs (dirname dst) st = Ok tt st1 \/ makedirs (dirname dst) st = Raise e st1 ->
  st_fs st1 !! dst = st_fs st !! dst.
Proof.
  intros Hne Hmk. pose proof (makedirs_spec (dirname dst) st) as H.
  destruct Hmk as [Hmk|Hmk]; rewrite Hmk in H.
  - destruct H as (_ & (A & _) & _). apply A. by apply not_prefix_dirname.
  - destruct H as (_ & (A & _)). apply A. by apply not_prefix_dirname.
Qed.

(** All there is to say about a copy that was performed. *)
Lemma copy_performed_all (E : env) (src dst : path) (st st' : state) (bps : Q) :
  copy_with_progress E src dst st = Ok (true, bps) st' ->
  exists c,
    st_fs st !! src = Some (File c) /\ src <> dst /\
    st_fs st' !! src = Some (File c) /\
    st_fs st' !! dst = Some (File c) /\
    (forall q c', q <> dst -> st_fs st !! q = Some (File c') <-> st_fs st' !! q = Some (File c')) /\
    (forall q, path_exists (st_fs st) q = true -> path_exists (st_fs st') q = true) /\
    st_log st' = st_log st ++
      progress_lines E src (N.of_nat (length c)) (time_at E (st_clock st))
        (S (st_clock st)) 0 (chunks COPY_CHUNK_BYTES c) /\
    st_clock st' = st_clock st + 2 + length (chunks COPY_CHUNK_BYTES c) /\
    bps = rate (N.of_nat (length c))
            (time_at E (st_clock st + 1 + length (chunks COPY_CHUNK_BYTES c))
             - time_at E (st_clock st)).
Proof.
  intros Hrun. pose proof (copy_with_progress_spec E src dst st) as H.
  rewrite Hrun in H. destruct H as (st1 & Hmk & Hnc & c & Hsrc1 & Hdst' & Hw & _).
  pose proof (makedirs_spec (dirname dst) st) as Hg. rewrite Hmk in Hg.
  destruct Hg as ([Hlog1 Hclock1] & (A & B & C) & _).
  assert (src <> dst) as Hne.
  { intros ->. by rewrite (needs_copy_not_same E _ dst c) in Hnc. }
  exists c. rewrite (copy_with_progress_trace E src dst st st1 c Hmk Hnc Hsrc1) in Hrun.
  destruct (open_read_fails E src); [done|].
  destruct (open_wb E dst _) as [[] st3|e st3|] eqn:Hwb; [|done..].
  apply open_wb_Ok in Hwb as ([Hl3 Hc3] & _ & _). cbn [st_log st_clock] in *.
  destruct (copy_chunks E src dst _ _ _ _ st3) as [copied st4|e st4|] eqn:Hcs; [|done..].
  apply copy_chunks_Ok in Hcs as (-> & _ & Hlog4 & Hclock4).
  injection Hrun as <- <-. cbn [st_fs st_log st_clock] in *.
  rewrite (concat_chunks _ _ COPY_CHUNK_BYTES_pos) in *.
  destruct Hw as (Wa & Wb & Wc & Wd).
  split_and!.
  - by apply B.
  - done.
  - apply Wb; [done|exact Hsrc1].
  - done.
  - intros q c' Hq. rewrite B. by apply Wb.
  - intros q Hq. apply Wd. eapply grows_to_exists; [|exact Hq]. by split_and!.
  - by rewrite Hlog4, Hl3, Hlog1, Hc3, Hclock1.
  - rewrite Hclock4, Hc3, Hclock1. lia.
  - rewrite Hclock4, Hc3, Hclock1. repeat f_equal; lia.
Qed.

(** X3.  A copy that returns [True] has replaced the destination by the source:
    the source is a file, other than the destination, and still there; the
    destination holds its bytes and nothing else, whatever it held before;
    no other file is made or changed and nothing is removed. *)
Theorem copy_performed (E : env) (src dst : path) (st st' : state) (bps : Q) :
  copy_with_progress E src dst st = Ok (true, bps) st' ->
  exists c,
    st_fs st !! src = Some (File c) /\ src <> dst /\
    st_fs st' !! src = Some (File c) /\
    st_fs st' !! dst = Some (File c) /\
    (forall q c', q <> dst -> st_fs st !! q = Some (File c') <-> st_fs st' !! q = Some (File c')) /\
    (forall q, path_exists (st_fs st) q = true -> path_exists (st_fs st') q = true).
Proof.
  intros Hrun. destruct (copy_performed_all E src dst st st' bps Hrun)
    as (c & H1 & H2 & H3 & H4 & H5 & H6 & _).
  exists c. by split_and!.
Qed.

Lemma copy_performed_witness :
  st_fs (final_state (copy_with_progress quiet_env ["raw"; "Proj"; "a.bin"]
                        ["srv"; "Proj"; "a.bin"] demo_state) demo_state)
    !! ["srv"; "Proj"; "a.bin"] = Some (File [Byte.x01; Byte.x02]).
Proof.
  destruct (copy_performed quiet_env ["raw"; "Proj"; "a.bin"] ["srv"; "Proj"; "a.bin"]
              demo_state
              (final_state (copy_with_progress quiet_env ["raw"; "Proj"; "a.bin"]
                              ["srv"; "Proj"; "a.bin"] demo_state) demo_state) (2 # 2))
    as (c & Hsrc & _ & _ & Hdst & _).
  - vm_compute. reflexivity.
  - vm_compute in Hsrc. injection Hsrc as <-. exact Hdst.
Defined.

(** X4.  The progress of a copy that returns [True]: the clock is read once
    before the loop, once for each chunk and once at the end; the log gets
    one line for each chunk, with the bytes copied so far, the last line
    reporting all the bytes of the source; the rate returned is the bytes
    of the source over the time from the first to the last reading. *)
Theorem copy_reports_progress (E : env) (src dst : path) (st st' : state) (bps : Q)
    (c : list Byte.byte) :
  copy_with_progress E src dst st = Ok (true, bps) st' ->
  st_fs st !! src = Some (File c) ->
  let total := N.of_nat (length c) in
  let lines := progress_lines E src total (time_at E (st_clock st)) (S (st_clock st)) 0
                 (chunks COPY_CHUNK_BYTES c) in
  st_log st' = st_log st ++ lines /\
  length lines = length (chunks COPY_CHUNK_BYTES c) /\
  (c <> [] ->
   last lines = Some (progress_line E src total total
                        (rate total (time_at E (st_clock st + length (chunks COPY_CHUNK_BYTES c))
                                     - time_at E (st_clock st))))) /\
  (c = [] -> lines = []) /\
  st_clock st' = st_clock st + 2 + length (chunks COPY_CHUNK_BYTES c) /\
  bps = rate total (time_at E (st_clock st + 1 + length (chunks COPY_CHUNK_BYTES c))
                    - time_at E (st_clock st)).
Proof.
  intros Hrun Hsrc total lines. destruct (copy_performed_all E src dst st st' bps Hrun)
    as (c' & Hsrc' & _ & _ & _ & _ & _ & Hlog & Hclock & Hbps).
  rewrite Hsrc in Hsrc'. injection Hsrc' as <-. subst total lines.
  split_and!; [done|apply length_progress_lines| | |done|done].
  - intros Hne. rewrite last_progress_lines.
    + rewrite (concat_chunks _ _ COPY_CHUNK_BYTES_pos), N.add_0_l.
      replace (S (st_clock st) + length (chunks COPY_CHUNK_BYTES c) - 1)
        with (st_clock st + length (chunks COPY_CHUNK_BYTES c)) by lia.
      done.
    + intros Hnil. apply Hne. by rewrite <- (concat_chunks COPY_CHUNK_BYTES c), Hnil.
  - intros ->. by rewrite chunks_nil.
Qed.

Lemma copy_reports_progress_witness :
  st_log (final_state (copy_with_progress quiet_env ["raw"; "Proj"; "a.bin"]
                         ["srv"; "Proj"; "a.bin"] demo_state) demo_state)
  = ["Copying a.bin: 2/2 bytes (0.00 MB/s)"].
Proof.
  destruct (copy_reports_progress quiet_env ["raw"; "Proj"; "a.bin"] ["srv"; "Proj"; "a.bin"]
              demo_state
              (final_state (copy_with_progress quiet_env ["raw"; "Proj"; "a.bin"]
                              ["srv"; "Proj"; "a.bin"] demo_state) demo_state) (2 # 2)
              [Byte.x01; Byte.x02]) as (Hlog & _).
  - vm_compute. reflexivity.
  - reflexivity.
  - rewrite Hlog. vm_compute. reflexivity.
Defined.

(** X5.  A source that is not there: once the directory of the destination is
    made, the copy raises [FileNotFoundError]; the destination is neither
    made nor changed. *)
Theorem copy_missing_source (E : env) (src dst : path) (st st1 : state) :
  st_fs st !! src = None ->
  ~ src `prefix_of` dirname dst ->
  dst <> [] ->
  _ensure_dir (dirname dst) st = Ok tt st1 ->
  copy_with_progress E src dst st = Raise FileNotFoundError st1 /\
  st_fs st1 !! dst = st_fs st !! dst /\
  st_fs st1 !! src = None.
Proof.
  intros Hsrc Hpre Hne Hmk. unfold _ensure_dir in Hmk.
  pose proof (makedirs_spec (dirname dst) st) as Hg. rewrite Hmk in Hg.
  destruct Hg as (_ & (A & _) & _).
  assert (st_fs st1 !! src = None) as Hsrc1 by (by rewrite A).
  split_and!; [|by apply (makedirs_dst dst st st1 OSError); [|left]|done].
  unfold copy_with_progress, _ensure_dir, bind, get_fs, getsize_or_raise.
  rewrite Hmk. unfold _needs_copy, getsize. rewrite Hsrc1.
  destruct (path_exists (st_fs st1) dst); cbn [negb]; by rewrite Hsrc1.
Qed.

Lemma copy_missing_source_witness :
  copy_with_progress quiet_env ["raw"; "Proj"; "gone"] ["srv"; "Proj"; "gone"] demo_state
  = Raise FileNotFoundError
      (final_state (_ensure_dir ["srv"; "Proj"] demo_state) demo_state) /\
  st_fs (final_state (_ensure_dir ["srv"; "Proj"] demo_state) demo_state)
    !! ["srv"; "Proj"; "gone"] = None.
Proof.
  destruct (copy_missing_source quiet_env ["raw"; "Proj"; "gone"] ["srv"; "Proj"; "gone"]
              demo_state (final_state (_ensure_dir ["srv"; "Proj"] demo_state) demo_state))
    as (Hrun & Hdst & _).
  - reflexivity.
  - intros [k Hk]. vm_compute in Hk. discriminate.
  - discriminate.
  - vm_compute. reflexivity.
  - split; [exact Hrun|]. rewrite Hdst. reflexivity.
Defined.

Lemma rate_0 (dt : Q) : (rate 0 dt == 0)%Q.
Proof. unfold rate. simpl. unfold Qdiv. apply Qmult_0_l. Qed.

(** X6.  An empty source and no destination: a copy that returns has made the
    empty destination and says [(True, 0.0)]; no progress line is logged. *)
Theorem copy_empty_source (E : env) (src dst : path) (st st' : state) (b : bool) (bps : Q) :
  st_fs st !! src = Some (File []) ->
  path_exists (st_fs st) dst = false ->
  dst <> [] ->
  copy_with_progress E src dst st = Ok (b, bps) st' ->
  b = true /\ (bps == 0)%Q /\
  st_fs st' !! dst = Some (File []) /\
  st_log st' = st_log st.
Proof.
  intros Hsrc Hdst Hne Hrun. destruct b.
  - destruct (copy_performed_all E src dst st st' bps Hrun)
      as (c & Hsrc' & _ & _ & Hdst' & _ & _ & Hlog & _ & Hbps).
    rewrite Hsrc in Hsrc'. injection Hsrc' as <-.
    rewrite chunks_nil in Hlog. simpl in Hlog. rewrite app_nil_r in Hlog.
    split_and!; [done| |done..]. rewrite Hbps. apply rate_0.
  - pose proof (copy_with_progress_spec E src dst st) as H. rewrite Hrun in H.
    destruct H as (st1 & Hmk & Hnc & _). apply needs_copy_false in Hnc as (n & Hex & _).
    unfold path_exists in Hex, Hdst.
    rewrite (makedirs_dst dst st st1 OSError Hne) in Hex by (by left).
    by rewrite Hex in Hdst.
Qed.

Lemma copy_empty_source_witness :
  st_fs (final_state (copy_with_progress quiet_env ["raw"; "S"; "e.bin"] ["srv"; "S"; "e.bin"]
                        empty_state) empty_state) !! ["srv"; "S"; "e.bin"] = Some (File []) /\
  st_log (final_state (copy_with_progress quiet_env ["raw"; "S"; "e.bin"] ["srv"; "S"; "e.bin"]
                         empty_state) empty_state) = [].
Proof.
  destruct (copy_empty_source quiet_env ["raw"; "S"; "e.bin"] ["srv"; "S"; "e.bin"]
              empty_state
              (final_state (copy_with_progress quiet_env ["raw"; "S"; "e.bin"]
                              ["srv"; "S"; "e.bin"] empty_state) empty_state)
              true (0 # 1)) as (_ & _ & Hdst & Hlog).
  - reflexivity.
  - reflexivity.
  - discriminate.
  - vm_compute. reflexivity.
  - split; [exact Hdst|exact Hlog].
Defined.

Lemma open_wb_Raise (E : env) (dst : path) (st : state) (e : exn) (st' : state) :
  open_wb E dst st = Raise e st' -> st' = st.
Proof.
  unfold open_wb. destruct (st_fs st !! dst) as [[c|names]|].
  - destruct (open_write_fails E dst); [by intros [= _ <-]|done].
  - by intros [= _ <-].
  - destruct (unsnoc dst) as [[parent name]|]; [|by intros [= _ <-]].
    destruct (st_fs st !! parent) as [[c|names]|]; [by intros [= _ <-]| |by intros [= _ <-]].
    destruct (open_write_fails E dst); [by intros [= _ <-]|done].
Qed.

Lemma concat_take_prefix {A} (k : nat) (cs : list (list A)) :
  concat (take k cs) `prefix_of` concat cs.
Proof.
  exists (concat (drop k cs)). by rewrite <- concat_app, take_drop.
Qed.

(** X7.  A copy that raises leaves the destination as it was, or holding the
    first bytes of the source and nothing else.  In the second case
    [_needs_copy] answers [False] afterwards only if all the bytes are
    there: a copy cut short is taken up again by the next run. *)
Theorem copy_interrupted (E : env) (src dst : path) (st st' : state) (e : exn)
    (c : list Byte.byte) :
  st_fs st !! src = Some (File c) ->
  dst <> [] ->
  copy_with_progress E src dst st = Raise e st' ->
  st_fs st' !! src = Some (File c) /\
  (st_fs st' !! dst = st_fs st !! dst \/
   exists w, w `prefix_of` c /\ st_fs st' !! dst = Some (File w) /\
     (_needs_copy E (st_fs st') src dst = false -> w = c)).
Proof.
  intros Hsrc Hne Hrun. pose proof (makedirs_spec (dirname dst) st) as Hg.
  destruct (makedirs (dirname dst) st) as [[] st1|e1 st1|] eqn:Hmk; [| |done].
  2:{ assert (st' = st1) as ->.
      { unfold copy_with_progress, _ensure_dir, bind in Hrun. rewrite Hmk in Hrun.
        by injection Hrun as _ <-. }
      destruct Hg as (_ & (A & B & _)). split; [by apply B|]. left.
      by apply (makedirs_dst dst st st1 e1); [|right]. }
  destruct Hg as (_ & (A & B & _) & _).
  assert (st_fs st1 !! src = Some (File c)) as Hsrc1 by (by apply B).
  pose proof (makedirs_dst dst st st1 OSError Hne (or_introl Hmk)) as Hdst1.
  destruct (_needs_copy E (st_fs st1) src dst) eqn:Hnc.
  2:{ unfold copy_with_progress, _ensure_dir, bind, get_fs in Hrun.
      rewrite Hmk, Hnc in Hrun. done. }
  assert (src <> dst) as Hsd.
  { intros ->. by rewrite (needs_copy_not_same E _ dst c) in Hnc. }
  rewrite (copy_with_progress_trace E src dst st st1 c Hmk Hnc Hsrc1) in Hrun.
  destruct (open_read_fails E src).
  { injection Hrun as _ <-. cbn [st_fs]. split; [done|by left]. }
  destruct (open_wb E dst _) as [[] st3|e3 st3|] eqn:Hwb; [| |done].
  2:{ apply open_wb_Raise in Hwb as ->. injection Hrun as _ <-. cbn [st_fs].
      split; [done|by left]. }
  apply open_wb_Ok in Hwb as (_ & (_ & Wb & _) & Hdst3). cbn [st_fs] in *.
  assert (st_fs st3 !! src = Some (File c)) as Hsrc3 by (by apply Wb).
  destruct (copy_chunks E src dst _ _ _ _ st3) as [copied st4|e4 st4|] eqn:Hcs; [done| |done].
  injection Hrun as -> ->. apply copy_chunks_Raise in Hcs as (_ & k & Hfs).
  assert (st_fs st' !! src = Some (File c)) as Hsrc'.
  { by rewrite Hfs, lookup_alter_ne. }
  assert (st_fs st' !! dst = Some (File (concat (take k (chunks COPY_CHUNK_BYTES c))))) as Hdst'.
  { by rewrite Hfs, lookup_alter_eq, Hdst3. }
  split; [done|]. right. exists (concat (take k (chunks COPY_CHUNK_BYTES c))).
  assert (concat (take k (chunks COPY_CHUNK_BYTES c)) `prefix_of` c) as Hpre.
  { rewrite <- (concat_chunks COPY_CHUNK_BYTES c COPY_CHUNK_BYTES_pos) at 2.
    apply concat_take_prefix. }
  split_and!; [done..|].
  intros (n & _ & Hn1 & Hn2)%needs_copy_false. unfold getsize in Hn1, Hn2.
  rewrite Hsrc' in Hn1. rewrite Hdst' in Hn2.
  injection Hn1 as <-. injection Hn2 as Hn2.
  apply prefix_length_eq; [done|]. lia.
Qed.

Lemma copy_interrupted_witness :
  st_fs (final_state (copy_with_progress faulty_env ["raw"; "Proj"; "a.bin"]
                        ["srv"; "Proj"; "a.bin"] demo_state) demo_state)
    !! ["raw"; "Proj"; "a.bin"] = Some (File [Byte.x01; Byte.x02]).
Proof.
  destruct (copy_interrupted faulty_env ["raw"; "Proj"; "a.bin"] ["srv"; "Proj"; "a.bin"]
              demo_state
              (final_state (copy_with_progress faulty_env ["raw"; "Proj"; "a.bin"]
                              ["srv"; "Proj"; "a.bin"] demo_state) demo_state)
              OSError [Byte.x01; Byte.x02]) as (Hsrc & _).
  - reflexivity.
  - discriminate.
  - vm_compute. reflexivity.
  - exact Hsrc.
Defined.

(** ** What a run of the mirror leaves alone *)

(** A copy, however it ends, changes nothing off the way to [dst], makes
    and changes no file but [dst], and removes nothing. *)
Lemma copy_with_progress_writes (E : env) (src dst : path) (st : state) :
  match copy_with_progress E src dst st with
  | Ok _ st' | Raise _ st' => writes_at dst (st_fs st) (st_fs st')
  | Diverge => False
  end.
Proof.
  unfold copy_with_progress, _ensure_dir, bind, get_fs, getsize_or_raise.
  pose proof (makedirs_spec (dirname dst) st) as Hmk.
  destruct (makedirs (dirname dst) st) as [[] st1|e st1|]; [| |done].
  2:{ destruct Hmk as (_ & Hg). by apply grows_to_writes_at. }
  destruct Hmk as (_ & Hg & _). apply grows_to_writes_at in Hg.
  destruct (_needs_copy E (st_fs st1) src dst); cbn [negb]; [|done].
  destruct (getsize E (st_fs st1) src) as [total|]; [|done].
  unfold time_time at 1.
  set (st2 := State (st_fs st1) (st_log st1) (S (st_clock st1))).
  destruct (open_rb E src st2) as [rest st2'|e st2'|] eqn:Hrb;
    [| |by apply open_rb_not_Diverge in Hrb].
  2:{ unfold open_rb in Hrb. cbn [st_fs st2] in Hrb.
      destruct (st_fs st1 !! src) as [[c|names]|]; [|by injection Hrb as _ <-..].
      destruct (open_read_fails E src); [by injection Hrb as _ <-|done]. }
  apply open_rb_Ok in Hrb as [-> Hsrc].
  destruct (open_wb E dst st2) as [[] st3|e st3|] eqn:Hwb;
    [| |by apply open_wb_not_Diverge in Hwb].
  2:{ by apply open_wb_Raise in Hwb as ->. }
  apply open_wb_Ok in Hwb as (_ & Hw3 & _). cbn [st_fs st2] in Hw3.
  rewrite copy_loop_chunks by lia.
  pose proof (copy_chunks_spec E src dst total (time_at E (st_clock st1))
                (chunks COPY_CHUNK_BYTES rest) 0%N st3) as Hcs.
  assert (forall w, writes_at dst (st_fs st) (alter (append_bytes w) dst (st_fs st3))) as Hw.
  { intros w. eapply writes_at_trans; [exact Hg|].
    eapply writes_at_trans; [exact Hw3|]. apply writes_at_alter. }
  destruct (copy_chunks E src dst total (time_at E (st_clock st1))
              (chunks COPY_CHUNK_BYTES rest) 0%N st3) as [copied st4|e st4|]; [| |done].
  - destruct Hcs as (_ & Hfs4 & _).
    unfold try_except, copystat, time_time, ret.
    destruct (copystat_fails E src dst); cbn [st_fs]; rewrite Hfs4; apply Hw.
  - destruct Hcs as (_ & (w & Hfs4) & _). rewrite Hfs4. apply Hw.
Qed.

Section Frame.

Variable E : env.
Variables proj srv dstp : path.

Local Abbreviation act := (run_action E proj srv dstp).
Local Abbreviation run := (run_plan E proj srv dstp).
Local Abbreviation tgt := (target dstp).

Lemma run_action_frame (a : action) (st : state) :
  match act a st with
  | Ok _ st' | Raise _ st' =>
      writes_at (tgt a) (st_fs st) (st_fs st') /\
      (forall r, a = EnsureDir r ->
         forall q c, st_fs st !! q = Some (File c) <-> st_fs st' !! q = Some (File c))
  | Diverge => True
  end.
Proof.
  destruct a as [r|r x|]; cbn [run_action target]; [| |done].
  - unfold _ensure_dir. pose proof (makedirs_spec (dstp ++ r) st) as H.
    assert (forall f', grows_to (dstp ++ r) (st_fs st) f' ->
              writes_at (dstp ++ r) (st_fs st) f' /\
              (forall r0, EnsureDir r = EnsureDir r0 ->
                 forall q c, st_fs st !! q = Some (File c) <-> f' !! q = Some (File c))) as Hg.
    { intros f' (A & B & C). split; [|by intros _ _]. split_and!; [done| |done|].
      - intros q c _. apply B.
      - intros q. by eapply grows_to_exists. }
    destruct (makedirs (dstp ++ r) st) as [[] st'|e st'|]; [| |done].
    + destruct H as (_ & H & _). by apply Hg.
    + destruct H as (_ & H). by apply Hg.
  - unfold sync_file, bind. rewrite <- !app_assoc.
    pose proof (copy_with_progress_writes E (proj ++ r ++ [x]) (dstp ++ r ++ [x]) st) as H.
    destruct (copy_with_progress E (proj ++ r ++ [x]) (dstp ++ r ++ [x]) st)
      as [[b bps] st1|e st1|]; [| |done].
    + cbn [fst snd]. destruct b; cbn [negb]; unfold log; cbn [st_fs]; by split.
    + by split.
Qed.

(** Whatever the steps [l] do, and however far they get: nothing is
    removed, directories stay directories, entries that lie on the way to
    no target are as they were, and so are the files that no file step
    writes to. *)
Lemma run_plan_frame (l : list action) (st : state) :
  match run l st with
  | Ok _ st' | Raise _ st' =>
      (forall q, path_exists (st_fs st) q = true -> path_exists (st_fs st') q = true) /\
      (forall q, is_dir (st_fs st) q = true -> is_dir (st_fs st') q = true) /\
      (forall q, (forall a, a ∈ l -> ~ q `prefix_of` tgt a) ->
         st_fs st' !! q = st_fs st !! q) /\
      (forall q c, (forall r x, SyncFile r x ∈ l -> q <> dstp ++ r ++ [x]) ->
         st_fs st !! q = Some (File c) <-> st_fs st' !! q = Some (File c))
  | Diverge => True
  end.
Proof.
  revert st. induction l as [|a l IH]; intros st.
  { simpl. by split_and!. }
  rewrite run_plan_cons. unfold bind.
  pose proof (run_action_frame a st) as Ha.
  assert (forall st1, a <> OutOfFuel ->
            writes_at (tgt a) (st_fs st) (st_fs st1) /\
            (forall r, a = EnsureDir r -> forall q c,
               st_fs st !! q = Some (File c) <-> st_fs st1 !! q = Some (File c)) ->
            (forall q, (forall a0, a0 ∈ a :: l -> ~ q `prefix_of` tgt a0) ->
               st_fs st1 !! q = st_fs st !! q) /\
            (forall q c, (forall r x, SyncFile r x ∈ a :: l -> q <> dstp ++ r ++ [x]) ->
               st_fs st !! q = Some (File c) <-> st_fs st1 !! q = Some (File c))) as Hstep.
  { intros st1 Hoof [(A & B & C & D) Hdir]. split.
    - intros q Hq. apply A. apply Hq. by left.
    - intros q c Hq. destruct a as [r|r x|]; [by apply (Hdir r)| |done].
      apply B. apply (Hq r x). by left. }
  destruct (act a st) as [[] st1|e st1|] eqn:Hact; [| |done].
  - assert (a <> OutOfFuel) as Hoof by (by intros ->).
    destruct (Hstep st1 Hoof Ha) as [S1 S2].
    destruct Ha as [(A & B & C & D) Hdir]. specialize (IH st1).
    destruct (run l st1) as [[] st'|e st'|]; [| |done].
    all: destruct IH as (I1 & I2 & I3 & I4).
    all: split_and!; [by eauto|by eauto| |].
    all: try (intros q Hq; rewrite I3, S1; [done|done|]; intros a0 Ha0; apply Hq; by right).
    all: intros q c Hq; rewrite S2 by done; apply I4; intros r x Hin; apply (Hq r x); by right.
  - assert (a <> OutOfFuel) as Hoof by (by intros ->).
    destruct (Hstep st1 Hoof Ha) as [S1 S2]. destruct Ha as [(A & B & C & D) Hdir].
    by split_and!.
Qed.

End Frame.

Lemma elem_of_plan_files (l : list action) (r : path) (x : string) :
  SyncFile r x ∈ l <-> (r, x) ∈ plan_files l.
Proof.
  unfold plan_files. rewrite list_elem_of_omap. split.
  - intros H. by exists (SyncFile r x).
  - intros (a & Ha & Heq). destruct a as [r'|r' x'|]; [done| |done].
    by injection Heq as -> ->.
Qed.

Lemma target_under (dstp : path) (a : action) (l : list action) :
  OutOfFuel ∉ l -> a ∈ l -> dstp `prefix_of` target dstp a.
Proof.
  intros Hoof Ha. destruct a as [r|r x|]; cbn [target]; [by apply prefix_app_r..|done].
Qed.

Lemma frame_off_branch (dstp : path) (l : list action) (f f' : gmap (list string) node) :
  (forall q, (forall a, a ∈ l -> ~ q `prefix_of` target dstp a) -> f' !! q = f !! q) ->
  forall q, ~ q `prefix_of` dstp -> ~ dstp `prefix_of` q -> f' !! q = f !! q.
Proof.
  intros H q Hq1 Hq2. apply H. intros a _ Hq. destruct a as [r|r x|]; cbn [target] in Hq.
  - destruct (prefix_weak_total q dstp (dstp ++ r)); [done|by apply prefix_app_r|done..].
  - destruct (prefix_weak_total q dstp (dstp ++ r ++ [x])); [done|by apply prefix_app_r|done..].
  - apply Hq1. apply prefix_nil_inv in Hq as ->. apply prefix_nil.
Qed.

(** X8.  A run of the mirror for a project tree and a mirror that are given by
    plain path strings and do not overlap, whether it returns or raises,
    removes nothing and leaves the project tree as it is; what lies neither on the way to the
    destination project directory nor inside it is untouched; and a file
    that is not the mirror place of a file of the walk keeps its bytes: the
    mirror never prunes. *)
Theorem mirror_touches_only_targets (E : env) (fuel : nat) (pd sr : string) (st : state) :
  plain pd = true ->
  plain (dst_project_of pd sr) = true ->
  disjoint_roots (path_of pd) (path_of (dst_project_of pd sr)) ->
  match sync_project_to_server E fuel pd sr st with
  | Ok _ st' | Raise _ st' =>
      (forall q, path_exists (st_fs st) q = true -> path_exists (st_fs st') q = true) /\
      agree_under (path_of pd) (st_fs st) (st_fs st') /\
      (forall q, ~ q `prefix_of` path_of (dst_project_of pd sr) ->
         ~ path_of (dst_project_of pd sr) `prefix_of` q ->
         st_fs st' !! q = st_fs st !! q) /\
      (forall q c,
         (forall r x, (r, x) ∈ walk_files (path_of pd) fuel (st_fs st) ->
            q <> path_of (dst_project_of pd sr) ++ r ++ [x]) ->
         st_fs st !! q = Some (File c) <-> st_fs st' !! q = Some (File c))
  | Diverge => True
  end.
Proof.
  intros _ _ Hd. rewrite sync_plan by done.
  set (proj := path_of pd) in *. set (dstp := path_of (dst_project_of pd sr)) in *.
  set (l := EnsureDir [] :: plan proj fuel (st_fs st) []).
  pose proof (run_plan_frame E proj (path_of sr) dstp l st) as H.
  assert (forall st' : state,
    (forall q, path_exists (st_fs st) q = true -> path_exists (st_fs st') q = true) /\
    (forall q, is_dir (st_fs st) q = true -> is_dir (st_fs st') q = true) /\
    (forall q, (forall a, a ∈ l -> ~ q `prefix_of` target dstp a) ->
       st_fs st' !! q = st_fs st !! q) /\
    (forall q c, (forall r x, SyncFile r x ∈ l -> q <> dstp ++ r ++ [x]) ->
       st_fs st !! q = Some (File c) <-> st_fs st' !! q = Some (File c)) ->
    (forall q, path_exists (st_fs st) q = true -> path_exists (st_fs st') q = true) /\
    agree_under proj (st_fs st) (st_fs st') /\
    (forall q, ~ q `prefix_of` dstp -> ~ dstp `prefix_of` q -> st_fs st' !! q = st_fs st !! q) /\
    (forall q c,
       (forall r x, (r, x) ∈ walk_files proj fuel (st_fs st) -> q <> dstp ++ r ++ [x]) ->
       st_fs st !! q = Some (File c) <-> st_fs st' !! q = Some (File c))) as Hall.
  { intros st' (H1 & H2 & H3 & H4).
    pose proof (frame_off_branch dstp l _ _ H3) as Hoff.
    destruct Hd as [Hd1 Hd2]. split_and!; [done| |done|].
    - intros q Hq. apply Hoff.
      + intros Hp. apply Hd1. by etrans.
      + intros Hp. destruct (prefix_weak_total _ _ _ Hq Hp); done.
    - intros q c Hq. apply H4. intros r x Hin. apply Hq.
      apply elem_of_cons in Hin as [Hin|Hin]; [done|].
      by apply elem_of_plan_files in Hin. }
  destruct (run_plan E proj (path_of sr) dstp l st) as [[] st'|e st'|]; [| |done];
    by apply Hall.
Qed.

Lemma mirror_touches_only_targets_witness :
  st_fs (final_state (sync_project_to_server quiet_env 5 "/raw/Proj/" "/srv" keep_state)
           keep_state) !! ["srv"; "Proj"; "old.bin"] = Some (File [Byte.x09]).
Proof.
  pose proof (mirror_touches_only_targets quiet_env 5 "/raw/Proj/" "/srv" keep_state) as H.
  assert (sync_project_to_server quiet_env 5 "/raw/Proj/" "/srv" keep_state
          = Ok tt (final_state (sync_project_to_server quiet_env 5 "/raw/Proj/" "/srv"
                                  keep_state) keep_state)) as Hrun
    by (vm_compute; reflexivity).
  rewrite Hrun in H. destruct H as (_ & _ & _ & H).
  - reflexivity.
  - reflexivity.
  - split; intros [k Hk]; vm_compute in Hk; discriminate.
  - destruct (H ["srv"; "Proj"; "old.bin"] [Byte.x09]) as [Hkeep _].
    + intros r x Hin Heq. vm_compute in Hin.
      apply elem_of_cons in Hin as [Hin|Hin];
        [injection Hin as -> ->; vm_compute in Heq; discriminate|].
      apply elem_of_cons in Hin as [Hin|Hin];
        [injection Hin as -> ->; vm_compute in Heq; discriminate|].
      apply elem_of_nil in Hin. exact Hin.
    + apply Hkeep. reflexivity.
Defined.

(** ** The run comes to an end *)

Lemma depth_bound (f : gmap (list string) node) (q : path) :
  path_exists f q = true -> length q <= depth f.
Proof.
  unfold path_exists, depth. destruct (f !! q) as [n|] eqn:Hq; [|done]. intros _.
  apply max_list_elem_of_le. apply list_elem_of_fmap. exists (q, n). split; [done|].
  by apply elem_of_map_to_list.
Qed.

Section Fuel.

Variable E : env.
Variables proj srv dstp : path.
Variable f : gmap (list string) node.

(** Where the walk runs out of fuel, a directory lies that deep. *)
Lemma plan_deep (fuel : nat) (r : path) :
  OutOfFuel ∈ plan proj fuel f r ->
  fuel = 0 \/ exists q, path_exists f q = true /\ length proj + length r + fuel <= length q.
Proof.
  revert r. induction fuel as [|fuel IH]; intros r Hin; [by left|]. right.
  cbn [plan] in Hin. unfold scandir in Hin.
  destruct (f !! (proj ++ r)) as [[c|names]|] eqn:Hn;
    [by apply elem_of_nil in Hin| |by apply elem_of_nil in Hin].
  apply elem_of_cons in Hin as [?|Hin]; [done|].
  rewrite !elem_of_app in Hin. destruct Hin as [Hin|[Hin|Hin]].
  - apply list_elem_of_fmap in Hin as (d & ? & _). done.
  - apply list_elem_of_fmap in Hin as (x & ? & _). done.
  - apply elem_of_concat in Hin as (l & Hin & Hl).
    apply list_elem_of_fmap in Hl as (d & -> & Hd).
    apply elem_of_List_filter in Hd as [Hd _].
    apply IH in Hin as [->|(q & Hq & Hlen)].
    + exists ((proj ++ r) ++ [d]). split; [by apply is_dir_exists|].
      rewrite !length_app. simpl. lia.
    + exists q. split; [done|]. rewrite length_app in Hlen. simpl in Hlen. lia.
Qed.

Lemma plan_enough (fuel : nat) (r : path) :
  depth f < fuel -> OutOfFuel ∉ plan proj fuel f r.
Proof.
  intros Hfuel Hin. apply plan_deep in Hin as [->|(q & Hq & Hlen)]; [lia|].
  apply depth_bound in Hq. lia.
Qed.

Lemma plan_S (fuel : nat) (r : path) :
  plan proj (S fuel) f r =
    match scandir f (proj ++ r) with
    | None => []
    | Some (dirs, files) =>
        EnsureDir r :: map (fun d => EnsureDir (r ++ [d])) dirs
          ++ map (SyncFile r) files
          ++ concat (map (fun d => plan proj fuel f (r ++ [d])) dirs)
    end.
Proof. done. Qed.

(** More fuel than needed changes nothing. *)
Lemma plan_stable (fuel : nat) (r : path) :
  OutOfFuel ∉ plan proj fuel f r -> plan proj (S fuel) f r = plan proj fuel f r.
Proof.
  revert r. induction fuel as [|fuel IH]; intros r Hoof.
  { destruct Hoof. by apply list_elem_of_singleton. }
  rewrite plan_S in Hoof. rewrite (plan_S (S fuel)), (plan_S fuel).
  destruct (scandir f (proj ++ r)) as [[dirs files]|]; [|done].
  do 3 f_equal. f_equal. apply map_ext_in. intros d Hd. apply IH.
  intros Hin. apply Hoof. apply list_elem_of_further. rewrite !elem_of_app.
  right. right. apply elem_of_concat. eexists. split; [exact Hin|].
  apply list_elem_of_fmap. exists d. split; [done|]. by apply list_elem_of_In.
Qed.

Lemma plan_stable_from (fuel fuel' : nat) (r : path) :
  depth f < fuel -> fuel <= fuel' -> plan proj fuel' f r = plan proj fuel f r.
Proof.
  intros Hfuel Hle. induction Hle as [|k Hle IH]; [done|].
  rewrite plan_stable; [done|]. apply plan_enough. lia.
Qed.

Lemma run_plan_not_Diverge (l : list action) (st : state) :
  OutOfFuel ∉ l -> run_plan E proj srv dstp l st <> Diverge.
Proof.
  revert st. induction l as [|a l IH]; intros st Hoof; [done|].
  apply not_elem_of_cons in Hoof as [Ha Hl]. rewrite run_plan_cons. unfold bind.
  destruct (run_action E proj srv dstp a st) as [[] st1|e st1|] eqn:Hact; [by apply IH|done|].
  destruct a as [r|r x|]; cbn [run_action] in Hact; [| |done].
  - unfold _ensure_dir in Hact. pose proof (makedirs_spec (dstp ++ r) st) as H.
    by rewrite Hact in H.
  - by apply sync_file_not_Diverge in Hact.
Qed.

End Fuel.

(** X9.  A run of the mirror comes to an end: with more fuel than the file
    system is deep the walk does not run out of it, and what the run does
    no longer depends on the fuel. *)
Theorem mirror_terminates (E : env) (fuel : nat) (pd sr : string) (st : state) :
  disjoint_roots (path_of pd) (path_of (dst_project_of pd sr)) ->
  depth (st_fs st) < fuel ->
  sync_project_to_server E fuel pd sr st <> Diverge /\
  sync_project_to_server E fuel pd sr st
  = sync_project_to_server E (S (depth (st_fs st))) pd sr st.
Proof.
  intros Hd Hfuel. rewrite !sync_plan by done. split.
  - apply run_plan_not_Diverge. apply not_elem_of_cons. split; [done|].
    by apply plan_enough.
  - f_equal. f_equal. apply plan_stable_from; lia.
Qed.

Lemma mirror_terminates_witness :
  sync_project_to_server quiet_env 100 "/raw/Proj/" "/srv" demo_state = Ok tt demo_mirrored.
Proof.
  destruct (mirror_terminates quiet_env 100 "/raw/Proj/" "/srv" demo_state) as [_ ->].
  - split; intros [k Hk]; vm_compute in Hk; discriminate.
  - vm_compute. lia.
  - vm_compute. reflexivity.
Defined.

(** ** Directories are mirrored *)

Lemma plan_has_dir (proj : path) (f : gmap (list string) node) (fuel : nat) (r0 r : path) :
  OutOfFuel ∉ plan proj fuel f r0 ->
  (forall q y, (q ++ [y]) `prefix_of` r ->
     listed f (proj ++ r0 ++ q) y /\ is_dir f (proj ++ r0 ++ q ++ [y]) = true) ->
  is_dir f (proj ++ r0) = true ->
  EnsureDir (r0 ++ r) ∈ plan proj fuel f r0.
Proof.
  revert r0 r. induction fuel as [|fuel IH]; intros r0 r Hfuel Hwalk Hdir.
  { destruct Hfuel. by apply list_elem_of_singleton. }
  cbn [plan] in *. unfold is_dir in Hdir.
  destruct (f !! (proj ++ r0)) as [[c|names]|] eqn:Hn; [done| |done].
  rewrite (scandir_listed _ _ _ Hn) in *.
  destruct r as [|d r'].
  { rewrite app_nil_r. by left. }
  apply list_elem_of_further. rewrite !elem_of_app. right. right.
  destruct (Hwalk [] d) as [(names' & Hl & Hdin) Hd]; [by apply prefix_cons, prefix_nil|].
  rewrite app_nil_r in Hl. rewrite Hn in Hl. injection Hl as <-.
  cbn [app] in Hd. rewrite app_assoc in Hd.
  apply elem_of_concat. exists (plan proj fuel f (r0 ++ [d])). split.
  - replace (r0 ++ d :: r') with ((r0 ++ [d]) ++ r') by (by rewrite <- app_assoc).
    apply IH.
    + intros Hoof. apply Hfuel. apply list_elem_of_further. rewrite !elem_of_app.
      right. right. apply elem_of_concat. eexists. split; [exact Hoof|].
      apply list_elem_of_fmap. exists d. split; [done|]. by apply elem_of_List_filter.
    + intros q y Hq. rewrite <- !app_assoc. cbn [app].
      apply (Hwalk (d :: q) y). cbn [app]. by apply prefix_cons.
    + by rewrite app_assoc.
  - apply list_elem_of_fmap. exists d. split; [done|]. by apply elem_of_List_filter.
Qed.

(** X10.  After a run that returns, for a project tree and a mirror that are
    given by plain path strings and do not overlap, every directory the
    walk reaches has its mirror, a directory, also when it holds no file. *)
Theorem mirror_makes_directories (E : env) (fuel : nat) (pd sr : string) (st st' : state)
    (r : path) :
  plain pd = true ->
  plain (dst_project_of pd sr) = true ->
  disjoint_roots (path_of pd) (path_of (dst_project_of pd sr)) ->
  sync_project_to_server E fuel pd sr st = Ok tt st' ->
  is_dir (st_fs st) (path_of pd) = true ->
  walks_to (st_fs st) (path_of pd) r ->
  is_dir (st_fs st') (path_of (dst_project_of pd sr) ++ r) = true.
Proof.
  intros _ _ Hd Hrun Hproj Hwalk. rewrite sync_plan in Hrun by done.
  pose proof (run_plan_no_OutOfFuel _ _ _ _ _ _ _ Hrun) as Hoof.
  apply not_elem_of_cons in Hoof as [_ Hoof].
  pose proof (run_settles _ _ _ _ Hd _ _ _ Hrun) as Hall.
  rewrite Forall_forall in Hall.
  assert (EnsureDir r ∈ EnsureDir [] :: plan (path_of pd) fuel (st_fs st) []) as Hin.
  { apply list_elem_of_further. apply (plan_has_dir (path_of pd) (st_fs st) fuel [] r).
    - done.
    - intros q y Hq. by apply Hwalk.
    - by rewrite app_nil_r. }
  by destruct (Hall _ Hin).
Qed.

Lemma mirror_makes_directories_witness :
  is_dir (st_fs (state_of (sync_project_to_server quiet_env 5 "/raw/S" "/srv/S" hollow_state)
                   hollow_state)) ["srv"; "S"; "S"; "a"; "b"] = true.
Proof.
  apply (mirror_makes_directories quiet_env 5 "/raw/S" "/srv/S" hollow_state _ ["a"; "b"]).
  - reflexivity.
  - reflexivity.
  - split; intros [k Hk]; vm_compute in Hk; discriminate.
  - vm_compute. reflexivity.
  - reflexivity.
  - intros q y Hq. apply (prefix_snoc_inv (q ++ [y]) ["a"] "b") in Hq as [Heq|Hq].
    + apply (app_inj_tail q ["a"] y "b") in Heq as [-> ->].
      split; [exists ["b"]; split; [reflexivity|repeat constructor]|reflexivity].
    + apply (prefix_snoc_inv (q ++ [y]) [] "a") in Hq as [Heq|Hq].
      * apply (app_inj_tail q [] y "a") in Heq as [-> ->].
        split; [exists ["a"]; split; [reflexivity|repeat constructor]|reflexivity].
      * apply prefix_nil_inv in Hq. by destruct q.
Defined.

(** ** A project directory that is not there *)

(** X11.  When the project directory, a plain path string, is no directory, and
    does not lie on the way to the destination, the mirror makes the destination project directory
    and that is all: no error, no copy, no line in the log. *)
Theorem mirror_of_missing_project (E : env) (fuel : nat) (pd sr : string) (st : state) :
  plain pd = true ->
  plain (dst_project_of pd sr) = true ->
  is_dir (st_fs st) (path_of pd) = false ->
  ~ path_of pd `prefix_of` path_of (dst_project_of pd sr) ->
  sync_project_to_server E (S fuel) pd sr st
  = _ensure_dir (path_of (dst_project_of pd sr)) st.
Proof.
  intros _ _ Hproj Hpre. unfold sync_project_to_server, bind.
  fold (project_name_of pd). fold (dst_project_of pd sr).
  pose proof (makedirs_spec (path_of (dst_project_of pd sr)) st) as H.
  unfold _ensure_dir.
  destruct (makedirs (path_of (dst_project_of pd sr)) st) as [[] st1|e st1|]; [|done..].
  destruct H as (_ & (A & _) & _). cbn [walk]. unfold scandir.
  rewrite (A _ Hpre). unfold is_dir in Hproj.
  by destruct (st_fs st !! path_of pd) as [[c|names]|].
Qed.

Lemma mirror_of_missing_project_witness :
  sync_project_to_server quiet_env 5 "/raw/Gone" "/srv" demo_state
  = Ok tt (final_state (_ensure_dir ["srv"; "Gone"] demo_state) demo_state) /\
  st_log (final_state (_ensure_dir ["srv"; "Gone"] demo_state) demo_state) = [].
Proof.
  rewrite (mirror_of_missing_project quiet_env 4 "/raw/Gone" "/srv" demo_state).
  - split; vm_compute; reflexivity.
  - reflexivity.
  - reflexivity.
  - reflexivity.
  - intros [k Hk]. vm_compute in Hk. discriminate.
Defined.

(** ** Files that are up to date *)

Section Skipped.

Variable E : env.
Variables proj srv dstp : path.
Hypothesis Hdisj : disjoint_roots proj dstp.

Variable f0 : gmap (list string) node.
Variables (r : path) (x : string) (c : list Byte.byte).
Hypothesis Hsrc0 : f0 !! (proj ++ r ++ [x]) = Some (File c).

Local Abbreviation act := (run_action E proj srv dstp).
Local Abbreviation run := (run_plan E proj srv dstp).
Local Abbreviation src := (proj ++ r ++ [x]).
Local Abbreviation dst := (dstp ++ r ++ [x]).

Lemma run_log_grows (l : list action) (st st' : state) :
  run l st = Ok tt st' -> exists new, st_log st' = st_log st ++ new.
Proof.
  intros (new & Hlog & _)%run_plan_summaries. by exists new.
Qed.

(** The step of a file that needs no copy makes the directory, at most,
    and says so. *)
Lemma sync_file_skips (st st' : state) :
  st_fs st !! src = Some (File c) ->
  _needs_copy E (st_fs st) src dst = false ->
  act (SyncFile r x) st = Ok tt st' ->
  st_fs st' !! dst = st_fs st !! dst /\
  st_fs st' !! src = Some (File c) /\
  st_log st' = st_log st ++ [already_line (relpath dst srv)].
Proof.
  intros Hs Hnc (b & bps & st1 & Hc & Hfs & _ & Hlog)%sync_file_Ok.
  pose proof (copy_with_progress_spec E src dst st) as H.
  rewrite Hc in H. destruct H as (st0 & Hmk & H).
  pose proof (makedirs_spec (dirname dst) st) as Hg.
  rewrite Hmk in Hg. destruct Hg as ([Hlog0 _] & Hg & _).
  assert (dst <> []) as Hne.
  { intros Heq. apply (f_equal length) in Heq. rewrite !length_app in Heq. simpl in Heq. lia. }
  rewrite <- (needs_copy_grows E _ _ _ _ c Hg Hne Hs) in Hnc.
  destruct b; [destruct H as (Hnc' & _); congruence|].
  destruct H as (_ & -> & _). rewrite Hfs, Hlog, Hlog0. split_and!; [|by apply Hg|done].
  by apply (makedirs_dst dst st st0 OSError); [|left].
Qed.

Lemma skip_run (l : list action) (st st' : state) :
  (forall a, a ∈ l -> forall q y, (q ++ [y]) `prefix_of` dir_of a ->
     is_dir f0 (proj ++ q ++ [y]) = true) ->
  agree_under proj f0 (st_fs st) ->
  run l st = Ok tt st' ->
  _needs_copy E (st_fs st) src dst = false ->
  st_fs st' !! dst = st_fs st !! dst /\
  (SyncFile r x ∈ l ->
   exists new, st_log st' = st_log st ++ new /\ already_line (relpath dst srv) ∈ new).
Proof.
  revert st. induction l as [|b l IH]; intros st Hscope Hag Hrun Hnc.
  { injection Hrun as <-. split; [done|]. by intros ?%elem_of_nil. }
  rewrite run_plan_cons in Hrun. apply bind_Ok_inv in Hrun as ([] & st1 & Hb & Hl).
  assert (agree_under proj f0 (st_fs st1)) as Hag1.
  { eapply agree_under_trans; [done|]. by eapply run_action_agree. }
  assert (st_fs st !! src = Some (File c)) as Hs.
  { rewrite Hag; [done|]. by apply prefix_app_r. }
  assert (st_fs st1 !! src = Some (File c)) as Hs1.
  { rewrite Hag1; [done|]. by apply prefix_app_r. }
  assert (forall a, a ∈ l -> forall q y, (q ++ [y]) `prefix_of` dir_of a ->
            is_dir f0 (proj ++ q ++ [y]) = true) as Hscope'.
  { intros a Ha. apply Hscope. by apply list_elem_of_further. }
  destruct (decide (b = SyncFile r x)) as [->|Hne].
  - destruct (sync_file_skips st st1 Hs Hnc Hb) as (Hd1 & _ & Hlog1).
    assert (_needs_copy E (st_fs st1) src dst = false) as Hnc1.
    { rewrite <- Hnc. apply needs_copy_ext; [by rewrite Hs, Hs1|done]. }
    destruct (IH st1 Hscope' Hag1 Hl Hnc1) as [Hd' _]. split; [by rewrite Hd', Hd1|].
    intros _. destruct (run_log_grows l st1 st' Hl) as [new Hnew].
    exists (already_line (relpath dst srv) :: new). split; [|by left].
    by rewrite Hnew, Hlog1, <- app_assoc.
  - assert (st_fs st1 !! dst = st_fs st !! dst) as Hd1.
    { apply run_action_Ok in Hb as (A & _). apply A.
      apply (target_off proj dstp f0 r x c Hsrc0); [|done].
      apply Hscope. by apply list_elem_of_here. }
    assert (_needs_copy E (st_fs st1) src dst = false) as Hnc1.
    { rewrite <- Hnc. apply needs_copy_ext; [by rewrite Hs, Hs1|done]. }
    destruct (IH st1 Hscope' Hag1 Hl Hnc1) as [Hd' Hline]. split; [by rewrite Hd', Hd1|].
    intros Hin. apply elem_of_cons in Hin as [Heq|Hin]; [congruence|].
    destruct (Hline Hin) as (new & Hnew & Hmem).
    destruct (run_log_grows [b] st st1) as [nb Hnb].
    { rewrite run_plan_cons. unfold bind. by rewrite Hb. }
    exists (nb ++ new). split; [by rewrite Hnew, Hnb, <- app_assoc|].
    apply elem_of_app. by right.
Qed.

End Skipped.

(** ** The mirror is complete *)

(** C1, as the code has it.  After a run of [sync_project_to_server] that
    returns, for a project tree and a mirror that are given by plain path
    strings and do not overlap, every file the walk reaches is still there
    with its bytes, and an entry of the same size exists at the mirrored
    path; it holds the same bytes when at the start the destination was
    missing or of another size, and it is the entry that was there when
    the destination had the size of the source.  The copy loop reads the source in chunks of
    [COPY_CHUNK_BYTES], 4 MiB each but for the last, and writes them in
    that order: put together they are the source. *)
Theorem mirror_completeness E fuel pd sr st st' r x c :
  plain pd = true ->
  plain (dst_project_of pd sr) = true ->
  disjoint_roots (path_of pd) (path_of (dst_project_of pd sr)) ->
  sync_project_to_server E fuel pd sr st = Ok tt st' ->
  source_file (st_fs st) (path_of pd) r x c ->
  let src := path_of pd ++ r ++ [x] in
  let dst := path_of (dst_project_of pd sr) ++ r ++ [x] in
  (st_fs st' !! src = Some (File c) /\
   path_exists (st_fs st') dst = true /\
   getsize E (st_fs st') dst = Some (N.of_nat (length c)) /\
   (_needs_copy E (st_fs st) src dst = true -> st_fs st' !! dst = Some (File c)) /\
   (_needs_copy E (st_fs st) src dst = false -> st_fs st' !! dst = st_fs st !! dst)) /\
  ((forall total start copied st1,
      copy_loop (S (length c)) E src dst total start c copied st1
      = copy_chunks E src dst total start (chunks COPY_CHUNK_BYTES c) copied st1) /\
   concat (chunks COPY_CHUNK_BYTES c) = c /\
   forall i ch, chunks COPY_CHUNK_BYTES c !! i = Some ch ->
     ch <> [] /\ (N.of_nat (length ch) <= 4194304)%N /\
     (S i < length (chunks COPY_CHUNK_BYTES c) -> N.of_nat (length ch) = 4194304%N)).
Proof.
  intros _ _ Hd Hrun (Hwalk & Hlisted & Hfile) src dst. subst src dst.
  rewrite sync_plan in Hrun by done.
  set (proj := path_of pd) in *. set (dstp := path_of (dst_project_of pd sr)) in *.
  set (l := EnsureDir [] :: plan proj fuel (st_fs st) []) in *.
  pose proof (run_plan_agree _ _ _ _ _ _ _ Hd Hrun) as Hag.
  assert (st_fs st' !! (proj ++ r ++ [x]) = Some (File c)) as Hsrc'.
  { rewrite Hag; [done|]. by apply prefix_app_r. }
  assert (SyncFile r x ∈ l) as Hin.
  { apply list_elem_of_further.
    apply run_plan_no_OutOfFuel in Hrun.
    apply (plan_has_file proj (st_fs st) fuel [] r x).
    - intros Ho. apply Hrun. by apply list_elem_of_further.
    - intros q y Hq. by apply Hwalk.
    - done.
    - cbn [app]. unfold is_dir. by rewrite Hfile. }
  pose proof (run_settles _ _ _ _ Hd _ _ _ Hrun) as Hall.
  rewrite Forall_forall in Hall. specialize (Hall _ Hin) as [_ Hnc].
  apply needs_copy_false in Hnc as (n & Hex & Hs & Hdst).
  split.
  - assert (forall a, a ∈ l -> forall q y, (q ++ [y]) `prefix_of` dir_of a ->
              is_dir (st_fs st) (proj ++ q ++ [y]) = true) as Hscope.
    { intros a Ha. apply elem_of_cons in Ha as [->|Ha].
      - intros q y [k Hk]. by destruct q.
      - eapply plan_dirs; [exact Ha|]. intros q y [k Hk]. by destruct q. }
    split_and!; [done|done| | |].
    + rewrite Hdst, <- Hs. unfold getsize. by rewrite Hsrc'.
    + intros Hnc0.
      by eapply (content_run E proj (path_of sr) dstp Hd (st_fs st) r x c Hfile l st st');
        [|apply agree_under_refl|..].
    + intros Hnc0.
      by destruct (skip_run E proj (path_of sr) dstp Hd (st_fs st) r x c Hfile l st st'
                     Hscope (agree_under_refl _ _) Hrun Hnc0).
  - split_and!.
    + intros. apply copy_loop_chunks. lia.
    + apply concat_chunks. done.
    + intros i ch Hch. destruct (chunks_sizes COPY_CHUNK_BYTES c) as [H1 H2].
      rewrite Forall_forall in H1. destruct (H1 ch) as [? ?].
      { eapply list_elem_of_lookup_2. exact Hch. }
      split_and!; [done|done|]. intros Hi. by apply (H2 i).
Qed.

Lemma mirror_completeness_witness :
  getsize quiet_env (st_fs demo_mirrored) ["srv"; "Proj"; "A"; "b.bin"] = Some 1%N /\
  st_fs demo_mirrored !! ["srv"; "Proj"; "A"; "b.bin"] = Some (File [Byte.x03]).
Proof.
  destruct (mirror_completeness quiet_env 5 "/raw/Proj/" "/srv" demo_state
              demo_mirrored ["A"] "b.bin" [Byte.x03]) as [(_ & _ & Hsize & Hcontent & _) _].
  - reflexivity.
  - reflexivity.
  - split; intros [k Hk]; vm_compute in Hk; discriminate.
  - vm_compute. reflexivity.
  - split_and!.
    + intros q y Hq. apply (prefix_snoc_inv (q ++ [y]) [] "A") in Hq as [Heq|Hq].
      * apply (app_inj_tail q [] y "A") in Heq as [-> ->].
        split; [exists ["a.bin"; "A"]; split; [reflexivity|set_solver]|reflexivity].
      * apply prefix_nil_inv in Hq. by destruct q.
    + exists ["b.bin"]. split; [reflexivity|set_solver].
    + reflexivity.
  - split; [exact Hsize|]. apply Hcontent. vm_compute. reflexivity.
Defined.

(** A destination of the size of the source and with other bytes is left
    as it is. *)
Lemma mirror_keeps_stale_bytes :
  sync_project_to_server quiet_env 5 "/raw/Proj" "/srv" stale_state = Ok tt stale_mirrored /\
  source_file stale_fs (path_of "/raw/Proj") [] "a.bin" [Byte.x01; Byte.x02] /\
  st_fs stale_mirrored !! (path_of (dst_project_of "/raw/Proj" "/srv") ++ [] ++ ["a.bin"])
    = Some (File [Byte.x07; Byte.x07]).
Proof.
  split_and!.
  - vm_compute. reflexivity.
  - split_and!.
    + intros q y Hq. apply prefix_nil_inv in Hq. by destruct q.
    + exists ["a.bin"]. split; [reflexivity|set_solver].
    + reflexivity.
  - vm_compute. reflexivity.
Qed.

(** ** Files that are left as they are *)

(** X12.  A file whose mirror place has its size when the run starts is not
    copied by the run: what lies at its mirror place is the same entry
    afterwards, and the log says that the file is already on the server. *)
Theorem mirror_skips_up_to_date_files (E : env) (fuel : nat) (pd sr : string)
    (st st' : state) (r : path) (x : string) (c : list Byte.byte) :
  disjoint_roots (path_of pd) (path_of (dst_project_of pd sr)) ->
  sync_project_to_server E fuel pd sr st = Ok tt st' ->
  source_file (st_fs st) (path_of pd) r x c ->
  _needs_copy E (st_fs st) (path_of pd ++ r ++ [x])
    (path_of (dst_project_of pd sr) ++ r ++ [x]) = false ->
  st_fs st' !! (path_of (dst_project_of pd sr) ++ r ++ [x])
  = st_fs st !! (path_of (dst_project_of pd sr) ++ r ++ [x]) /\
  exists new, st_log st' = st_log st ++ new /\
    already_line (relpath (path_of (dst_project_of pd sr) ++ r ++ [x]) (path_of sr)) ∈ new.
Proof.
  intros Hd Hrun (Hwalk & Hlisted & Hfile) Hnc. rewrite sync_plan in Hrun by done.
  pose proof (run_plan_no_OutOfFuel _ _ _ _ _ _ _ Hrun) as Hoof.
  apply not_elem_of_cons in Hoof as [_ Hoof].
  destruct (skip_run E (path_of pd) (path_of sr) (path_of (dst_project_of pd sr)) Hd
              (st_fs st) r x c Hfile
              (EnsureDir [] :: plan (path_of pd) fuel (st_fs st) []) st st') as [Hkeep Hline].
  - intros a Ha. apply elem_of_cons in Ha as [->|Ha].
    + intros q y [k Hk]. by destruct q.
    + eapply plan_dirs; [exact Ha|]. intros q y [k Hk]. by destruct q.
  - apply agree_under_refl.
  - exact Hrun.
  - exact Hnc.
  - split; [done|]. apply Hline. apply list_elem_of_further.
    apply (plan_has_file (path_of pd) (st_fs st) fuel [] r x); [done| |done|].
    + intros q y Hq. by apply Hwalk.
    + cbn [app]. unfold is_dir. by rewrite Hfile.
Qed.

Lemma mirror_skips_up_to_date_files_witness :
  st_fs stale_mirrored !! ["srv"; "Proj"; "a.bin"] = Some (File [Byte.x07; Byte.x07]).
Proof.
  destruct (mirror_skips_up_to_date_files quiet_env 5 "/raw/Proj" "/srv" stale_state
              stale_mirrored [] "a.bin" [Byte.x01; Byte.x02]) as [Hkeep _].
  - split; intros [k Hk]; vm_compute in Hk; discriminate.
  - vm_compute. reflexivity.
  - split_and!.
    + intros q y Hq. apply prefix_nil_inv in Hq. by destruct q.
    + exists ["a.bin"]. split; [reflexivity|repeat constructor].
    + reflexivity.
  - reflexivity.
  - etrans; [exact Hkeep|]. reflexivity.
Defined.


(** ** The path in a summary line *)

(** X13.  The path a summary line shows for a file is its path below the server
    root: the name of the project, then the path of the file below the
    project directory.  In a run that returns, for trees that are given by
    plain path strings and do not overlap, the summary lines of the log are
    these, one for each file of the walk and in its order. *)
Theorem summary_path_below_server_root (E : env) (fuel : nat) (pd sr : string)
    (st st' : state) :
  plain pd = true ->
  plain (dst_project_of pd sr) = true ->
  project_name_of pd <> "" ->
  disjoint_roots (path_of pd) (path_of (dst_project_of pd sr)) ->
  sync_project_to_server E fuel pd sr st = Ok tt st' ->
  exists new, st_log st' = st_log st ++ new /\
    Forall2 (fun rx line =>
               let shown := String.concat "/" (project_name_of pd :: rx.1 ++ [rx.2]) in
               line = check_mark +:+ " Already on server: " +:+ shown \/
               exists bps, line = check_mark +:+ " Copied to server at " +:+ shown
                                  +:+ " @ " +:+ mbps_text E bps +:+ " MB/s")
      (walk_files (path_of pd) fuel (st_fs st)) (List.filter is_summary new).
Proof.
  intros _ _ Hne Hd Hrun. rewrite sync_plan in Hrun by done.
  apply run_plan_summaries in Hrun as (new & Hlog & Hall).
  exists new. split; [done|].
  eapply Forall2_impl; [exact Hall|]. intros [r x] line. cbn [fst snd]. cbv zeta.
  assert (relpath (path_of (dst_project_of pd sr) ++ r ++ [x]) (path_of sr)
          = project_name_of pd :: r ++ [x]) as Hrel.
  { unfold dst_project_of. rewrite path_of_join; [|apply posix_basename_no_slash|done].
    rewrite <- app_assoc. apply relpath_app. }
  unfold summary_of. rewrite Hrel. unfold already_line, copied_line, path_text.
  intros [->|[bps ->]]; [by left|right; by exists bps].
Qed.

Lemma summary_path_below_server_root_witness :
  exists new, st_log demo_mirrored = new /\
    Forall2 (fun rx line =>
               let shown := String.concat "/" ("Proj" :: rx.1 ++ [rx.2]) in
               line = check_mark +:+ " Already on server: " +:+ shown \/
               exists bps, line = check_mark +:+ " Copied to server at " +:+ shown
                                  +:+ " @ " +:+ mbps_text quiet_env bps +:+ " MB/s")
      [([], "a.bin"); (["A"], "b.bin")] (List.filter is_summary new).
Proof.
  destruct (summary_path_below_server_root quiet_env 5 "/raw/Proj/" "/srv"
              demo_state demo_mirrored) as (new & Hlog & Hall).
  - reflexivity.
  - reflexivity.
  - discriminate.
  - split; intros [k Hk]; vm_compute in Hk; discriminate.
  - vm_compute. reflexivity.
  - exists new. split; [exact Hlog|exact Hall].
Defined.

(** ** Slashes at the end of the project directory *)

Lemma path_of_slashes (seps : string) : all_in "/" seps = true -> path_of seps = [].
Proof.
  induction seps as [|c seps IH]; [done|]. cbn [all_in].
  intros [Hc Hs]%andb_true_iff. simpl in Hc. rewrite orb_false_r in Hc.
  apply Ascii.eqb_eq in Hc as ->.
  change (String "/" seps) with ("" +:+ String "/" seps).
  rewrite path_of_app. by rewrite IH.
Qed.

Lemma path_of_trailing_slashes (p seps : string) :
  all_in "/" seps = true -> path_of (p +:+ seps) = path_of p.
Proof.
  intros Hs. destruct seps as [|c seps]; [by rewrite append_nil_r|].
  cbn [all_in] in Hs. apply andb_true_iff in Hs as [Hc Hs]. simpl in Hc.
  rewrite orb_false_r in Hc. apply Ascii.eqb_eq in Hc as ->.
  by rewrite path_of_app, (path_of_slashes seps Hs), app_nil_r.
Qed.

Lemma all_in_weaken (seps : string) : all_in "/" seps = true -> all_in "/\" seps = true.
Proof.
  induction seps as [|c seps IH]; [done|]. cbn [all_in].
  intros [Hc Hs]%andb_true_iff. rewrite (IH Hs), andb_true_r. simpl in *.
  rewrite orb_false_r in Hc. by rewrite Hc.
Qed.

Lemma rstrip_trailing (chars s seps : string) :
  all_in chars seps = true -> rstrip chars (s +:+ seps) = rstrip chars s.
Proof.
  intros Hs. induction s as [|c s IH].
  - rewrite append_nil_l. by apply rstrip_all_in.
  - rewrite append_cons. cbn [rstrip]. by rewrite IH.
Qed.

(** X14.  Slashes at the end of a project directory that is a plain path string
    change nothing in what the mirror does. *)
Theorem trailing_slashes_change_nothing (E : env) (fuel : nat)
    (pd seps sr : string) (st : state) :
  plain pd = true ->
  plain (dst_project_of pd sr) = true ->
  all_in "/" seps = true ->
  sync_project_to_server E fuel (pd +:+ seps) sr st = sync_project_to_server E fuel pd sr st.
Proof.
  intros _ _ Hs. unfold sync_project_to_server.
  rewrite (rstrip_trailing "/\" pd seps (all_in_weaken seps Hs)).
  by rewrite (path_of_trailing_slashes pd seps Hs).
Qed.

Lemma trailing_slashes_change_nothing_witness :
  sync_project_to_server quiet_env 5 "/raw/Proj//" "/srv" demo_state = Ok tt demo_mirrored.
Proof.
  change "/raw/Proj//" with ("/raw/Proj" +:+ "//").
  rewrite (trailing_slashes_change_nothing quiet_env 5 "/raw/Proj" "//" "/srv" demo_state).
  - vm_compute. reflexivity.
  - reflexivity.
  - reflexivity.
  - reflexivity.
Defined.

(** ** A directory where the file should go *)



(** ** A file where the destination project directory should be *)

(** X16.  When a file lies at the place of the destination project directory, or
    on the way to it, the mirror raises at once ([FileExistsError] in the
    first case, [NotADirectoryError] in the second): nothing is walked,
    copied, logged or changed. *)
Theorem mirror_blocked_by_file (E : env) (fuel : nat) (pd sr : string) (st : state)
    (q r : path) (c : list Byte.byte) :
  wf_fs (st_fs st) ->
  st_fs st !! q = Some (File c) ->
  path_of (dst_project_of pd sr) = q ++ r ->
  sync_project_to_server E fuel pd sr st
  = Raise (match r with [] => FileExistsError | _ => NotADirectoryError end) st.
Proof.
  intros Hwf Hq Hdst. unfold sync_project_to_server, bind.
  fold (project_name_of pd). fold (dst_project_of pd sr).
  by rewrite Hdst, (ensure_dir_blocked q r c st Hwf Hq).
Qed.

Lemma mirror_blocked_by_file_witness :
  sync_project_to_server quiet_env 5 "/raw/Proj" "/raw/Proj/a.bin" demo_state
  = Raise NotADirectoryError demo_state.
Proof.
  apply (mirror_blocked_by_file quiet_env 5 "/raw/Proj" "/raw/Proj/a.bin" demo_state
           ["raw"; "Proj"; "a.bin"] ["Proj"] [Byte.x01; Byte.x02]).
  - apply wf_fsb_true. vm_compute. reflexivity.
  - reflexivity.
  - reflexivity.
Defined.

(** ** The project mirrored onto itself *)

Lemma only_skipped_refl (st : state) : only_skipped st st.
Proof. split_and!; [done..|]. exists []. by rewrite app_nil_r. Qed.

Lemma only_skipped_trans (st1 st2 st3 : state) :
  only_skipped st1 st2 -> only_skipped st2 st3 -> only_skipped st1 st3.
Proof.
  intros (F1 & C1 & l1 & L1 & A1) (F2 & C2 & l2 & L2 & A2). split_and!; [congruence..|].
  exists (l1 ++ l2). split; [by rewrite L2, L1, app_assoc|by apply Forall_app].
Qed.

Lemma for_each_only_skipped {A} (body : A -> M unit) (l : list A) (st st' : state) :
  (forall x s s', x ∈ l -> st_fs s = st_fs st -> body x s = Ok tt s' -> only_skipped s s') ->
  for_each body l st = Ok tt st' -> only_skipped st st'.
Proof.
  revert st. induction l as [|x l IH]; intros st Hbody.
  - intros [= <-]. apply only_skipped_refl.
  - cbn [for_each]. intros ([] & st1 & Hx & Hl)%bind_Ok_inv.
    assert (only_skipped st st1) as H1 by (apply (Hbody x); [by left|done..]).
    eapply only_skipped_trans; [exact H1|]. apply IH; [|done].
    intros y s s' Hy Hs. apply Hbody; [by right|]. destruct H1 as [H1 _]. congruence.
Qed.

Lemma wf_made (f : gmap (list string) node) (p : path) :
  wf_fs f -> is_dir f p = true -> made p f.
Proof.
  intros Hwf Hd. split; [done|]. apply is_dir_exists. apply wf_parent; [done|].
  by apply is_dir_exists.
Qed.

Lemma ensure_dir_there (p : path) (st st' : state) :
  wf_fs (st_fs st) -> is_dir (st_fs st) p = true ->
  _ensure_dir p st = Ok tt st' -> only_skipped st st'.
Proof.
  intros Hwf Hd Hrun. unfold _ensure_dir in Hrun.
  rewrite (makedirs_made p st (wf_made _ _ Hwf Hd)) in Hrun. injection Hrun as <-.
  apply only_skipped_refl.
Qed.

(** A file "copied" to its own place is skipped. *)
Lemma sync_file_onto_itself (E : env) (srv top : path) (x : string) (st st' : state) :
  wf_fs (st_fs st) -> is_dir (st_fs st) top = true ->
  sync_file E srv top top x st = Ok tt st' -> only_skipped st st'.
Proof.
  intros Hwf Hd. unfold sync_file, bind.
  pose proof (copy_with_progress_spec E (top ++ [x]) (top ++ [x]) st) as H.
  destruct (copy_with_progress E (top ++ [x]) (top ++ [x]) st) as [[b bps] st1|e st1|];
    [|done..].
  destruct H as (st0 & Hmk & H). rewrite dirname_snoc in Hmk.
  rewrite (makedirs_made top st (wf_made _ _ Hwf Hd)) in Hmk. injection Hmk as <-.
  destruct b.
  - destruct H as (Hnc & c & Hsrc & _). by rewrite (needs_copy_not_same E _ _ c Hsrc) in Hnc.
  - destruct H as (_ & -> & _). cbn [fst snd negb]. unfold log. intros [= <-].
    split_and!; [done..|]. eexists. split; [done|]. constructor; [by eexists|constructor].
Qed.

Lemma walk_onto_itself (E : env) (proj srv : path) (fuel : nat) (r : path) (st st' : state) :
  wf_fs (st_fs st) ->
  walk fuel (sync_dir E proj srv proj) (proj ++ r) st = Ok tt st' ->
  only_skipped st st'.
Proof.
  revert r st st'. induction fuel as [|fuel IH]; intros r st st' Hwf; [done|].
  cbn [walk]. destruct (scandir (st_fs st) (proj ++ r)) as [[dirs files]|] eqn:Hscan.
  2:{ intros [= <-]. apply only_skipped_refl. }
  assert (is_dir (st_fs st) (proj ++ r) = true /\
          forall d, d ∈ dirs -> is_dir (st_fs st) ((proj ++ r) ++ [d]) = true) as [Htop Hdirs].
  { unfold scandir in Hscan. unfold is_dir at 1.
    destruct (st_fs st !! (proj ++ r)) as [[c|names]|]; [done| |done].
    injection Hscan as <- _. split; [done|]. by intros d [Hd _]%elem_of_List_filter. }
  intros ([] & st1 & Hbody & Hrec)%bind_Ok_inv.
  assert (only_skipped st st1) as H1.
  { unfold sync_dir in Hbody. rewrite relpath_app in Hbody.
    replace (match r with [] => proj | _ :: _ => proj ++ r end) with (proj ++ r) in Hbody
      by (destruct r; [by rewrite app_nil_r|done]).
    apply bind_Ok_inv in Hbody as ([] & sa & Ha & Hbody).
    apply bind_Ok_inv in Hbody as ([] & sb & Hb & Hc).
    assert (only_skipped st sa) as Ra by (by eapply ensure_dir_there).
    assert (only_skipped sa sb) as Rb.
    { eapply for_each_only_skipped; [|exact Hb]. intros d s s' Hd Hs Hrun.
      destruct Ra as [Fa _]. eapply ensure_dir_there; [| |exact Hrun].
      - by rewrite Hs, Fa.
      - rewrite Hs, Fa. by apply Hdirs. }
    assert (only_skipped sb st1) as Rc.
    { eapply for_each_only_skipped; [|exact Hc]. intros y s s' Hy Hs Hrun.
      destruct Ra as [Fa _]. destruct Rb as [Fb _].
      eapply sync_file_onto_itself; [| |exact Hrun]; by rewrite Hs, Fb, Fa. }
    eapply only_skipped_trans; [exact Ra|]. by eapply only_skipped_trans. }
  eapply only_skipped_trans; [exact H1|].
  eapply for_each_only_skipped; [|exact Hrec]. intros d s s' Hd Hs Hrun.
  cbv beta in Hrun. rewrite <- app_assoc in Hrun. apply IH in Hrun; [done|].
  destruct H1 as [F1 _]. by rewrite Hs, F1.
Qed.

(** X17.  Where the destination project directory is the project directory (the
    server root is the directory the project lies in), a run that returns
    has copied nothing: the file system and the clock are as they were and
    the log got "Already on server" lines only. *)
Theorem mirror_onto_itself (E : env) (fuel : nat) (pd sr : string) (st st' : state) :
  wf_fs (st_fs st) ->
  path_of (dst_project_of pd sr) = path_of pd ->
  is_dir (st_fs st) (path_of pd) = true ->
  sync_project_to_server E fuel pd sr st = Ok tt st' ->
  only_skipped st st'.
Proof.
  intros Hwf Hsame Hd. unfold sync_project_to_server.
  fold (project_name_of pd). fold (dst_project_of pd sr). rewrite Hsame.
  intros ([] & st1 & Hmk & Hwalk)%bind_Ok_inv.
  assert (only_skipped st st1) as H1 by (by eapply ensure_dir_there).
  eapply only_skipped_trans; [exact H1|].
  rewrite <- (app_nil_r (path_of pd)) in Hwalk at 3.
  apply walk_onto_itself in Hwalk; [done|]. destruct H1 as [F1 _]. by rewrite F1.
Qed.

Lemma mirror_onto_itself_witness :
  st_fs (final_state (sync_project_to_server quiet_env 5 "/raw/Proj" "/raw" demo_state)
           demo_state) = demo_fs.
Proof.
  destruct (mirror_onto_itself quiet_env 5 "/raw/Proj" "/raw" demo_state
              (final_state (sync_project_to_server quiet_env 5 "/raw/Proj" "/raw" demo_state)
                 demo_state)) as (Hfs & _).
  - apply wf_fsb_true. vm_compute. reflexivity.
  - reflexivity.
  - reflexivity.
  - vm_compute. reflexivity.
  - exact Hfs.
Defined.

(** * Settings and state (state.py) *)

Lemma truthy_JDict (m : gmap string json) : truthy (JDict m) = false -> m = ∅.
Proof.
  simpl. destruct (map_to_list m) as [|kv l] eqn:Hm; [|done]. intros _.
  by apply map_to_list_empty_iff.
Qed.

Lemma py_or_JDict (m : gmap string json) :
  py_or (Some (JDict m)) (JDict ∅) = JDict m.
Proof.
  unfold py_or. destruct (truthy (JDict m)) eqn:Ht; [done|].
  by rewrite (truthy_JDict m Ht).
Qed.

(** X18.  The server root put for a project is the one got for it afterwards,
    the roots of the other projects and the other settings are as they
    were, and the settings have been handed to the file. *)
Theorem server_root_put_get (project server_root : string) (s : AppSettings.t) :
  (forall v, AppSettings._data s !! "server_roots_by_project" = Some v ->
     exists m, v = JDict m) ->
  exists s',
    AppSettings.put_server_root_for_project project server_root s = Py.Val s' /\
    AppSettings.get_server_root_for_project project s' = Py.Val (JStr server_root) /\
    (forall q, q <> project ->
       AppSettings.get_server_root_for_project q s'
       = AppSettings.get_server_root_for_project q s) /\
    (forall k, k <> "server_roots_by_project" ->
       AppSettings._data s' !! k = AppSettings._data s !! k) /\
    last (AppSettings.written s') = Some (AppSettings._data s').
Proof.
  intros Hd. unfold AppSettings.put_server_root_for_project.
  assert (exists m, default (JDict ∅) (AppSettings._data s !! "server_roots_by_project")
                    = JDict m /\
            forall q, AppSettings.get_server_root_for_project q s
                      = Py.Val (default (JStr "") (m !! q))) as (m & -> & Hget).
  { unfold AppSettings.get_server_root_for_project.
    destruct (AppSettings._data s !! "server_roots_by_project") as [v|] eqn:Hv.
    - destruct (Hd v eq_refl) as [m ->]. exists m. split; [done|]. intros q.
      by rewrite py_or_JDict.
    - exists ∅. split; [done|]. intros q. done. }
  eexists. split; [done|].
  assert (forall q, AppSettings.get_server_root_for_project q
                      (AppSettings.save
                         (AppSettings.set_item "server_roots_by_project"
                            (JDict (<[project := JStr server_root]> m)) s))
                    = Py.Val (default (JStr "") (<[project := JStr server_root]> m !! q)))
    as Hget'.
  { intros q. unfold AppSettings.get_server_root_for_project, AppSettings.save,
      AppSettings.set_item. cbn [AppSettings._data].
    by rewrite lookup_insert_eq, py_or_JDict. }
  split_and!.
  - by rewrite Hget', lookup_insert_eq.
  - intros q Hq. by rewrite Hget', Hget, lookup_insert_ne.
  - intros k Hk. cbn [AppSettings.save AppSettings.set_item AppSettings._data].
    by rewrite lookup_insert_ne.
  - cbn [AppSettings.save AppSettings.set_item AppSettings._data AppSettings.written].
    by rewrite last_snoc.
Qed.

Lemma server_root_put_get_witness :
  exists s',
    AppSettings.put_server_root_for_project "Proj" "/srv" (AppSettings.init None) = Py.Val s' /\
    AppSettings.get_server_root_for_project "Proj" s' = Py.Val (JStr "/srv") /\
    AppSettings.get_server_root_for_project "Other" s' = Py.Val (JStr "").
Proof.
  destruct (server_root_put_get "Proj" "/srv" (AppSettings.init None))
    as (s' & Hput & Hget & Hother & _).
  - intros v Hv. vm_compute in Hv. injection Hv as <-. by eexists.
  - exists s'. split; [exact Hput|]. split; [exact Hget|].
    rewrite Hother by discriminate. reflexivity.
Defined.

(** X19.  What is stored under ["server_roots_by_project"] need not be a dict
    (the settings file may say anything).  Reading is forgiving: nothing
    there, or something false ([null], [""], [0], [[]], [{}]), reads as no
    server root; something true that is no dict raises [AttributeError].
    Writing is not: anything but a dict there, [null] included, raises
    [TypeError], and nothing is changed or saved. *)
Theorem server_root_not_a_dict (project server_root : string) (s : AppSettings.t) :
  (AppSettings._data s !! "server_roots_by_project" = None ->
     AppSettings.get_server_root_for_project project s = Py.Val (JStr "")) /\
  (forall v, AppSettings._data s !! "server_roots_by_project" = Some v ->
     truthy v = false ->
     AppSettings.get_server_root_for_project project s = Py.Val (JStr "")) /\
  (forall v, AppSettings._data s !! "server_roots_by_project" = Some v ->
     truthy v = true -> (forall m, v <> JDict m) ->
     AppSettings.get_server_root_for_project project s = Py.Exc Py.AttributeError) /\
  (forall v, AppSettings._data s !! "server_roots_by_project" = Some v ->
     (forall m, v <> JDict m) ->
     AppSettings.put_server_root_for_project project server_root s = Py.Exc Py.TypeError) /\
  (forall m, AppSettings._data s !! "server_roots_by_project" = Some (JDict m) ->
     m !! project = None ->
     AppSettings.get_server_root_for_project project s = Py.Val (JStr "")).
Proof.
  unfold AppSettings.get_server_root_for_project, AppSettings.put_server_root_for_project.
  split_and!.
  - by intros ->.
  - intros v -> Hv. unfold py_or. by rewrite Hv.
  - intros v -> Hv Hm. unfold py_or. rewrite Hv. destruct v; try done. by destruct (Hm d).
  - intros v -> Hm. simpl. destruct v; try done. by destruct (Hm d).
  - intros m -> Hp. rewrite py_or_JDict. by rewrite Hp.
Qed.

Lemma server_root_not_a_dict_witness :
  AppSettings.get_server_root_for_project "Proj" (AppSettings.init (Some null_roots))
  = Py.Val (JStr "") /\
  AppSettings.put_server_root_for_project "Proj" "/srv" (AppSettings.init (Some null_roots))
  = Py.Exc Py.TypeError.
Proof.
  destruct (server_root_not_a_dict "Proj" "/srv" (AppSettings.init (Some null_roots)))
    as (_ & Hget & _ & Hput & _).
  split.
  - apply (Hget JNull); reflexivity.
  - apply (Hput JNull); [reflexivity|discriminate].
Defined.

(** X20.  The roots are never read as nothing: what is stored is answered when
    it is true, the default otherwise.  So a root set to the empty string
    reads as the default. *)
Theorem roots_fall_back (v : string) (s : AppSettings.t) :
  truthy (AppSettings.raw_root s) = true /\
  truthy (AppSettings.processed_root s) = true /\
  AppSettings.raw_root (AppSettings.set_raw_root v s)
  = JStr (if nonempty v then v else DEFAULT_RAW_ROOT) /\
  AppSettings.processed_root (AppSettings.set_processed_root v s)
  = JStr (if nonempty v then v else DEFAULT_PROCESSED_ROOT) /\
  AppSettings.raw_root (AppSettings.set_processed_root v s) = AppSettings.raw_root s /\
  AppSettings.processed_root (AppSettings.set_raw_root v s) = AppSettings.processed_root s.
Proof.
  unfold AppSettings.raw_root, AppSettings.processed_root, AppSettings.set_raw_root,
    AppSettings.set_processed_root, AppSettings.save, AppSettings.set_item.
  cbn [AppSettings._data]. split_and!.
  - unfold py_or. destruct (AppSettings._data s !! "raw_root") as [x|]; [|done].
    by destruct (truthy x) eqn:Hx.
  - unfold py_or. destruct (AppSettings._data s !! "processed_root") as [x|]; [|done].
    by destruct (truthy x) eqn:Hx.
  - rewrite lookup_insert_eq. by destruct v.
  - rewrite lookup_insert_eq. by destruct v.
  - by rewrite lookup_insert_ne.
  - by rewrite lookup_insert_ne.
Qed.

(** ** From one start of the application to the next *)

Lemma has_defaults_set_item (k : string) (v : json) (s : AppSettings.t) :
  has_defaults s -> has_defaults (AppSettings.save (AppSettings.set_item k v s)).
Proof.
  intros H k' Hk'. cbn [AppSettings.save AppSettings.set_item AppSettings._data].
  destruct (decide (k = k')) as [->|Hne].
  - rewrite lookup_insert_eq. by eexists.
  - rewrite lookup_insert_ne by done. by apply H.
Qed.

Lemma init_of_saved (d : gmap string json) :
  (forall k, is_Some (AppSettings.defaults !! k) -> is_Some (d !! k)) ->
  AppSettings._data (AppSettings.init (Some d)) = d.
Proof.
  intros H. cbn [AppSettings.init AppSettings.load AppSettings._data].
  apply map_eq. intros k. rewrite lookup_union.
  destruct (d !! k) as [x|] eqn:Hk.
  - by destruct (AppSettings.defaults !! k).
  - destruct (AppSettings.defaults !! k) as [y|] eqn:Hdef; [|done].
    destruct (H k) as [x Hx]; [by eexists|]. by rewrite Hx in Hk.
Qed.

(** X21.  What [set_current] leaves for the next start.  The settings it hands to
    the file are the settings as they are; started from them, the
    application has the same settings, and the project and the session
    path that were current are current again, but no animal and no
    session: those two are kept in the running state only. *)
Theorem restart_restores (project animal session session_path : string) (a : AppState.t) :
  has_defaults (AppState.settings a) ->
  let a' := AppState.set_current (Some project) (Some animal) (Some session)
              (Some session_path) a in
  AppState.current_animal a' = JStr animal /\
  AppState.current_session a' = JStr session /\
  exists d,
    last (AppSettings.written (AppState.settings a')) = Some d /\
    AppSettings._data (AppSettings.init (Some d)) = AppSettings._data (AppState.settings a') /\
    let b := AppState.init (AppSettings.init (Some d)) in
    AppState.current_project b = JStr project /\
    AppState.current_session_path b = JStr session_path /\
    AppState.current_animal b = JStr "" /\
    AppState.current_session b = JStr "".
Proof.
  intros Hdef a'. split; [done|]. split; [done|].
  exists (AppSettings._data (AppState.settings a')).
  assert (has_defaults (AppState.settings a')) as Hdef'.
  { subst a'. cbn [AppState.set_current AppState.settings].
    by do 2 apply has_defaults_set_item. }
  split.
  { subst a'. cbn [AppState.set_current AppState.settings].
    unfold AppSettings.set_last_opened_session_path at 1, AppSettings.save at 1.
    cbn [AppSettings.written]. by rewrite last_snoc. }
  split; [by apply init_of_saved|].
  cbv zeta. unfold AppState.init. cbn [AppState.current_project AppState.current_animal
    AppState.current_session AppState.current_session_path].
  unfold AppSettings.last_opened_project, AppSettings.last_opened_session_path.
  rewrite (init_of_saved _ Hdef'). subst a'.
  cbn [AppState.set_current AppState.settings].
  unfold AppSettings.set_last_opened_session_path, AppSettings.set_last_opened_project,
    AppSettings.save, AppSettings.set_item. cbn [AppSettings._data].
  rewrite lookup_insert_eq, lookup_insert_ne, lookup_insert_eq by done.
  split_and!; [|by destruct session_path|done|done]. by destruct project.
Qed.

Lemma restart_restores_witness :
  AppState.current_project
    (AppState.init (AppSettings.init
       (last (AppSettings.written
                (AppState.settings
                   (AppState.set_current (Some "Proj") (Some "A") (Some "S") (Some "/raw/Proj/A/S")
                      (AppState.init (AppSettings.init None)))))))) = JStr "Proj".
Proof.
  destruct (restart_restores "Proj" "A" "S" "/raw/Proj/A/S"
              (AppState.init (AppSettings.init None)))
    as (_ & _ & d & Hlast & _ & Hproj & _).
  - intros k Hk. exact Hk.
  - rewrite Hlast. exact Hproj.
Defined.

(** * The recording tab (tabs/recording_tab.py) *)

(** ** Names and joined paths *)

Lemma is_name_spec (n : string) : is_name n = true <-> n <> "" /\ has_slash n = false.
Proof.
  unfold is_name. rewrite andb_true_iff, negb_true_iff. destruct n; simpl; intuition done.
Qed.

Lemma after_last_slash_app (a n : string) :
  has_slash n = false -> after_last_slash (a +:+ String "/" n) = Some n.
Proof.
  intros Hn. induction a as [|c a IH].
  - rewrite append_nil_l. cbn [after_last_slash].
    apply after_last_slash_None in Hn. by rewrite Hn.
  - rewrite append_cons. cbn [after_last_slash]. by rewrite IH.
Qed.

Lemma upto_last_slash_app (a n : string) :
  has_slash n = false -> upto_last_slash (a +:+ String "/" n) = a +:+ "/".
Proof.
  intros Hn. induction a as [|c a IH].
  - rewrite !append_nil_l. cbn [upto_last_slash].
    apply after_last_slash_None in Hn. by rewrite Hn.
  - rewrite !append_cons. cbn [upto_last_slash].
    by rewrite (after_last_slash_app a n Hn), IH.
Qed.

Lemma posix_basename_no_slash_id (n : string) :
  has_slash n = false -> posix_basename n = n.
Proof.
  intros Hn. unfold posix_basename. apply after_last_slash_None in Hn. by rewrite Hn.
Qed.

Lemma posix_basename_app (a n : string) :
  has_slash n = false -> posix_basename (a +:+ String "/" n) = n.
Proof. intros Hn. unfold posix_basename. by rewrite after_last_slash_app. Qed.

Lemma all_in_app (chars a b : string) :
  all_in chars (a +:+ b) = all_in chars a && all_in chars b.
Proof.
  induction a as [|c a IH]; [done|]. rewrite append_cons. cbn [all_in].
  by rewrite IH, andb_assoc.
Qed.

Lemma ends_clear_not_all_in (chars a : string) :
  a <> "" -> ends_clear chars a = true -> all_in chars a = false.
Proof.
  induction a as [|c a IH]; [done|]. intros _. cbn [ends_clear all_in].
  destruct a as [|c' a'].
  - intros ->%negb_true_iff. done.
  - intros H. rewrite (IH ltac:(done) H). apply andb_false_r.
Qed.

(** The directory of [a/n]. *)
Lemma posix_dirname_app (a n : string) :
  has_slash n = false -> a <> "" -> ends_clear "/" a = true ->
  posix_dirname (a +:+ String "/" n) = a.
Proof.
  intros Hn Ha Hclear. unfold posix_dirname. rewrite (upto_last_slash_app a n Hn).
  assert (nonempty (a +:+ "/") = true) as -> by (by destruct a).
  rewrite all_in_app, (ends_clear_not_all_in _ a Ha Hclear). cbn [andb negb].
  by apply rstrip_app.
Qed.

Lemma ends_clear_app (chars x n : string) :
  n <> "" -> ends_clear chars n = true -> ends_clear chars (x +:+ n) = true.
Proof.
  intros Hn Hc. induction x as [|c x IH]; [done|]. rewrite append_cons.
  cbn [ends_clear]. destruct (x +:+ n) eqn:Hx; [|done].
  destruct x; [by rewrite append_nil_l in Hx|done].
Qed.

Lemma no_slash_ends_clear (n : string) : has_slash n = false -> ends_clear "/" n = true.
Proof.
  induction n as [|c n IH]; [done|]. cbn [has_slash ends_clear].
  intros [Hc Hn]%orb_false_iff. destruct n as [|c' n']; [|by apply IH].
  unfold is_slash in Hc. simpl. by rewrite Hc.
Qed.

Lemma ends_clear_no_trailing_slash (a : string) :
  ends_clear "/" a = true -> ends_with_slash a = false.
Proof.
  induction a as [|c a IH]; [done|]. cbn [ends_clear ends_with_slash].
  destruct a as [|c' a']; [|done]. simpl. unfold is_slash.
  by destruct (Ascii.eqb c "/").
Qed.

(** [posixpath.join(a, n)] for a name [n]: [n] after a head that is empty or
    ends with a slash. *)
Lemma posix_join_name (a n : string) :
  is_name n = true ->
  exists head, posix_join a n = head +:+ n /\
    (head = "" \/ exists a', head = a' +:+ "/") /\
    path_of (head +:+ n) = path_of a ++ [n].
Proof.
  intros [Hne Hs]%is_name_spec.
  pose proof (path_of_join a n Hs Hne) as Hp. unfold posix_join in *.
  assert (starts_with_slash n = false) as Hst.
  { destruct n as [|c n]; [done|]. simpl in *. by apply orb_false_iff in Hs as [-> _]. }
  rewrite Hst in *. destruct a as [|c a0] eqn:Ha.
  { exists "". by split_and!; [|left|]. }
  rewrite <- Ha in *. destruct (ends_with_slash a) eqn:He.
  - exists a. split_and!; [done| |done]. right. by apply ends_with_slash_app.
  - exists (a +:+ "/"). rewrite append_assoc. simpl. split_and!; [done| |done].
    right. by exists a.
Qed.

Lemma posix_join_name_ok (a n : string) :
  is_name n = true ->
  posix_join a n <> "" /\ ends_clear "/" (posix_join a n) = true /\
  posix_basename (posix_join a n) = n.
Proof.
  intros Hn. destruct (posix_join_name a n Hn) as (head & -> & Hhead & _).
  apply is_name_spec in Hn as [Hne Hs]. split_and!.
  - destruct head; [by rewrite append_nil_l|done].
  - apply ends_clear_app; [done|by apply no_slash_ends_clear].
  - destruct Hhead as [->|[a' ->]].
    + rewrite append_nil_l. by apply posix_basename_no_slash_id.
    + rewrite append_assoc. simpl. by apply posix_basename_app.
Qed.

(** Joining a name to a path that does not end with a slash. *)
Lemma posix_join_clear (a n : string) :
  a <> "" -> ends_clear "/" a = true -> is_name n = true ->
  posix_join a n = a +:+ String "/" n.
Proof.
  intros Ha Hc [Hne Hs]%is_name_spec. unfold posix_join.
  assert (starts_with_slash n = false) as ->.
  { destruct n as [|c n]; [done|]. simpl in *. by apply orb_false_iff in Hs as [-> _]. }
  rewrite (ends_clear_no_trailing_slash a Hc). by destruct a.
Qed.

(** X22.  The names [load_session] reads off a path are the names
    [_session_dir] made it of.  With a separator at its end the path gives
    other names: no session, the session for the animal and the animal for
    the project. *)
Theorem session_names_from_path (root proj animal session : string) :
  is_name proj = true -> is_name animal = true -> is_name session = true ->
  names_of_session_dir (_session_dir root proj animal session) = (proj, animal, session) /\
  names_of_session_dir (_session_dir root proj animal session +:+ "/") = (animal, session, "").
Proof.
  intros Hp Ha Hs. unfold _session_dir, posix_join4.
  destruct (posix_join_name_ok root proj Hp) as (J1 & J2 & J3).
  set (J := posix_join root proj) in *.
  rewrite (posix_join_clear J animal J1 J2 Ha).
  pose proof Ha as [Hane Has]%is_name_spec. pose proof Hs as [Hsne Hss]%is_name_spec.
  assert (J +:+ String "/" animal <> "") as K1 by (by destruct J).
  assert (ends_clear "/" (J +:+ String "/" animal) = true) as K2.
  { apply ends_clear_app; [done|]. cbn [ends_clear]. destruct animal; [done|].
    by apply (no_slash_ends_clear (String a animal)). }
  rewrite (posix_join_clear _ session K1 K2 Hs).
  set (A := J +:+ String "/" animal) in *.
  assert (A +:+ String "/" session <> "") as S1 by (by destruct A).
  assert (ends_clear "/" (A +:+ String "/" session) = true) as S2.
  { apply ends_clear_app; [done|]. cbn [ends_clear]. destruct session; [done|].
    by apply (no_slash_ends_clear (String a session)). }
  unfold names_of_session_dir. split.
  - rewrite (posix_dirname_app A session Hss K1 K2). subst A.
    rewrite (posix_dirname_app J animal Has J1 J2).
    by rewrite J3, !posix_basename_app.
  - rewrite (posix_dirname_app (A +:+ String "/" session) "" eq_refl S1 S2).
    rewrite (posix_dirname_app A session Hss K1 K2). subst A.
    by rewrite !posix_basename_app.
Qed.

Lemma session_names_from_path_witness :
  names_of_session_dir "/raw/P/A/S" = ("P", "A", "S") /\
  names_of_session_dir "/raw/P/A/S/" = ("A", "S", "").
Proof.
  destruct (session_names_from_path "/raw" "P" "A" "S") as [H1 H2]; [reflexivity..|].
  split; [exact H1|exact H2].
Defined.

(** ** The metadata table *)

Lemma lstrip_space_split (s : text) :
  exists w, s = w ++ lstrip_space s /\ Forall (fun c => isspace c = true) w.
Proof.
  induction s as [|c s (w & Hw & Hall)]; [by exists []|]. cbn [lstrip_space].
  destruct (isspace c) eqn:Hc.
  - exists (c :: w). split; [by rewrite Hw at 1|by constructor].
  - by exists [].
Qed.

Lemma lstrip_space_head (s : text) (c : N) (s' : text) :
  lstrip_space s = c :: s' -> isspace c = false.
Proof.
  induction s as [|c0 s IH]; [done|]. cbn [lstrip_space].
  destruct (isspace c0) eqn:Hc; [done|]. by intros [= <- _].
Qed.

Lemma lstrip_space_fixed (s : text) :
  match s with [] => True | c :: _ => isspace c = false end -> lstrip_space s = s.
Proof. destruct s as [|c s]; [done|]. simpl. by intros ->. Qed.

Lemma lstrip_space_idem (s : text) : lstrip_space (lstrip_space s) = lstrip_space s.
Proof.
  apply lstrip_space_fixed. destruct (lstrip_space s) as [|c s'] eqn:Hs; [done|].
  by eapply lstrip_space_head.
Qed.

(** What [strip] gives has no white space at either end. *)
Lemma strip_clean (s : text) :
  lstrip_space (strip s) = strip s /\ lstrip_space (rev (strip s)) = rev (strip s).
Proof.
  unfold strip. set (a := lstrip_space s). set (b := lstrip_space (rev a)).
  split; [|by rewrite rev_involutive; apply lstrip_space_idem].
  apply lstrip_space_fixed. destruct (rev b) as [|c t] eqn:Hb; [done|].
  destruct (lstrip_space_split (rev a)) as (w & Hw & _). fold b in Hw.
  apply (f_equal (@rev N)) in Hw. rewrite rev_involutive, rev_app_distr, Hb in Hw.
  simpl in Hw. eapply (lstrip_space_head s c). fold a. exact Hw.
Qed.

Lemma strip_idem (s : text) : strip (strip s) = strip s.
Proof.
  destruct (strip_clean s) as [H1 H2]. unfold strip at 1. by rewrite H1, H2, rev_involutive.
Qed.

Lemma dict_get_set (k k' v : text) (out : text_dict) :
  dict_get k (dict_set k' v out) = if decide (k' = k) then Some v else dict_get k out.
Proof.
  induction out as [|[k0 v0] out IH]; simpl.
  - by destruct (decide (k' = k)).
  - destruct (decide (k0 = k')) as [->|Hne]; simpl.
    + by destruct (decide (k' = k)).
    + destruct (decide (k0 = k)) as [->|Hne'].
      * by destruct (decide (k' = k)) as [->|]; [|done].
      * apply IH.
Qed.

Lemma dict_set_keys (k v : text) (out : text_dict) :
  out.*1 = (dict_set k v out).*1 /\ k ∈ out.*1 \/
  (dict_set k v out).*1 = out.*1 ++ [k] /\ k ∉ out.*1.
Proof.
  induction out as [|[k0 v0] out IH]; cbn [dict_set].
  - right. split; [done|]. apply not_elem_of_nil.
  - destruct (decide (k0 = k)) as [->|Hne]; rewrite !fmap_cons; cbn [fst].
    + left. split; [done|]. by left.
    + destruct IH as [[Heq Hin]|[Heq Hin]].
      * left. split; [by rewrite <- Heq|by right].
      * right. split; [by rewrite Heq|]. by apply not_elem_of_cons.
Qed.

Lemma values_for_cons (k : text) (r : table_row) (tbl : list table_row) :
  values_for k (r :: tbl)
  = if decide (strip (cell_text r.1) = k) then cell_text r.2 :: values_for k tbl
    else values_for k tbl.
Proof. unfold values_for. simpl. by destruct (decide (strip (cell_text r.1) = k)). Qed.

(** The loop of [table_to_dict], from any [out]. *)
Lemma table_loop_get (tbl : list table_row) (out : text_dict) (k : text) :
  k <> [] ->
  dict_get k (fold_left table_row_to_dict tbl out)
  = match last (values_for k tbl) with
    | Some v => Some v
    | None => dict_get k out
    end.
Proof.
  intros Hk. revert out. induction tbl as [|r tbl IH]; intros out; [done|].
  cbn [fold_left]. rewrite IH, values_for_cons. unfold table_row_to_dict.
  destruct (decide (strip (cell_text r.1) = k)) as [Heq|Hne].
  - rewrite Heq, last_cons.
    destruct (last (values_for k tbl)) as [v|]; [done|].
    destruct k as [|c k]; [done|]. rewrite dict_get_set. by rewrite decide_True.
  - destruct (last (values_for k tbl)) as [v|]; [done|].
    destruct (strip (cell_text r.1)) as [|c k0] eqn:Hs; [done|].
    rewrite dict_get_set. by rewrite decide_False.
Qed.

Lemma table_loop_keys (tbl : list table_row) (out : text_dict) :
  NoDup out.*1 -> Forall (fun k => k <> [] /\ strip k = k) out.*1 ->
  NoDup (fold_left table_row_to_dict tbl out).*1 /\
  Forall (fun k => k <> [] /\ strip k = k) (fold_left table_row_to_dict tbl out).*1.
Proof.
  revert out. induction tbl as [|r tbl IH]; intros out Hnd Hall; [done|].
  cbn [fold_left]. apply IH.
  - unfold table_row_to_dict. destruct (strip (cell_text r.1)) as [|c k0]; [done|].
    destruct (dict_set_keys (c :: k0) (cell_text r.2) out) as [[<- _]|[-> Hin]]; [done|].
    apply NoDup_app. split_and!; [done| |apply NoDup_singleton].
    intros k Hk ->%list_elem_of_singleton. done.
  - unfold table_row_to_dict. destruct (strip (cell_text r.1)) as [|c k0] eqn:Hs; [done|].
    destruct (dict_set_keys (c :: k0) (cell_text r.2) out) as [[<- _]|[-> Hin]]; [done|].
    apply Forall_app. split; [done|]. constructor; [|done]. split; [done|].
    rewrite <- Hs. apply strip_idem.
Qed.

(** X23.  What [table_to_dict] reads off the table.  A key is the text of the
    first cell without the white space around it; rows whose key is empty
    are passed over, whatever their value; of the rows with one key the
    last gives the value; no key comes twice, and every key is not empty
    and has no white space around it. *)
Theorem table_to_dict_reads (tbl : list table_row) :
  (forall k, k <> [] -> dict_get k (table_to_dict tbl) = last (values_for k tbl)) /\
  dict_get [] (table_to_dict tbl) = None /\
  NoDup (table_to_dict tbl).*1 /\
  Forall (fun k => k <> [] /\ strip k = k) (table_to_dict tbl).*1.
Proof.
  unfold table_to_dict.
  destruct (table_loop_keys tbl []) as [Hnd Hall]; [apply NoDup_nil_2|constructor|].
  split_and!; [|  |done|done].
  - intros k Hk. rewrite table_loop_get by done. by destruct (last (values_for k tbl)).
  - destruct (dict_get [] (fold_left table_row_to_dict tbl [])) as [v|] eqn:Hg; [|done].
    assert ([] ∈ (fold_left table_row_to_dict tbl []).*1) as Hin.
    { clear -Hg. induction (fold_left table_row_to_dict tbl []) as [|[k0 v0] out IH]; [done|].
      simpl in *. destruct (decide (k0 = [])) as [->|]; [by left|]. right. by apply IH. }
    rewrite Forall_forall in Hall. by destruct (Hall _ Hin).
Qed.

Lemma table_to_dict_reads_witness :
  dict_get [97%N] (table_to_dict
                     [(Some [32; 97; 32], Some [49]); (Some [32], Some [120]);
                      (None, Some [51]); (Some [97; 10], Some [50])]%N)
  = Some [50%N].
Proof.
  destruct (table_to_dict_reads
              [(Some [32; 97; 32], Some [49]); (Some [32], Some [120]);
               (None, Some [51]); (Some [97; 10], Some [50])]%N) as (H & _).
  rewrite H by discriminate. reflexivity.
Defined.

(** * Path strings and the places they name *)

(** For a [plain] string, [path_of] is where the system calls get to when
    they follow the string component by component. *)

Lemma is_dot_false (c : string) :
  is_dot c = false -> String.eqb c "." = false /\ String.eqb c ".." = false.
Proof. unfold is_dot. by intros ?%orb_false_iff. Qed.

Lemma resolve_from_path (f : gmap (list string) node) (cs : list string) (cur p : path) :
  Forall (fun c => is_dot c = false) cs ->
  resolve_from f cur cs = Some p -> p = cur ++ List.filter nonempty cs.
Proof.
  revert cur. induction cs as [|c cs IH]; intros cur Hcs.
  { intros [= <-]. by rewrite app_nil_r. }
  apply Forall_cons in Hcs as [[Hc1 Hc2]%is_dot_false Hcs].
  cbn [resolve_from List.filter]. destruct (is_dir f cur); [|done].
  rewrite Hc1, Hc2, orb_false_r. destruct (nonempty c); cbn [negb].
  - intros H. apply (IH _ Hcs) in H. by rewrite <- app_assoc in H.
  - by apply IH.
Qed.

Lemma resolve_from_Some_dir (f : gmap (list string) node) (cs : list string) (cur p : path) :
  resolve_from f cur cs = Some p -> last cs = Some "" -> is_dir f p = true.
Proof.
  revert cur. induction cs as [|c cs IH]; intros cur; [done|].
  cbn [resolve_from]. destruct (is_dir f cur) eqn:Hd; [|done].
  destruct cs as [|c' cs'].
  - cbn [last]. intros H [= ->]. simpl in H. by injection H as <-.
  - intros H Hl. change (last (c :: c' :: cs')) with (last (c' :: cs')) in Hl.
    destruct (negb (nonempty c) || String.eqb c "."); [by eapply IH|].
    destruct (String.eqb c ".."); by eapply IH.
Qed.

Lemma all_empty_last (cs : list string) :
  cs <> [] -> List.filter nonempty cs = [] -> last cs = Some "".
Proof.
  induction cs as [|c cs IH]; [done|]. intros _. cbn [List.filter].
  destruct c as [|a c']; [|done]. cbn [nonempty]. intros H.
  destruct cs as [|c' cs']; [done|]. by apply IH.
Qed.

Lemma resolve_from_plain (f : gmap (list string) node) (cs : list string) (cur : path) :
  Forall (fun c => is_dot c = false) cs ->
  (forall q, q `prefix_of` cur ++ List.filter nonempty cs ->
     q <> cur ++ List.filter nonempty cs -> is_dir f q = true) ->
  (last cs = Some "" -> is_dir f (cur ++ List.filter nonempty cs) = true) ->
  resolve_from f cur cs = Some (cur ++ List.filter nonempty cs).
Proof.
  revert cur. induction cs as [|c cs IH]; intros cur Hcs Hpre Hlast.
  { by rewrite app_nil_r. }
  apply Forall_cons in Hcs as [[Hc1 Hc2]%is_dot_false Hcs].
  assert (is_dir f cur = true) as Hcur.
  { destruct (decide (cur = cur ++ List.filter nonempty (c :: cs))) as [Heq|Hne].
    - rewrite Heq at 1. apply Hlast. apply all_empty_last; [done|].
      apply (f_equal length) in Heq. rewrite length_app in Heq.
      destruct (List.filter nonempty (c :: cs)); [done|]. simpl in Heq. lia.
    - apply Hpre; [by apply prefix_app_r|done]. }
  cbn [resolve_from]. rewrite Hcur, Hc1, Hc2, orb_false_r.
  assert (last cs = Some "" -> last (c :: cs) = Some "") as Hl.
  { destruct cs; [done|]. done. }
  cbn [List.filter] in *. destruct (nonempty c); cbn [negb].
  - replace (cur ++ c :: List.filter nonempty cs)
      with ((cur ++ [c]) ++ List.filter nonempty cs) in * by (by rewrite <- app_assoc).
    apply IH; [done|done|]. intros H. apply Hlast. by apply Hl.
  - apply IH; [done|done|]. intros H. apply Hlast. by apply Hl.
Qed.

Lemma split_slash_one (s : string) : split_slash s = ("", []) -> s = "".
Proof.
  destruct s as [|c s]; [done|]. cbn [split_slash]. by destruct (is_slash c).
Qed.

Lemma last_split_slash (s : string) :
  s <> "" ->
  (last ((split_slash s).1 :: (split_slash s).2) = Some "" <-> ends_with_slash s = true).
Proof.
  induction s as [|c s IH]; [done|]. intros _. cbn [split_slash ends_with_slash].
  destruct s as [|c' s'].
  - simpl. destruct (is_slash c); simpl; [by split|]. split; [|done]. by intros [= ?].
  - specialize (IH ltac:(done)). pose proof (split_slash_one (String c' s')) as Hone.
    set (r := split_slash (String c' s')) in *.
    destruct (is_slash c); cbn [fst snd].
    + exact IH.
    + rewrite <- IH. destruct r as [r1 [|y ys]]; cbn [fst snd]; [|done].
      cbn [last]. split; [by intros [= ?]|]. intros [= ->]. by specialize (Hone eq_refl).
Qed.

Lemma no_dots_components (cs : list string) :
  forallb (fun c => negb (is_dot c)) (List.filter nonempty cs) = true ->
  Forall (fun c => is_dot c = false) cs.
Proof.
  induction cs as [|c cs IH]; [constructor|]. cbn [List.filter].
  destruct (nonempty c) eqn:Hn.
  - cbn [forallb]. intros [Hc Hcs]%andb_true_iff. constructor; [|by apply IH].
    by apply negb_true_iff.
  - intros H. constructor; [by destruct c|by apply IH].
Qed.

(** What [os.path.exists] answers for a plain string in a file system that
    is a tree: whether there is an entry at [path_of], a directory when the
    string ends with ["/"]. *)
Lemma str_exists_plain (f : gmap (list string) node) (s : string) :
  wf_fs f -> plain s = true ->
  str_exists f s
  = path_exists f (path_of s) && (negb (ends_with_slash s) || is_dir f (path_of s)).
Proof.
  intros Hwf [[Hs Hnul]%andb_true_iff Hdots]%andb_true_iff.
  assert (s <> "") as Hne by (by destruct s).
  unfold str_exists, resolve, path_of in *.
  set (cs := (split_slash s).1 :: (split_slash s).2) in *.
  assert (nonempty s = true) as -> by (by destruct s). rewrite Hnul. cbn [andb].
  assert (Forall (fun c => is_dot c = false) cs) as Hcs by (by apply no_dots_components).
  pose proof (last_split_slash s Hne) as Hlast. fold cs in Hlast.
  destruct (path_exists f (List.filter nonempty cs)) eqn:Hex; cbn [andb].
  - destruct (negb (ends_with_slash s) || is_dir f (List.filter nonempty cs)) eqn:Hok.
    + rewrite (resolve_from_plain f cs []); cbn [app]; [done|done| |].
      * intros q [r Hr] Hq. rewrite Hr in Hex, Hq. apply (wf_prefix_is_dir f q r Hwf Hex).
        intros ->. by rewrite app_nil_r in Hq.
      * intros Hl%Hlast. rewrite Hl in Hok. done.
    + apply orb_false_iff in Hok as [He%negb_false_iff Hd].
      destruct (resolve_from f [] cs) as [p|] eqn:Hr; [|done].
      pose proof (resolve_from_Some_dir f cs [] p Hr (proj2 Hlast He)) as Hp.
      apply resolve_from_path in Hr as ->; [|done]. cbn [app] in Hp. congruence.
  - destruct (resolve_from f [] cs) as [p|] eqn:Hr; [|done].
    apply resolve_from_path in Hr as ->; [|done]. done.
Qed.
